(** * Blink: time tracking, classification and break reminders

    A shallow embedding of the extension's background service worker
    ([background.js]) and of the activity monitor and break banner of its
    content script ([content.js]), with the properties of the design
    document stated over it.

    Conventions.  Timestamps and durations are JavaScript numbers holding
    integral milliseconds; they are modelled by [Z], and every reading of
    [Date.now()] is an argument [now].  A nullable variable is an [option];
    JavaScript truthiness is written out ([truthyZ], [truthyS]).  A plain
    object used as a dictionary is a [gmap] of its own properties (where
    the code looks up a name the user chose in an object it built itself,
    the popup's [catTotals], what [Object.prototype] has under that name
    is written out); an object whose iteration order
    matters ([categoryMap], read with [Object.entries]) is an association
    list in iteration order.  [new URL] belongs to the platform and is a
    parameter ([URL_new]).  [chrome.storage] is the key-value store of the
    design document: a read returns the last value written, operations do
    not fail, and each takes effect at once when the procedure that awaits
    it is resumed. *)

From Stdlib Require Import ZArith String Ascii List Bool Lia.
From stdpp Require Import base option list gmap strings fin_maps.

Local Open Scope string_scope.
Local Open Scope list_scope.
Local Open Scope Z_scope.

(** ** JavaScript values used by the code *)

Module JS.

(** [ToBoolean] on a nullable number: [null], [undefined] and [0] are falsy. *)
Definition truthyZ (v : option Z) : bool :=
  match v with
  | Some n => negb (n =? 0)
  | None => false
  end.

(** [ToBoolean] on a nullable string: [null], [undefined] and the empty
    string are falsy. *)
Definition truthyS (v : option string) : bool :=
  match v with
  | Some EmptyString => false
  | Some _ => true
  | None => false
  end.

(** [a || b] on nullable numbers and strings. *)
Definition orZ (a : option Z) (b : Z) : Z :=
  match a with
  | Some n => if n =? 0 then b else n
  | None => b
  end.

Definition orS (a b : option string) : option string :=
  if truthyS a then a else b.

(** [s || ""] on a string. *)
Definition or_empty (s : string) : string :=
  if truthyS (Some s) then s else "".

(** [s.startsWith(p)], the auxiliary of [includes]. *)
Fixpoint startsWith (s p : string) {struct p} : bool :=
  match p, s with
  | EmptyString, _ => true
  | String _ _, EmptyString => false
  | String a p', String b s' => if Ascii.eqb a b then startsWith s' p' else false
  end.

(** [s.includes(p)]: [p] starts at some position of [s]. *)
Fixpoint includes (s p : string) : bool :=
  startsWith s p ||
  match s with
  | EmptyString => false
  | String _ s' => includes s' p
  end.

(** What a JavaScript function call produces: a value, or an exception. *)
Inductive completion (A : Type) : Type :=
| Normal (a : A)
| Throw (err : string).
Arguments Normal {A} a.
Arguments Throw {A} err.

Definition cbind {A B} (c : completion A) (k : A -> completion B) : completion B :=
  match c with
  | Normal a => k a
  | Throw e => Throw e
  end.

(** [try { body } catch (e) { handler }] *)
Definition try_catch {A} (body : completion A) (handler : string -> completion A)
  : completion A :=
  match body with
  | Normal a => Normal a
  | Throw e => handler e
  end.

(** The part of a [URL] object the code reads. *)
Record URL := { hostname : string; pathname : string }.

(** A reference reading of [new URL(s)] for absolute URLs of the shape
    [scheme://host/path] with a lower-case ASCII host and no port, query or
    fragment, which is all the examples below use.  Anything without
    [://] has no scheme and no base, so the constructor throws; an empty
    path is reported as [/]. *)
Fixpoint split_host (s : string) : string * string :=
  match s with
  | EmptyString => (EmptyString, "/")
  | String c s' =>
      if Ascii.eqb c "/"%char then (EmptyString, s)
      else let '(h, p) := split_host s' in (String c h, p)
  end.

Fixpoint after_scheme (s : string) : option string :=
  match s with
  | EmptyString => None
  | String c s' =>
      if startsWith s "://" then
        match s' with
        | String _ (String _ rest) => Some rest
        | _ => None
        end
      else after_scheme s'
  end.

Definition simple_URL (s : string) : option URL :=
  match s with
  | EmptyString => None
  | String c _ =>
      if Ascii.eqb c ":"%char then None
      else match after_scheme s with
           | Some rest =>
               let '(h, p) := split_host rest in
               if String.eqb h "" then None else Some {| hostname := h; pathname := p |}
           | None => None
           end
  end.

End JS.

(** ** The domain classifier ([getCategoryForUrl], background.js) *)

Module Classifier.
Import JS.

(** [Object.entries(map)]: the categories with their patterns, in the
    object's own iteration order. *)
Definition categoryMap := list (string * list string).

Definition DEFAULT_CATEGORY_MAP : categoryMap :=
  [ ("social", ["youtube.com"; "instagram.com"; "twitter.com"; "tiktok.com";
                "facebook.com"; "reddit.com"]);
    ("games", ["roblox.com"; "steampowered.com"; "epicgames.com"; "miniclip.com"]);
    ("school", ["classroom.google.com"; "canvas.instructure.com";
                "google.com/drive"; "docs.google.com"]);
    ("productive", ["notion.so"; "github.com"; "stackoverflow.com";
                    "drive.google.com"; "docs.google.com"]) ].

(** [Object.entries] throws a [TypeError] on [null] and [undefined]. *)
Definition Object_entries (map : option categoryMap) : completion categoryMap :=
  match map with
  | Some entries => Normal entries
  | None => Throw "TypeError: Cannot convert undefined or null to object"
  end.

Section WithURL.
(** The platform's URL parser: [None] when [new URL(s)] throws. *)
Variable URL_new : string -> option URL.

Definition new_URL (s : string) : completion URL :=
  match URL_new s with
  | Some u => Normal u
  | None => Throw "TypeError: Invalid URL"
  end.

(** The inner loop [for (const p of patterns)]: [true] when it reaches
    [return cat]. *)
Fixpoint scan_patterns (host url : string) (patterns : list string) : bool :=
  match patterns with
  | [] => false
  | p :: rest =>
      if negb (truthyS (Some p)) then scan_patterns host url rest
      else if includes host p || includes url p then true
      else scan_patterns host url rest
  end.

(** The outer loop [for (const [cat, patterns] of Object.entries(map))]:
    the category returned from inside the loops, if any. *)
Fixpoint scan_entries (host url : string) (entries : categoryMap) : option string :=
  match entries with
  | [] => None
  | (cat, patterns) :: rest =>
      if scan_patterns host url patterns then Some cat
      else scan_entries host url rest
  end.

(** The body of the [try] block: [Some cat] when it returns, [None] when it
    falls through to the end of the block. *)
Definition getCategoryForUrl_try (url : string) (map : option categoryMap)
  : completion (option string) :=
  cbind (new_URL url) (fun u1 =>
  cbind (new_URL url) (fun u2 =>
  let host := (hostname u1 ++ or_empty (pathname u2))%string in
  cbind (Object_entries map) (fun entries =>
  Normal (scan_entries host url entries)))).

Definition getCategoryForUrl (url : string) (map : option categoryMap)
  : completion string :=
  match try_catch (getCategoryForUrl_try url map) (fun _ => Normal None) with
  | Normal (Some cat) => Normal cat
  | Normal None => Normal "other"
  | Throw e => Throw e
  end.

(** The value of a call, for callers that use it as an expression. *)
Definition category_of (url : string) (map : option categoryMap) : string :=
  match getCategoryForUrl url map with
  | Normal c => c
  | Throw _ => "other"
  end.

End WithURL.

(** The classification rule as the design document words it: walk the
    patterns in the map's iteration order and take the category of the first
    one that occurs as a substring of hostname+path or of the raw URL;
    ["other"] when none does.  [host] is absent when the URL has no
    hostname and path to extract. *)
Definition flatten (entries : categoryMap) : list (string * string) :=
  flat_map (fun '(cat, patterns) => map (fun p => (cat, p)) patterns) entries.

Definition occurs_in (p s : string) : Prop :=
  exists a b, s = (a ++ p ++ b)%string.

Definition pattern_matches (host : option string) (url p : string) : Prop :=
  (exists h, host = Some h /\ occurs_in p h) \/ occurs_in p url.

Definition first_match (P : string -> Prop) (l : list (string * string)) (c : string)
  : Prop :=
  (exists l1 cat p l2,
      l = l1 ++ (cat, p) :: l2 /\ P p /\ Forall (fun cp => ~ P (snd cp)) l1 /\ c = cat)
  \/ (Forall (fun cp => ~ P (snd cp)) l /\ c = "other").

Definition host_of (u : option URL) : option string :=
  match u with
  | Some u => Some (hostname u ++ pathname u)%string
  | None => None
  end.

Definition classify_documented (URL_new : string -> option URL) (url : string)
    (entries : categoryMap) (c : string) : Prop :=
  first_match (pattern_matches (host_of (URL_new url)) url) (flatten entries) c.

(** The test the two loops apply to one pattern. *)
Definition hit (host url p : string) : bool :=
  truthyS (Some p) && (includes host p || includes url p).

(** The map of the design document's example. *)
Definition example_map : categoryMap := [("A", ["x.com"]); ("B", ["x.com/y"])].

End Classifier.

(** ** The background service worker (background.js) *)

Module Background.
Import JS Classifier.

(** *** Data *)

(** One value of the [domainStats] dictionary.  [saveDomainTime] creates
    entries without [lastActive]; every field may be absent in stored data. *)
Record entry := {
  time : option Z;
  category : option string;
  lastActive : option Z
}.

(** [chrome.storage.local]: each key may be absent. *)
Record local_storage := {
  domainStats : option (gmap string entry);
  stored_productiveAccumulated : option Z;
  lastShownBreakThreshold : option Z;
  stored_categoryMap : option categoryMap
}.

(** The module-level variables ("runtime state"). *)
Record memory := {
  activeTabId : option Z;
  activeDomain : option string;
  activeCategory : option string;
  activeStart : Z;
  productiveSessionStart : option Z;
  productiveAccumulated : Z;
  distractingStart : option Z
}.

(** Messages the worker sends to content scripts. *)
Inductive message :=
| showBreak (reason : string) (thresholdMs : Z)
| getBackToWork (reason : string) (durationMs : Z)
| startBreak (durationMs : option Z)
| idleState (state : string)
| activeCategoryIs (cat : option string).

(** Answers given through [sendResponse]. *)
Inductive response :=
| ok (b : bool)
| ok_error (b : bool) (error : string)
| domainTime (t : Z) (cat : option string) (last : Z)
| summary (stats : gmap string entry) (acc : Z).

(** What leaves the worker. *)
Inductive output :=
| ToAllTabs (m : message)
| ToTab (id : Z) (m : message)
| Respond (r : response)
| CreateTab (url : option string).

Record world := {
  mem : memory;
  local : local_storage;
  sync_categoryMap : option categoryMap;
  sent : list output
}.

(** *** Asynchronous procedures

    An [async] function is a tree of events.  The awaited ones are its
    suspension points: the code between two of them runs without
    interruption, and other callbacks may run while it is suspended. *)
Inductive event : Type -> Type :=
| LocalGet : event local_storage
| LocalSet (upd : local_storage -> local_storage) : event unit
| LocalSetDetached (upd : local_storage -> local_storage) : event unit
| SyncGetCategoryMap : event (option categoryMap)
| ReadMem : event memory
| WriteMem (upd : memory -> memory) : event unit
| Emit (o : output) : event unit.

Definition awaited {X} (e : event X) : bool :=
  match e with
  | LocalGet | LocalSet _ | SyncGetCategoryMap => true
  | _ => false
  end.

Inductive proc (A : Type) : Type :=
| Ret (a : A)
| Raise (err : string)
| Vis {X : Type} (e : event X) (k : X -> proc A).
Arguments Ret {A} a.
Arguments Raise {A} err.
Arguments Vis {A X} e k.

Fixpoint bind {A B} (p : proc A) (f : A -> proc B) : proc B :=
  match p with
  | Ret a => f a
  | Raise e => Raise e
  | Vis e k => Vis e (fun x => bind (k x) f)
  end.

(** [try { p } catch (e) { h e }] *)
Fixpoint catch {A} (p : proc A) (h : string -> proc A) : proc A :=
  match p with
  | Ret a => Ret a
  | Raise e => h e
  | Vis e k => Vis e (fun x => catch (k x) h)
  end.

Definition trigger {X} (e : event X) : proc X := Vis e Ret.

(** Every event a procedure can reach satisfies [P]. *)
Inductive only (P : forall X, event X -> Prop) {A} : proc A -> Prop :=
| only_Ret a : only P (Ret a)
| only_Raise err : only P (Raise err)
| only_Vis {X} (e : event X) k : P X e -> (forall x, only P (k x)) -> only P (Vis e k).

Definition lift {A} (c : completion A) : proc A :=
  match c with
  | Normal a => Ret a
  | Throw e => Raise e
  end.

Declare Scope proc_scope.
Delimit Scope proc_scope with proc.
Notation "'let*' x ':=' p 'in' q" := (bind p (fun x => q))
  (at level 10, x pattern, p at level 100, q at level 200) : proc_scope.
Notation "p ';;' q" := (bind p (fun _ => q))
  (at level 100, q at level 200, right associativity) : proc_scope.
Local Open Scope proc_scope.

(** The effect of one event on the world, and its answer. *)
Definition set_mem (m : memory) (w : world) : world :=
  {| mem := m; local := local w; sync_categoryMap := sync_categoryMap w; sent := sent w |}.
Definition set_local (l : local_storage) (w : world) : world :=
  {| mem := mem w; local := l; sync_categoryMap := sync_categoryMap w; sent := sent w |}.
Definition add_sent (o : output) (w : world) : world :=
  {| mem := mem w; local := local w; sync_categoryMap := sync_categoryMap w;
     sent := sent w ++ [o] |}.

Definition perform {X} (e : event X) (w : world) : world * X :=
  match e in event X return world * X with
  | LocalGet => (w, local w)
  | LocalSet upd => (set_local (upd (local w)) w, tt)
  | LocalSetDetached upd => (set_local (upd (local w)) w, tt)
  | SyncGetCategoryMap => (w, sync_categoryMap w)
  | ReadMem => (w, mem w)
  | WriteMem upd => (set_mem (upd (mem w)) w, tt)
  | Emit o => (add_sent o w, tt)
  end.

(** Running a procedure to its end with nothing else in between. *)
Fixpoint run {A} (p : proc A) (w : world) : world * completion A :=
  match p with
  | Ret a => (w, Normal a)
  | Raise e => (w, Throw e)
  | Vis e k => let '(w', x) := perform e w in run (k x) w'
  end.

(** The synchronous stretch of a procedure: up to its next awaited event,
    which is left pending. *)
Fixpoint advance {A} (p : proc A) (w : world) : world * proc A :=
  match p with
  | Vis e k =>
      if awaited e then (w, p)
      else let '(w', x) := perform e w in advance (k x) w'
  | _ => (w, p)
  end.

(** Resuming a suspended procedure: its pending operation takes effect and
    the code after the [await] runs up to the next one. *)
Definition resume {A} (p : proc A) (w : world) : world * proc A :=
  match p with
  | Vis e k => let '(w', x) := perform e w in advance (k x) w'
  | _ => (w, p)
  end.

(** *** The functions of background.js *)

Definition GET_BACK_THRESHOLD : Z := 15 * 60 * 1000.
Definition BREAK_THRESHOLDS : list Z :=
  [2 * 60 * 60 * 1000; 3 * 60 * 60 * 1000; 4 * 60 * 60 * 1000].

(** The list the loop of [periodicChecks] walks, written out there. *)
Definition checked_thresholds : list Z :=
  [4 * 60 * 60 * 1000; 3 * 60 * 60 * 1000; 2 * 60 * 60 * 1000].

Record prefs := { prefs_categoryMap : option categoryMap; breakThresholds : list Z }.

Definition loadPrefs : proc prefs :=
  let* stored := trigger SyncGetCategoryMap in
  Ret {| prefs_categoryMap := Some (default DEFAULT_CATEGORY_MAP stored);
         breakThresholds := BREAK_THRESHOLDS |}.

Definition pushToAllTabs (m : message) : proc unit := trigger (Emit (ToAllTabs m)).

Definition set_domainStats (map : gmap string entry) (l : local_storage) : local_storage :=
  {| domainStats := Some map;
     stored_productiveAccumulated := stored_productiveAccumulated l;
     lastShownBreakThreshold := lastShownBreakThreshold l;
     stored_categoryMap := stored_categoryMap l |}.

Definition set_lastShownBreakThreshold (t : Z) (l : local_storage) : local_storage :=
  {| domainStats := domainStats l;
     stored_productiveAccumulated := stored_productiveAccumulated l;
     lastShownBreakThreshold := Some t;
     stored_categoryMap := stored_categoryMap l |}.

Definition set_stored_productiveAccumulated (a : Z) (l : local_storage) : local_storage :=
  {| domainStats := domainStats l;
     stored_productiveAccumulated := Some a;
     lastShownBreakThreshold := lastShownBreakThreshold l;
     stored_categoryMap := stored_categoryMap l |}.

(** [stored[key] || {}] *)
Definition stats (stored : local_storage) : gmap string entry :=
  default ∅ (domainStats stored).

(** The two assignments of [saveDomainTime] to the entry. *)
Definition save_time (cat : option string) (deltaMs : Z) (e : entry) : entry :=
  {| time := Some (orZ (time e) 0 + deltaMs);
     category := orS cat (category e);
     lastActive := lastActive e |}.

Definition saveDomainTime (domain cat : option string) (deltaMs : Z) : proc unit :=
  match domain with
  | Some d =>
      if negb (truthyS domain) then Ret tt
      else
        let* stored := trigger LocalGet in
        let map := stats stored in
        let entry0 :=
          default {| time := Some 0; category := orS cat (Some "other");
                     lastActive := None |} (map !! d) in
        trigger (LocalSet (set_domainStats (<[d := save_time cat deltaMs entry0]> map)))
  | None => Ret tt
  end.

(** The entry [addDomainTime] and [getDomainTime] use for an unknown domain,
    and the assignments of [addDomainTime] to the entry. *)
Definition blank_entry : entry :=
  {| time := Some 0; category := None; lastActive := Some 0 |}.

Definition add_time (delta now : Z) (e : entry) : entry :=
  {| time := Some (orZ (time e) 0 + delta);
     category := category e;
     lastActive := Some now |}.

Definition fill_category (cat : string) (e : entry) : entry :=
  {| time := time e;
     category := orS (category e) (Some cat);
     lastActive := lastActive e |}.

Record tab := { tab_id : Z; tab_url : option string }.

Definition is_one_of (cat : option string) (names : list string) : bool :=
  match cat with
  | Some c => existsb (String.eqb c) names
  | None => false
  end.

(** The streak update of [handleTabChange], on the variables as they are
    when the code reaches it. *)
Definition update_streaks (cat : option string) (now delta : Z) (m : memory) : memory :=
  if is_one_of cat ["productive"; "school"] then
    {| activeTabId := activeTabId m; activeDomain := activeDomain m;
       activeCategory := activeCategory m; activeStart := activeStart m;
       productiveSessionStart :=
         if negb (truthyZ (productiveSessionStart m)) then Some (activeStart m)
         else productiveSessionStart m;
       productiveAccumulated := productiveAccumulated m + delta;
       distractingStart := None |}
  else if is_one_of cat ["social"; "games"; "other"] then
    {| activeTabId := activeTabId m; activeDomain := activeDomain m;
       activeCategory := activeCategory m; activeStart := activeStart m;
       productiveSessionStart := None;
       productiveAccumulated := productiveAccumulated m;
       distractingStart :=
         if negb (truthyZ (distractingStart m)) then Some (now - delta)
         else distractingStart m |}
  else m.

Definition set_active (id : option Z) (dom cat : option string) (start : Z) (m : memory)
  : memory :=
  {| activeTabId := id; activeDomain := dom; activeCategory := cat; activeStart := start;
     productiveSessionStart := productiveSessionStart m;
     productiveAccumulated := productiveAccumulated m;
     distractingStart := distractingStart m |}.

Definition set_distractingStart (d : option Z) (m : memory) : memory :=
  {| activeTabId := activeTabId m; activeDomain := activeDomain m;
     activeCategory := activeCategory m; activeStart := activeStart m;
     productiveSessionStart := productiveSessionStart m;
     productiveAccumulated := productiveAccumulated m;
     distractingStart := d |}.

Section Handlers.
Variable URL_new : string -> option URL.

(** [String(v)] of a nullable string handed to [new URL]. *)
Definition to_string (v : option string) : string := default "null" v.

(** First half of [handleTabChange]: "store time spent on previous active
    tab" and update the streaks. *)
Definition close_interval (now : Z) : proc unit :=
  let* m0 := trigger ReadMem in
  if truthyS (activeDomain m0) && truthyZ (Some (activeStart m0)) then
    let delta := now - activeStart m0 in
    let* prefs := loadPrefs in
    let* m1 := trigger ReadMem in
    let* cat :=
      (if truthyS (activeCategory m1) then Ret (activeCategory m1)
       else let* c := lift (getCategoryForUrl URL_new (to_string (activeDomain m1))
                              (prefs_categoryMap prefs)) in
            Ret (Some c)) in
    saveDomainTime (activeDomain m1) cat delta ;;
    trigger (WriteMem (update_streaks cat now delta))
  else Ret tt.

(** Second half: "update active tab info". *)
Definition open_interval (t : option tab) (now : Z) : proc unit :=
  match t with
  | Some {| tab_id := id; tab_url := Some url |} =>
      if negb (truthyS (Some url)) then
        trigger (WriteMem (set_active None None None now))
      else
        trigger (WriteMem (fun m =>
          set_active (Some id) (activeDomain m) (activeCategory m) (activeStart m) m)) ;;
        let* u := lift (new_URL URL_new url) in
        trigger (WriteMem (fun m =>
          set_active (activeTabId m) (Some (hostname u)) (activeCategory m)
            (activeStart m) m)) ;;
        let* prefs := loadPrefs in
        let* c := lift (getCategoryForUrl URL_new url (prefs_categoryMap prefs)) in
        trigger (WriteMem (fun m =>
          set_active (activeTabId m) (activeDomain m) (Some c) now m)) ;;
        let* m2 := trigger ReadMem in
        trigger (Emit (ToTab id (activeCategoryIs (activeCategory m2))))
  | _ => trigger (WriteMem (set_active None None None now))
  end.

Definition handleTabChange (t : option tab) (now : Z) : proc unit :=
  close_interval now ;; open_interval t now.

(** The category [handleTabChange] gives the interval it closes. *)
Definition interval_category (w : world) : option string :=
  if truthyS (activeCategory (mem w)) then activeCategory (mem w)
  else Some (category_of URL_new (to_string (activeDomain (mem w)))
               (Some (default DEFAULT_CATEGORY_MAP (sync_categoryMap w)))).

(** The loop [for (const t of [4h, 3h, 2h])] with its [break]. *)
Fixpoint check_thresholds (productiveDuration lastShown : Z) (ts : list Z) : proc unit :=
  match ts with
  | [] => Ret tt
  | t :: rest =>
      if (productiveDuration >=? t) && (lastShown <? t) then
        pushToAllTabs (showBreak "long_work" t) ;;
        trigger (LocalSet (set_lastShownBreakThreshold t))
      else check_thresholds productiveDuration lastShown rest
  end.

(** [periodicChecks] in its three parts: "check productive session
    thresholds", "check distracting streak", "persist
    productiveAccumulated". *)
Definition check_productive (now : Z) : proc unit :=
  let* m0 := trigger ReadMem in
  match productiveSessionStart m0 with
  | Some start =>
      if negb (truthyZ (Some start)) then Ret tt
      else
        let productiveDuration := productiveAccumulated m0 + (now - start) in
        let* s := trigger LocalGet in
        let lastShown := orZ (lastShownBreakThreshold s) 0 in
        check_thresholds productiveDuration lastShown checked_thresholds
  | None => Ret tt
  end.

Definition check_distracting (now : Z) : proc unit :=
  let* m1 := trigger ReadMem in
  match distractingStart m1 with
  | Some start =>
      if negb (truthyZ (Some start)) then Ret tt
      else
        let distractingDuration := now - start in
        if distractingDuration >=? GET_BACK_THRESHOLD then
          pushToAllTabs (getBackToWork "distracted" distractingDuration) ;;
          trigger (WriteMem (set_distractingStart None))
        else Ret tt
  | None => Ret tt
  end.

Definition persist_accumulated : proc unit :=
  let* m2 := trigger ReadMem in
  trigger (LocalSet (set_stored_productiveAccumulated (productiveAccumulated m2))).

Definition periodicChecks (now : Z) : proc unit :=
  check_productive now ;; check_distracting now ;; persist_accumulated.

(** The requests of [chrome.runtime.onMessage].  [deltaMs] is what
    [Number(msg.deltaMs)] gives: [None] stands for [NaN]. *)
Inductive request :=
| resetBreakShown
| openOptionsTab (url : option string)
| addDomainTime (domain : option string) (deltaMs : option Z)
| getDomainTime (domain : option string)
| getSummary
| startBreakFromPopup (durationMs : option Z)
| summarize
| other_action.

Definition sendResponse (r : response) : proc unit := trigger (Emit (Respond r)).

(** The read-modify-write of [addDomainTime], for a request that passed the
    check. *)
Definition addDomainTime_store (d : string) (delta now : Z) : proc unit :=
  let* stored := trigger LocalGet in
  let map := stats stored in
  let entry1 := add_time delta now (default blank_entry (map !! d)) in
  let* entry2 :=
    catch
      (let* prefs := loadPrefs in
       let* cat := lift (getCategoryForUrl URL_new ("https://" ++ d)%string
                           (prefs_categoryMap prefs)) in
       Ret (fill_category cat entry1))
      (fun _ => Ret entry1) in
  trigger (LocalSet (set_domainStats (<[d := entry2]> map))) ;;
  sendResponse (ok true).

Definition addDomainTime_handler (domain : option string) (deltaMs : option Z) (now : Z)
  : proc unit :=
  catch
    (let delta := orZ deltaMs 0 in
     match domain with
     | Some d =>
         if negb (truthyS domain) || (delta <=? 0) then sendResponse (ok false)
         else addDomainTime_store d delta now
     | None => sendResponse (ok false)
     end)
    (fun _ => sendResponse (ok false)).

(** The category [addDomainTime] computes for a domain. *)
Definition domain_category (w : world) (d : string) : string :=
  category_of URL_new ("https://" ++ d)%string
    (Some (default DEFAULT_CATEGORY_MAP (sync_categoryMap w))).

Definition getDomainTime_handler (domain : option string) : proc unit :=
  let* stored := trigger LocalGet in
  let entry0 := default blank_entry (stats stored !! default "undefined" domain) in
  sendResponse (domainTime (orZ (time entry0) 0) (orS (category entry0) None)
                  (orZ (lastActive entry0) 0)).

Definition onMessage (msg : option request) (now : Z) : proc unit :=
  match msg with
  | None => Ret tt
  | Some resetBreakShown =>
      trigger (LocalSetDetached (set_lastShownBreakThreshold 0)) ;;
      sendResponse (ok true)
  | Some (openOptionsTab url) =>
      trigger (Emit (CreateTab url)) ;;
      sendResponse (ok true)
  | Some (addDomainTime domain deltaMs) => addDomainTime_handler domain deltaMs now
  | Some (getDomainTime domain) => getDomainTime_handler domain
  | Some getSummary =>
      let* data := trigger LocalGet in
      let* m := trigger ReadMem in
      sendResponse (summary (stats data)
                      (orZ (stored_productiveAccumulated data) (productiveAccumulated m)))
  | Some (startBreakFromPopup durationMs) =>
      pushToAllTabs (startBreak durationMs) ;;
      sendResponse (ok true)
  | Some summarize => sendResponse (ok_error false "summarizer_removed")
  | Some other_action => Ret tt
  end.



(** What the event loop can run: a tick of the 30 s timer, a focus change,
    a request, or a change of the system idle state. *)
Inductive callback :=
| Tick (now : Z)
| FocusChange (t : option tab) (now : Z)
| Message (msg : option request) (now : Z)
| IdleChange (state : string).

Definition body (c : callback) : proc unit :=
  match c with
  | Tick now => periodicChecks now
  | FocusChange t now => handleTabChange t now
  | Message msg now => onMessage msg now
  | IdleChange state => pushToAllTabs (idleState state)
  end.

(** Callbacks run one after the other, each to its end: the schedule in
    which the handlers take turns.  Handlers that overlap at their awaits
    are the subject of [interleave] below. *)
Fixpoint run_all (cs : list callback) (w : world) : world :=
  match cs with
  | [] => w
  | c :: rest => run_all rest (fst (run (body c) w))
  end.

(** What a run adds to the messages sent so far. *)
Definition emitted (p : proc unit) (w : world) : list output :=
  drop (length (sent w)) (sent (fst (run p w))).

Definition emitted_all (cs : list callback) (w : world) : list output :=
  drop (length (sent w)) (sent (run_all cs w)).

(** The thresholds of the [showBreak] broadcasts, and the durations of the
    [getBackToWork] broadcasts, among some outputs. *)
Definition breaks_shown (outs : list output) : list Z :=
  omap (fun o => match o with
                 | ToAllTabs (showBreak _ t) => Some t
                 | _ => None
                 end) outs.

Definition nudges (outs : list output) : list Z :=
  omap (fun o => match o with
                 | ToAllTabs (getBackToWork _ d) => Some d
                 | _ => None
                 end) outs.

(** The effective productive duration of the design document:
    [accumulatedMs + (sessionStartedAt ? now - sessionStartedAt : 0)]. *)
Definition effective_duration (now : Z) (m : memory) : Z :=
  productiveAccumulated m +
  match productiveSessionStart m with
  | Some start => if truthyZ (Some start) then now - start else 0
  | None => 0
  end.

(** The latch: [lastShownBreakThreshold || 0]. *)
Definition latch (w : world) : Z := orZ (lastShownBreakThreshold (local w)) 0.

(** [t] is the first threshold of [ts] that a duration has reached and the
    latch is below. *)
Definition first_due (duration lastShown : Z) (ts : list Z) (t : Z) : Prop :=
  exists before after,
    ts = before ++ t :: after
    /\ t <= duration /\ lastShown < t
    /\ Forall (fun t' => ~ (t' <= duration /\ lastShown < t')) before.

Definition is_reset (c : callback) : Prop :=
  exists now, c = Message (Some resetBreakShown) now.

Definition is_focus_change (c : callback) : Prop :=
  exists t now, c = FocusChange t now.

(** Messages are only ever added. *)
Definition extends (w w' : world) : Prop := exists outs, sent w' = sent w ++ outs.

(** The test of the threshold loop. *)
Definition due (duration lastShown t : Z) : bool := (duration >=? t) && (lastShown <? t).

(** The world after a threshold has fired. *)
Definition fired (t : Z) (w : world) : world :=
  set_local (set_lastShownBreakThreshold t (local w))
    (add_sent (ToAllTabs (showBreak "long_work" t)) w).

(** The world after the nudge has fired. *)
Definition nudged (duration : Z) (w : world) : world :=
  set_mem (set_distractingStart None (mem w))
    (add_sent (ToAllTabs (getBackToWork "distracted" duration)) w).

(** Events that leave the latch alone and show no break. *)
Definition keeps_latch X (e : event X) : Prop :=
  match e with
  | LocalSet upd | LocalSetDetached upd =>
      forall l, lastShownBreakThreshold (upd l) = lastShownBreakThreshold l
  | Emit o => breaks_shown [o] = []
  | _ => True
  end.

Definition latch_kept (w w' : world) : Prop :=
  lastShownBreakThreshold (local w') = lastShownBreakThreshold (local w)
  /\ exists outs, sent w' = sent w ++ outs /\ breaks_shown outs = [].

(** Events that start no distraction streak and send no nudge. *)
Definition keeps_calm X (e : event X) : Prop :=
  match e with
  | WriteMem upd =>
      forall m, truthyZ (distractingStart m) = false ->
                truthyZ (distractingStart (upd m)) = false
  | Emit o => nudges [o] = []
  | _ => True
  end.

Definition calm_kept (w w' : world) : Prop :=
  (truthyZ (distractingStart (mem w)) = false ->
   truthyZ (distractingStart (mem w')) = false)
  /\ exists outs, sent w' = sent w ++ outs /\ nudges outs = [].

(** The threshold the productive check of a tick fires, if any. *)
Definition due_threshold (now : Z) (w : world) : option Z :=
  if truthyZ (productiveSessionStart (mem w))
  then find (due (effective_duration now (mem w)) (latch w)) checked_thresholds
  else None.

(** The test of the distraction check. *)
Definition streak_due (now : Z) (w : world) : bool :=
  match distractingStart (mem w) with
  | Some start => truthyZ (Some start) && (now - start >=? GET_BACK_THRESHOLD)
  | None => false
  end.

(** Events that leave the productivity streak alone. *)
Definition keeps_productive X (e : event X) : Prop :=
  match e with
  | WriteMem upd =>
      forall m, productiveSessionStart (upd m) = productiveSessionStart m
                /\ productiveAccumulated (upd m) = productiveAccumulated m
  | _ => True
  end.

Definition productive_kept (w w' : world) : Prop :=
  productiveSessionStart (mem w') = productiveSessionStart (mem w)
  /\ productiveAccumulated (mem w') = productiveAccumulated (mem w).

(** *** Overlapping callbacks

    A callback that has reached an [await] stays in the pool of suspended
    procedures; the event loop may start another callback, or resume any
    suspended one, in any order. *)
Inductive action :=
| Start (p : proc unit)
| Continue (i : nat).

Definition step (a : action) (st : world * list (proc unit)) : world * list (proc unit) :=
  let '(w, pool) := st in
  match a with
  | Start p => let '(w', p') := advance p w in (w', pool ++ [p'])
  | Continue i =>
      match pool !! i with
      | Some p => let '(w', p') := resume p w in (w', <[i := p']> pool)
      | None => st
      end
  end.

Definition interleave (acts : list action) (st : world * list (proc unit))
  : world * list (proc unit) :=
  fold_left (fun st a => step a st) acts st.

(** Two procedures are started, then resumed in the order a list of
    booleans gives: [false] resumes the first, [true] the second. *)
Definition pick (b : bool) : action := Continue (if b then 1 else 0)%nat.

Definition race (p1 p2 : proc unit) (sched : list bool) (w : world)
  : world * list (proc unit) :=
  interleave (Start p1 :: Start p2 :: map pick sched) (w, []).

(** Where a procedure first and last runs in a schedule.  For the
    read-modify-write sequences below the first resumption is the read of
    [domainStats] and the last is the write. *)
Fixpoint first_at (b : bool) (sched : list bool) : option nat :=
  match sched with
  | [] => None
  | x :: rest => if Bool.eqb x b then Some 0%nat else S <$> first_at b rest
  end.

Fixpoint last_at (b : bool) (sched : list bool) : option nat :=
  match sched with
  | [] => None
  | x :: rest =>
      match last_at b rest with
      | Some i => Some (S i)
      | None => if Bool.eqb x b then Some 0%nat else None
      end
  end.

(** The read of [b] comes after the write of the other callback. *)
Definition observes (b : bool) (sched : list bool) : bool :=
  match last_at (negb b) sched, first_at b sched with
  | Some written, Some read => (written <? read)%nat
  | _, _ => false
  end.

Definition serialized (sched : list bool) : bool :=
  observes true sched || observes false sched.

Definition steps_of (b : bool) (sched : list bool) : nat :=
  length (filter (fun x => x = b) sched).

(** A world that holds the given storage, to name the continuation of a
    suspended procedure after an answer. *)
Definition holding (l : local_storage) (cm : option categoryMap) : world :=
  {| mem := {| activeTabId := None; activeDomain := None; activeCategory := None;
               activeStart := 0; productiveSessionStart := None;
               productiveAccumulated := 0; distractingStart := None |};
     local := l; sync_categoryMap := cm; sent := [] |}.

(** An accepted [addDomainTime] request at its three awaits: before the
    read of [domainStats], before [loadPrefs] with the snapshot it read, and
    before the write with the category map it was given. *)
Definition add_reading (d : string) (delta now : Z) : proc unit :=
  catch (addDomainTime_store d delta now) (fun _ => sendResponse (ok false)).

Definition add_classifying (d : string) (delta now : Z) (snapshot : local_storage)
  : proc unit :=
  snd (resume (add_reading d delta now) (holding snapshot None)).

Definition add_writing (d : string) (delta now : Z) (snapshot : local_storage)
    (cm : option categoryMap) : proc unit :=
  snd (resume (add_classifying d delta now snapshot) (holding snapshot cm)).

(** The entry an accepted request writes, from the snapshot it read. *)
Definition add_entry (d : string) (delta now : Z) (snapshot : local_storage)
    (cm : option categoryMap) : entry :=
  fill_category
    (category_of URL_new ("https://" ++ d)%string (Some (default DEFAULT_CATEGORY_MAP cm)))
    (add_time delta now (default blank_entry (stats snapshot !! d))).

(** The world after the write of an accepted request. *)
Definition add_written (d : string) (delta now : Z) (snapshot : local_storage)
    (cm : option categoryMap) (w : world) : world :=
  add_sent (Respond (ok true))
    (set_local (set_domainStats (<[d := add_entry d delta now snapshot cm]>
                                   (stats snapshot)) (local w)) w).

(** [saveDomainTime] at its two awaits, and the world after its write. *)
Definition save_reading (d : string) (cat : option string) (delta : Z) : proc unit :=
  saveDomainTime (Some d) cat delta.

Definition save_writing (d : string) (cat : option string) (delta : Z)
    (snapshot : local_storage) : proc unit :=
  snd (resume (save_reading d cat delta) (holding snapshot None)).

Definition save_entry (d : string) (cat : option string) (delta : Z)
    (snapshot : local_storage) : entry :=
  save_time cat delta
    (default {| time := Some 0; category := orS cat (Some "other"); lastActive := None |}
             (stats snapshot !! d)).

Definition save_written (d : string) (cat : option string) (delta : Z)
    (snapshot : local_storage) (w : world) : world :=
  set_local (set_domainStats (<[d := save_entry d cat delta snapshot]> (stats snapshot))
               (local w)) w.

(** The two read-modify-write sequences on [domainStats]: the accepted
    [addDomainTime] request, and the [saveDomainTime] call of a focus
    change. *)
Inductive rmw :=
| Add (delta now : Z)
| Save (cat : option string) (delta : Z).

Definition rmw_delta (k : rmw) : Z :=
  match k with
  | Add delta _ => delta
  | Save _ delta => delta
  end.

Definition rmw_proc (d : string) (k : rmw) : proc unit :=
  match k with
  | Add delta now => onMessage (Some (addDomainTime (Some d) (Some delta))) now
  | Save cat delta => saveDomainTime (Some d) cat delta
  end.

(** The number of awaits of a sequence. *)
Definition awaits (k : rmw) : nat :=
  match k with
  | Add _ _ => 3%nat
  | Save _ _ => 2%nat
  end.

(** How far a sequence has come. *)
Inductive stage :=
| Reading
| Classifying (snapshot : local_storage)
| Writing (snapshot : local_storage) (cm : option categoryMap)
| Finished.

Definition stage_proc (d : string) (k : rmw) (s : stage) : proc unit :=
  match k, s with
  | Add delta now, Reading => add_reading d delta now
  | Add delta now, Classifying snapshot => add_classifying d delta now snapshot
  | Add delta now, Writing snapshot cm => add_writing d delta now snapshot cm
  | Save cat delta, Reading => save_reading d cat delta
  | Save cat delta, Writing snapshot _ => save_writing d cat delta snapshot
  | _, _ => Ret tt
  end.

Definition stage_step (d : string) (k : rmw) (s : stage) (w : world) : world * stage :=
  match k, s with
  | Add _ _, Reading => (w, Classifying (local w))
  | Add _ _, Classifying snapshot => (w, Writing snapshot (sync_categoryMap w))
  | Add delta now, Writing snapshot cm => (add_written d delta now snapshot cm w, Finished)
  | Save _ _, Reading => (w, Writing (local w) None)
  | Save cat delta, Writing snapshot _ => (save_written d cat delta snapshot w, Finished)
  | _, _ => (w, Finished)
  end.

(** Two sequences on one domain, resumed in the order of a schedule. *)
Fixpoint stages_run (d : string) (k1 k2 : rmw) (sched : list bool)
    (st : world * stage * stage) : world * stage * stage :=
  match sched with
  | [] => st
  | b :: rest =>
      let '(w, s1, s2) := st in
      stages_run d k1 k2 rest
        (if b then let '(w', s2') := stage_step d k2 s2 w in (w', s1, s2')
         else let '(w', s1') := stage_step d k1 s1 w in (w', s1', s2))
  end.

(** The persisted time of a domain. *)
Definition time_of (l : local_storage) (d : string) : Z :=
  orZ (stats l !! d ≫= time) 0.

End Handlers.

End Background.

(** ** The content script (content.js) *)

Module Content.
Import JS.

(** *** Activity monitor: the page-load reconciliation *)

Definition RESET_GAP_MS : Z := 30 * 60 * 1000.

Record activity := {
  currentDomain : option string;
  currentCategory : string;
  lastActivity : Z;
  isCounting : bool;
  unsentAccumMs : Z;
  baseDomainTimeMs : Z
}.

(** The answer to [getDomainTime] as the callback reads it. *)
Record domainTimeResponse := {
  resp_time : option Z;
  resp_category : option string;
  resp_lastActive : option Z
}.

Definition of_response (r : Background.response) : option domainTimeResponse :=
  match r with
  | Background.domainTime t c l =>
      Some {| resp_time := Some t; resp_category := c; resp_lastActive := Some l |}
  | _ => None
  end.

(** The callback [loadDomainInfo] hands to [sendMessageSafe]; [now] is
    [Date.now()] when it runs. *)
Definition loadDomainInfo_callback (now : Z) (resp : option domainTimeResponse)
    (a : activity) : activity :=
  match resp with
  | None => a
  | Some r =>
      let last := orZ (resp_lastActive r) 0 in
      {| currentDomain := currentDomain a;
         currentCategory :=
           match resp_category r with
           | Some c => if truthyS (Some c) then c else currentCategory a
           | None => currentCategory a
           end;
         lastActivity := lastActivity a;
         isCounting := isCounting a;
         unsentAccumMs := unsentAccumMs a;
         baseDomainTimeMs :=
           if now - last >? RESET_GAP_MS then 0 else orZ (resp_time r) 0 |}
  end.

(** *** The break banner and its timers *)

(** What [banner.innerHTML] currently shows. *)
Inductive view :=
| pre_break (countdown : Z)
| break_content (remaining : Z) (closes : nat)
| pre_end (countdown : Z)
| end_break (title : string).

Record banner := { content : view; faded : bool }.

(** A scheduled callback with the variables its closure captured; [b] is
    the banner element of the [startBreak] call that created it. *)
Inductive closure :=
| preInterval (b : nat) (durationMs : Z) (preCount : Z)
| interval (b : nat) (remaining : Z)
| endTimer (b : nat) (endCount : Z)
| fadeOut (b : nat)
| removeBanner (b : nat)
| endEarly (b : nat).

Inductive sent_message :=
| startBreakGlobal (durationMs : Z)
| endBreakGlobal.

Record page := {
  banners : gmap nat banner;
  next_banner : nat;
  attached : list nat;
  overlay : bool;
  timers : gmap nat closure;
  next_timer : nat;
  outbox : list sent_message
}.

Definition initial : page :=
  {| banners := ∅; next_banner := 0%nat; attached := []; overlay := false;
     timers := ∅; next_timer := 0%nat; outbox := [] |}.

Definition removeOverlay (p : page) : page :=
  {| banners := banners p; next_banner := next_banner p; attached := attached p;
     overlay := false; timers := timers p; next_timer := next_timer p;
     outbox := outbox p |}.

(** [querySelector] finds the first banner in the shadow root; [remove]
    detaches it. *)
Definition removeExistingBanner (p : page) : page :=
  {| banners := banners p; next_banner := next_banner p;
     attached := tail (attached p);
     overlay := overlay p; timers := timers p; next_timer := next_timer p;
     outbox := outbox p |}.

(** [setInterval] and [setTimeout]: the callback gets the next timer id. *)
Definition set_timer (c : closure) (p : page) : page :=
  {| banners := banners p; next_banner := next_banner p; attached := attached p;
     overlay := overlay p; timers := <[next_timer p := c]> (timers p);
     next_timer := S (next_timer p); outbox := outbox p |}.

(** [clearInterval], and the end of a one-shot timeout. *)
Definition clear_timer (id : nat) (p : page) : page :=
  {| banners := banners p; next_banner := next_banner p; attached := attached p;
     overlay := overlay p; timers := delete id (timers p);
     next_timer := next_timer p; outbox := outbox p |}.

Definition update_timer (id : nat) (c : closure) (p : page) : page :=
  {| banners := banners p; next_banner := next_banner p; attached := attached p;
     overlay := overlay p; timers := <[id := c]> (timers p);
     next_timer := next_timer p; outbox := outbox p |}.

Definition set_content (b : nat) (v : view) (p : page) : page :=
  {| banners := alter (fun bn => {| content := v; faded := faded bn |}) b (banners p);
     next_banner := next_banner p; attached := attached p;
     overlay := overlay p; timers := timers p; next_timer := next_timer p;
     outbox := outbox p |}.

Definition set_faded (b : nat) (p : page) : page :=
  {| banners := alter (fun bn => {| content := content bn; faded := true |}) b (banners p);
     next_banner := next_banner p; attached := attached p;
     overlay := overlay p; timers := timers p; next_timer := next_timer p;
     outbox := outbox p |}.

Definition detach (b : nat) (p : page) : page :=
  {| banners := banners p; next_banner := next_banner p;
     attached := filter (fun x => x ≠ b) (attached p);
     overlay := overlay p; timers := timers p; next_timer := next_timer p;
     outbox := outbox p |}.

Definition sendMessageSafe (m : sent_message) (p : page) : page :=
  {| banners := banners p; next_banner := next_banner p; attached := attached p;
     overlay := overlay p; timers := timers p; next_timer := next_timer p;
     outbox := outbox p ++ [m] |}.

Definition create_banner (p : page) : page :=
  {| banners := <[next_banner p := {| content := pre_break 3; faded := false |}]> (banners p);
     next_banner := S (next_banner p);
     attached := attached p ++ [next_banner p];
     overlay := overlay p; timers := timers p; next_timer := next_timer p;
     outbox := outbox p |}.

(** [startBreak(durationMs)] up to its [setInterval]. *)
Definition startBreak (durationMs : Z) (p : page) : page :=
  let p1 := removeExistingBanner (removeOverlay p) in
  let b := next_banner p1 in
  set_timer (preInterval b durationMs 3) (create_banner p1).

(** [Math.max(0, Math.ceil(durationMs / 1000))] *)
Definition seconds_of (durationMs : Z) : Z := Z.max 0 (- ((- durationMs) / 1000)).

(** One run of the callback of timer [id]. *)
Definition fire (id : nat) (p : page) : page :=
  match timers p !! id with
  | None => p
  | Some (preInterval b durationMs preCount) =>
      let preCount := preCount - 1 in
      let p := set_content b (pre_break preCount) p in
      if preCount <=? 0 then
        let p := clear_timer id p in
        let remaining := seconds_of durationMs in
        let p := sendMessageSafe (startBreakGlobal durationMs) p in
        let p := set_content b (break_content remaining (next_timer p)) p in
        set_timer (interval b remaining) p
      else update_timer id (preInterval b durationMs preCount) p
  | Some (interval b remaining) =>
      let remaining := remaining - 1 in
      let p := match content <$> banners p !! b with
               | Some (break_content _ h) => set_content b (break_content remaining h) p
               | _ => p
               end in
      if remaining <=? 0 then
        let p := clear_timer id p in
        let p := set_content b (pre_end 3) p in
        set_timer (endTimer b 3) p
      else update_timer id (interval b remaining) p
  | Some (endTimer b endCount) =>
      let endCount := endCount - 1 in
      let p := set_content b (pre_end endCount) p in
      if endCount <=? 0 then
        let p := clear_timer id p in
        let p := set_content b (end_break "Break Complete!") p in
        let p := set_timer (fadeOut b) p in
        sendMessageSafe endBreakGlobal p
      else update_timer id (endTimer b endCount) p
  | Some (fadeOut b) =>
      set_timer (removeBanner b) (set_faded b (clear_timer id p))
  | Some (removeBanner b) =>
      detach b (clear_timer id p)
  | Some (endEarly b) =>
      let p := clear_timer id p in
      let p := set_content b (end_break "Break Ended") p in
      let p := set_timer (removeBanner b) p in
      sendMessageSafe endBreakGlobal p
  end.

(** A click on the close button of banner [b]: [handleEndEarly]. *)
Definition click_close (b : nat) (p : page) : page :=
  match content <$> banners p !! b with
  | Some (break_content _ h) =>
      if bool_decide (b ∈ attached p) then set_timer (endEarly b) (clear_timer h p)
      else p
  | _ => p
  end.

(** The [startBreak] message from the background: [msg.durationMs || 10 min]. *)
Definition on_startBreak (durationMs : option Z) (p : page) : page :=
  startBreak (orZ durationMs (10 * 60 * 1000)) p.

(** What can happen on the page, in the order it happens: a click on a
    duration of the break overlay, a [startBreak] message, a timer firing,
    a click on the close button. *)
Inductive happening :=
| ChooseBreak (durationMs : Z)
| ReceiveStartBreak (durationMs : option Z)
| Fire (id : nat)
| ClickClose (b : nat).

Definition happen (h : happening) (p : page) : page :=
  match h with
  | ChooseBreak d => startBreak d p
  | ReceiveStartBreak d => on_startBreak d p
  | Fire id => fire id p
  | ClickClose b => click_close b p
  end.

Definition happen_all (hs : list happening) (p : page) : page :=
  fold_left (fun p h => happen h p) hs p.

(** The banner a scheduled callback belongs to, and a page all of whose
    pending callbacks belong to banner [b]. *)
Definition closure_banner (c : closure) : nat :=
  match c with
  | preInterval b _ _ | interval b _ | endTimer b _
  | fadeOut b | removeBanner b | endEarly b => b
  end.

Definition only_instance (b : nat) (p : page) : Prop :=
  forall id c, timers p !! id = Some c -> closure_banner c = b.

(** The break countdowns in progress: the live interval timers of the
    pre-start, active and pre-end phases. *)
Definition is_countdown (c : closure) : bool :=
  match c with
  | preInterval _ _ _ | interval _ _ | endTimer _ _ => true
  | _ => false
  end.

Definition countdowns (p : page) : list (nat * closure) :=
  filter (fun kc => is_countdown (snd kc) = true) (map_to_list (timers p)).

End Content.

(** ** Worlds and pages used in the examples *)

Module Examples.
Import JS Classifier Background.

(** Nothing active, and local storage empty but for one entry of [x.com]. *)
Definition quiet : memory :=
  {| activeTabId := None; activeDomain := None; activeCategory := None;
     activeStart := 1; productiveSessionStart := None;
     productiveAccumulated := 0; distractingStart := None |}.

Definition empty_storage : local_storage :=
  {| domainStats := None; stored_productiveAccumulated := None;
     lastShownBreakThreshold := None; stored_categoryMap := None |}.

Definition fresh : world :=
  {| mem := quiet; local := empty_storage; sync_categoryMap := None; sent := [] |}.

Definition one_entry (e : entry) : world :=
  {| mem := quiet;
     local := set_domainStats {[ "x.com" := e ]} empty_storage;
     sync_categoryMap := None; sent := [] |}.

(** A productive session that began at [start], with [acc] ms accumulated
    before it. *)
Definition working (start : option Z) (acc : Z) : world :=
  {| mem := {| activeTabId := Some 1; activeDomain := Some "github.com";
               activeCategory := Some "productive"; activeStart := 1000;
               productiveSessionStart := start;
               productiveAccumulated := acc; distractingStart := None |};
     local := empty_storage; sync_categoryMap := None; sent := [] |}.

(** On [reddit.com] since [start], after a productive session. *)
Definition distracted (start : Z) : world :=
  {| mem := {| activeTabId := Some 2; activeDomain := Some "reddit.com";
               activeCategory := Some "social"; activeStart := start;
               productiveSessionStart := Some 500;
               productiveAccumulated := 7000; distractingStart := Some start |};
     local := empty_storage; sync_categoryMap := None; sent := [] |}.

(** On [x.com] since [start], with an entry of [x.com] in storage. *)
Definition browsing (start : Z) (e : entry) : world :=
  {| mem := {| activeTabId := Some 3; activeDomain := Some "x.com";
               activeCategory := Some "social"; activeStart := start;
               productiveSessionStart := None;
               productiveAccumulated := 0; distractingStart := None |};
     local := set_domainStats {[ "x.com" := e ]} empty_storage;
     sync_categoryMap := None; sent := [] |}.

Definition five_seconds : entry :=
  {| time := Some 5000; category := Some "social"; lastActive := Some 0 |}.

Definition hours (n : Z) : Z := n * 60 * 60 * 1000.
Definition minutes (n : Z) : Z := n * 60 * 1000.

Definition idle_activity : Content.activity :=
  {| Content.currentDomain := Some "x.com"; Content.currentCategory := "—";
     Content.lastActivity := 0; Content.isCounting := false;
     Content.unsentAccumMs := 0; Content.baseDomainTimeMs := 0 |}.

End Examples.

(** ** The rest of the background worker: install, startup, tab events *)

Module Worker.
Import JS Classifier Background.
Local Open Scope proc_scope.

(** The module-level variables when the worker script has just been
    evaluated at time [loaded]. *)
Definition initial_memory (loaded : Z) : memory :=
  {| activeTabId := None; activeDomain := None; activeCategory := None;
     activeStart := loaded; productiveSessionStart := None;
     productiveAccumulated := 0; distractingStart := None |}.

Definition set_productiveAccumulated (a : Z) (m : memory) : memory :=
  {| activeTabId := activeTabId m; activeDomain := activeDomain m;
     activeCategory := activeCategory m; activeStart := activeStart m;
     productiveSessionStart := productiveSessionStart m;
     productiveAccumulated := a;
     distractingStart := distractingStart m |}.

(** The object [onInstalled] hands to [chrome.storage.local.set]. *)
Definition install_storage (cm : option categoryMap) (l : local_storage) : local_storage :=
  {| domainStats := domainStats l;
     stored_productiveAccumulated := Some 0;
     lastShownBreakThreshold := Some 0;
     stored_categoryMap := cm |}.

Definition onInstalled : proc unit :=
  let* prefs := loadPrefs in
  trigger (LocalSet (install_storage (prefs_categoryMap prefs))) ;;
  trigger (WriteMem (set_productiveAccumulated 0)).

(** An [async] call that is not awaited: a rejection stays with its promise
    and does not reach the caller. *)
Definition detached (p : proc unit) : proc unit := catch p (fun _ => Ret tt).

(** [chrome.windows.WINDOW_ID_NONE] *)
Definition WINDOW_ID_NONE : Z := -1.

Section Listeners.
Variable URL_new : string -> option URL.

(** [tabs] is the answer of [chrome.tabs.query({active: true,
    currentWindow: true})]. *)
Definition onStartup (tabs : list tab) (now : Z) : proc unit :=
  let* s := trigger LocalGet in
  trigger (WriteMem (set_productiveAccumulated (orZ (stored_productiveAccumulated s) 0))) ;;
  match tabs with
  | t :: _ => detached (handleTabChange URL_new (Some t) now)
  | [] => Ret tt
  end.

(** [chrome.tabs.onUpdated]: [active] is [tab.active], [status] is
    [changeInfo.status]. *)
Definition onUpdated (active : bool) (status : option string) (t : tab) (now : Z)
  : proc unit :=
  if active && bool_decide (status = Some "complete")
  then detached (handleTabChange URL_new (Some t) now)
  else Ret tt.

(** [chrome.windows.onFocusChanged] *)
Definition onFocusChanged (windowId : Z) (tabs : list tab) (now : Z) : proc unit :=
  if windowId =? WINDOW_ID_NONE then handleTabChange URL_new None now
  else match tabs with
       | t :: _ => detached (handleTabChange URL_new (Some t) now)
       | [] => Ret tt
       end.

(** [chrome.tabs.onActivated]: [got] is the answer of
    [chrome.tabs.get(info.tabId)], [None] when it rejects. *)
Definition onActivated (got : option tab) (now : Z) : proc unit :=
  match got with
  | Some t => detached (handleTabChange URL_new (Some t) now)
  | None => Ret tt
  end.

End Listeners.

(** What a callback adds to the persisted time of domain [d] when it is an
    accepted [addDomainTime] request for [d]; nothing otherwise. *)
Definition credited (d : string) (c : callback) : Z :=
  match c with
  | Message (Some (addDomainTime (Some d') deltaMs)) _ =>
      if bool_decide (d' = d) && truthyS (Some d') && (0 <? orZ deltaMs 0)
      then orZ deltaMs 0 else 0
  | _ => 0
  end.

(** The sum of what the callbacks of a trace credit to [d]. *)
Definition credited_all (d : string) (cs : list callback) : Z :=
  foldr (fun c s => credited d c + s) 0 cs.

(** [tab && tab.url] *)
Definition has_url (t : option tab) : bool :=
  match t with
  | Some t => truthyS (tab_url t)
  | None => false
  end.

(** The worker after the browser has stopped and started it again at time
    [loaded]: the script is evaluated afresh, storage is what it was. *)
Definition restarted (loaded : Z) (w : world) : world :=
  {| mem := initial_memory loaded; local := local w;
     sync_categoryMap := sync_categoryMap w; sent := [] |}.

(** Events that leave the active tab, domain, category and start alone. *)
Definition keeps_active X (e : event X) : Prop :=
  match e with
  | WriteMem upd =>
      forall m, activeTabId (upd m) = activeTabId m
                /\ activeDomain (upd m) = activeDomain m
                /\ activeCategory (upd m) = activeCategory m
                /\ activeStart (upd m) = activeStart m
  | _ => True
  end.

Definition active (w : world) : option Z * option string * option string * Z :=
  (activeTabId (mem w), activeDomain (mem w), activeCategory (mem w), activeStart (mem w)).

(** A list of thresholds each above the one before, the first above [lo]. *)
Fixpoint ascending (lo : Z) (l : list Z) : Prop :=
  match l with
  | [] => True
  | x :: rest => lo < x /\ ascending x rest
  end.


(** The focus changes of a trace come at times that do not go back, the
    first not before [t0]. *)
Fixpoint focus_times_ascend (t0 : Z) (cs : list callback) : Prop :=
  match cs with
  | [] => True
  | FocusChange _ now :: rest => t0 <= now /\ focus_times_ascend now rest
  | _ :: rest => focus_times_ascend t0 rest
  end.

(** Events that leave [domainStats] alone. *)
Definition keeps_stats X (e : event X) : Prop :=
  match e with
  | LocalSet upd | LocalSetDetached upd =>
      forall l, domainStats (upd l) = domainStats l
  | _ => True
  end.

(** Events that leave the three streak variables alone. *)
Definition keeps_streaks X (e : event X) : Prop :=
  match e with
  | WriteMem upd =>
      forall m, productiveSessionStart (upd m) = productiveSessionStart m
                /\ productiveAccumulated (upd m) = productiveAccumulated m
                /\ distractingStart (upd m) = distractingStart m
  | _ => True
  end.

Definition streaks (w : world) : option Z * Z * option Z :=
  (productiveSessionStart (mem w), productiveAccumulated (mem w), distractingStart (mem w)).

(** Events that leave local storage alone. *)
Definition keeps_local X (e : event X) : Prop :=
  match e with
  | LocalSet _ | LocalSetDetached _ => False
  | _ => True
  end.

(** Events that leave the module-level variables alone. *)
Definition keeps_mem X (e : event X) : Prop :=
  match e with
  | WriteMem _ => False
  | _ => True
  end.

End Worker.

(** ** The activity monitor of the content script (content.js) *)

Module Monitor.
Import JS Content.

Definition INACTIVITY_MS : Z := 60 * 1000.

(** The activity variables with the page around them: the handle of the
    counting interval, [document.hidden], the counting intervals that have
    been set and not cleared, the next handle [setInterval] gives out
    (handles are positive integers, so a handle is always truthy), the
    [addDomainTime] messages handed to [sendMessageSafe] as pairs of domain
    and [deltaMs], and the minutes the timer element shows. *)
Record state := {
  vars : activity;
  activityInterval : option positive;
  hidden : bool;
  live : gset positive;
  next_handle : positive;
  reported : list (option string * Z);
  shown_minutes : Z
}.

Definition set_vars (a : activity) (s : state) : state :=
  {| vars := a; activityInterval := activityInterval s; hidden := hidden s;
     live := live s; next_handle := next_handle s; reported := reported s;
     shown_minutes := shown_minutes s |}.

Definition set_unsent (n : Z) (a : activity) : activity :=
  {| currentDomain := currentDomain a; currentCategory := currentCategory a;
     lastActivity := lastActivity a; isCounting := isCounting a;
     unsentAccumMs := n; baseDomainTimeMs := baseDomainTimeMs a |}.

Definition set_base (n : Z) (a : activity) : activity :=
  {| currentDomain := currentDomain a; currentCategory := currentCategory a;
     lastActivity := lastActivity a; isCounting := isCounting a;
     unsentAccumMs := unsentAccumMs a; baseDomainTimeMs := n |}.

Definition set_isCounting (b : bool) (a : activity) : activity :=
  {| currentDomain := currentDomain a; currentCategory := currentCategory a;
     lastActivity := lastActivity a; isCounting := b;
     unsentAccumMs := unsentAccumMs a; baseDomainTimeMs := baseDomainTimeMs a |}.

Definition set_lastActivity (t : Z) (a : activity) : activity :=
  {| currentDomain := currentDomain a; currentCategory := currentCategory a;
     lastActivity := t; isCounting := isCounting a;
     unsentAccumMs := unsentAccumMs a; baseDomainTimeMs := baseDomainTimeMs a |}.

Definition set_activityInterval (h : option positive) (s : state) : state :=
  {| vars := vars s; activityInterval := h; hidden := hidden s;
     live := live s; next_handle := next_handle s; reported := reported s;
     shown_minutes := shown_minutes s |}.

Definition set_hidden (b : bool) (s : state) : state :=
  {| vars := vars s; activityInterval := activityInterval s; hidden := b;
     live := live s; next_handle := next_handle s; reported := reported s;
     shown_minutes := shown_minutes s |}.

(** [setInterval]: the callback becomes live under a fresh handle. *)
Definition setInterval (s : state) : state :=
  {| vars := vars s; activityInterval := Some (next_handle s); hidden := hidden s;
     live := {[ next_handle s ]} ∪ live s; next_handle := Pos.succ (next_handle s);
     reported := reported s; shown_minutes := shown_minutes s |}.

Definition clearInterval (h : positive) (s : state) : state :=
  {| vars := vars s; activityInterval := activityInterval s; hidden := hidden s;
     live := live s ∖ {[ h ]}; next_handle := next_handle s;
     reported := reported s; shown_minutes := shown_minutes s |}.

Definition send_addDomainTime (domain : option string) (deltaMs : Z) (s : state) : state :=
  {| vars := vars s; activityInterval := activityInterval s; hidden := hidden s;
     live := live s; next_handle := next_handle s;
     reported := reported s ++ [(domain, deltaMs)];
     shown_minutes := shown_minutes s |}.

Definition flushAccumulatedTime (s : state) : state :=
  if negb (truthyS (currentDomain (vars s))) || (unsentAccumMs (vars s) <=? 0) then s
  else
    let s1 := send_addDomainTime (currentDomain (vars s)) (unsentAccumMs (vars s)) s in
    let s2 := set_vars (set_base (baseDomainTimeMs (vars s1) + unsentAccumMs (vars s1))
                          (vars s1)) s1 in
    set_vars (set_unsent 0 (vars s2)) s2.

(** [Math.floor(totalMs / 60000)], written into the timer element. *)
Definition updateTimerDisplay (s : state) : state :=
  {| vars := vars s; activityInterval := activityInterval s; hidden := hidden s;
     live := live s; next_handle := next_handle s; reported := reported s;
     shown_minutes := (baseDomainTimeMs (vars s) + unsentAccumMs (vars s)) / 60000 |}.

(** The callback [startCounting] hands to [setInterval]. *)
Definition counting_tick (s : state) : state :=
  if hidden s then s
  else
    let s1 := set_vars (set_unsent (unsentAccumMs (vars s) + 1000) (vars s)) s in
    let s2 := updateTimerDisplay s1 in
    if unsentAccumMs (vars s2) >=? 15 * 1000 then flushAccumulatedTime s2 else s2.

Definition startCounting (now : Z) (s : state) : state :=
  if isCounting (vars s) then s
  else
    let s1 := set_vars (set_isCounting true (vars s)) s in
    let s2 := set_vars (set_lastActivity now (vars s1)) s1 in
    setInterval s2.

Definition stopCounting (s : state) : state :=
  if negb (isCounting (vars s)) then s
  else
    let s1 := set_vars (set_isCounting false (vars s)) s in
    let s2 := match activityInterval s1 with
              | Some h => clearInterval h s1
              | None => s1
              end in
    flushAccumulatedTime (set_activityInterval None s2).

(** In the handlers below [now] is the first reading of [Date.now()] and
    [later] the one [startCounting] takes. *)
Definition onUserActivity (now later : Z) (s : state) : state :=
  let s1 := set_vars (set_lastActivity now (vars s)) s in
  if negb (hidden s1) then startCounting later s1 else s1.

(** The one-second inactivity check. *)
Definition inactivity_check (now : Z) (s : state) : state :=
  if negb (isCounting (vars s)) then s
  else if now - lastActivity (vars s) >? INACTIVITY_MS then stopCounting s
  else s.

(** The [visibilitychange] listener; [document.hidden] has its new value. *)
Definition on_visibilitychange (now later : Z) (s : state) : state :=
  if hidden s then stopCounting s
  else if now - lastActivity (vars s) <=? INACTIVITY_MS then startCounting later s
  else s.

(** The [idleState] broadcast of the background. *)
Definition on_idleState (st : string) (now later : Z) (s : state) : state :=
  if String.eqb st "idle" || String.eqb st "locked" then stopCounting s
  else if now - lastActivity (vars s) <=? INACTIVITY_MS then startCounting later s
  else s.

(** The answer to [getDomainTime] arriving: the callback of
    [loadDomainInfo], which ends with [updateTimerDisplay]. *)
Definition on_domainInfo (now : Z) (resp : option domainTimeResponse) (s : state) : state :=
  match resp with
  | None => s
  | Some _ => updateTimerDisplay (set_vars (loadDomainInfo_callback now resp (vars s)) s)
  end.

(** What happens on the page, in the order it happens. *)
Inductive occurrence :=
| UserActivity (now later : Z)
| TimerFires (h : positive)
| InactivityCheck (now : Z)
| VisibilityChange (nowHidden : bool) (now later : Z)
| IdleState (st : string) (now later : Z)
| DomainInfo (now : Z) (resp : option domainTimeResponse)
| RedrawTimer.

Definition occur (o : occurrence) (s : state) : state :=
  match o with
  | UserActivity now later => onUserActivity now later s
  | TimerFires h => if bool_decide (h ∈ live s) then counting_tick s else s
  | InactivityCheck now => inactivity_check now s
  | VisibilityChange b now later => on_visibilitychange now later (set_hidden b s)
  | IdleState st now later => on_idleState st now later s
  | DomainInfo now resp => on_domainInfo now resp s
  | RedrawTimer => updateTimerDisplay s
  end.

Definition occur_all (os : list occurrence) (s : state) : state :=
  fold_left (fun s o => occur o s) os s.

(** The state when the script has just run on a page of [domain]. *)
Definition loaded (domain : option string) (now : Z) (pageHidden : bool) : state :=
  {| vars := {| currentDomain := domain; currentCategory := "—"; lastActivity := now;
                isCounting := false; unsentAccumMs := 0; baseDomainTimeMs := 0 |};
     activityInterval := None; hidden := pageHidden; live := ∅; next_handle := 1%positive;
     reported := []; shown_minutes := 0 |}.

(** The sum of the deltas of some reports. *)
Definition total (reports : list (option string * Z)) : Z :=
  foldr (fun r s => snd r + s) 0 reports.

(** The reports a run adds. *)
Definition reported_by (os : list occurrence) (s : state) : list (option string * Z) :=
  drop (length (reported s)) (reported (occur_all os s)).

(** The firing of a live counting interval on a visible page. *)
Definition counts (o : occurrence) (s : state) : bool :=
  match o with
  | TimerFires h => bool_decide (h ∈ live s) && negb (hidden s)
  | _ => false
  end.

Fixpoint counted (os : list occurrence) (s : state) : Z :=
  match os with
  | [] => 0
  | o :: rest => (if counts o s then 1 else 0) + counted rest (occur o s)
  end.

Definition is_domainInfo (o : occurrence) : Prop :=
  exists now resp, o = DomainInfo now resp.

(** The monitor counts exactly when its one interval is live, and holds
    unreported time only while it counts. *)
Definition tidy (s : state) : Prop :=
  (if isCounting (vars s)
   then exists h, activityInterval s = Some h /\ live s = {[ h ]}
   else activityInterval s = None /\ live s = ∅)
  /\ (isCounting (vars s) = false -> truthyS (currentDomain (vars s)) = true ->
      unsentAccumMs (vars s) = 0)
  /\ 0 <= unsentAccumMs (vars s)
  /\ (truthyS (currentDomain (vars s)) = true -> unsentAccumMs (vars s) < 15 * 1000)
  /\ (1000 | unsentAccumMs (vars s)).

(** The occurrences that stop the count: the page becomes hidden, the
    system goes idle or is locked, or the inactivity check finds the last
    activity more than a minute back. *)
Definition stops (o : occurrence) (s : state) : bool :=
  match o with
  | VisibilityChange nowHidden _ _ => nowHidden
  | IdleState st _ _ => String.eqb st "idle" || String.eqb st "locked"
  | InactivityCheck now => now - lastActivity (vars s) >? INACTIVITY_MS
  | _ => false
  end.

(** The occurrences that come from timers alone. *)
Definition from_timer (o : occurrence) : Prop :=
  match o with
  | TimerFires _ | InactivityCheck _ | RedrawTimer => True
  | _ => False
  end.

(** A report of the page's own domain that carries between one and fifteen
    whole seconds. *)
Definition batch (domain : option string) (r : option string * Z) : Prop :=
  fst r = domain /\ truthyS domain = true
  /\ 1000 <= snd r <= 15 * 1000 /\ (1000 | snd r).

(** The timer element shows the whole minutes of the total. *)
Definition display_current (s : state) : Prop :=
  shown_minutes s = (baseDomainTimeMs (vars s) + unsentAccumMs (vars s)) / 60000.

(** From [s] to [s'] the reports [new] were added, [n] seconds were
    counted, and every one of them is either reported or still unsent. *)
Definition accounted (s s' : state) (new : list (option string * Z)) (n : Z) : Prop :=
  reported s' = reported s ++ new
  /\ baseDomainTimeMs (vars s') = baseDomainTimeMs (vars s) + total new
  /\ total new + unsentAccumMs (vars s') = unsentAccumMs (vars s) + 1000 * n
  /\ currentDomain (vars s') = currentDomain (vars s).

End Monitor.

(** ** The break overlay of the content script (content.js) *)

Module Overlay.
Import JS Content.

(** The four buttons of the overlay; [parsed] is what [parseInt] makes of
    the answer to the prompt, [None] for [NaN]. *)
Inductive choice :=
| minutes10
| minutes20
| minutes30
| manual (parsed : option Z).

Definition set_overlay (b : bool) (p : page) : page :=
  {| banners := banners p; next_banner := next_banner p; attached := attached p;
     overlay := b; timers := timers p; next_timer := next_timer p;
     outbox := outbox p |}.

Definition showBreakOptions (p : page) : page := set_overlay true (removeOverlay p).

(** The click listener of the buttons; they exist while the overlay does. *)
Definition click_break (c : choice) (p : page) : page :=
  if negb (overlay p) then p
  else
    match c with
    | manual None => removeOverlay p
    | manual (Some parsed) =>
        if parsed <=? 0 then removeOverlay p
        else startBreak (Z.min parsed 45 * 60 * 1000) p
    | minutes10 => startBreak (10 * 60 * 1000) p
    | minutes20 => startBreak (20 * 60 * 1000) p
    | minutes30 => startBreak (30 * 60 * 1000) p
    end.

(** The script of a break that runs its course, for the timer ids a page
    gives out from [k] on: three pre-start ticks, the seconds of the break
    (at least one tick), three pre-end ticks, the fade and the removal. *)
Definition active_ticks (durationMs : Z) : nat := Z.to_nat (Z.max 1 (seconds_of durationMs)).

Definition full_course (k : nat) (durationMs : Z) : list happening :=
  replicate 3 (Fire k) ++ replicate (active_ticks durationMs) (Fire (S k))
  ++ replicate 3 (Fire (S (S k))) ++ [Fire (S (S (S k))); Fire (S (S (S (S k))))].

(** A break closed by its close button after [j] seconds. *)
Definition closed_early (k b : nat) (j : nat) : list happening :=
  replicate 3 (Fire k) ++ replicate j (Fire (S k))
  ++ [ClickClose b; Fire (S (S k)); Fire (S (S (S k)))].

(** What drives the break: the scheduled callbacks, the banners shown, the
    messages sent and the next timer id. *)
Definition control (p : page) : gmap nat closure * list nat * list sent_message * nat :=
  (timers p, attached p, outbox p, next_timer p).

(** The interval the close button of banner [b] would clear, when the
    banner shows the active break. *)
Definition close_button (b : nat) (p : page) : option nat :=
  match content <$> banners p !! b with
  | Some (break_content _ h) => Some h
  | _ => None
  end.

(** A page with nothing scheduled and no banner shown. *)
Definition at_rest (p : page) : Prop := timers p = ∅ /\ attached p = [].

End Overlay.

(** ** The summary of the popup (popup.js) *)

Module Popup.
Import JS Background.

(** [entry.category || "other"] *)
Definition category_or_other (e : entry) : string :=
  match category e with
  | Some c => if truthyS (Some c) then c else "other"
  | None => "other"
  end.

(** What a property of [catTotals] holds: a number of milliseconds, or a
    string.  [catTotals] is a plain object, so a read of a name it does not
    have itself finds what [Object.prototype] has under that name. *)
Inductive total :=
| Number (ms : Z)
| Text.

Definition Object_prototype : list string :=
  [ "constructor"; "__defineGetter__"; "__defineSetter__"; "hasOwnProperty";
    "__lookupGetter__"; "__lookupSetter__"; "isPrototypeOf"; "propertyIsEnumerable";
    "toString"; "valueOf"; "__proto__"; "toLocaleString" ].

Definition inherited (c : string) : bool := existsb (String.eqb c) Object_prototype.

(** [catTotals[c]]: the object's own property, else the inherited one.  The
    inherited values are functions (an object for [__proto__]): truthy, and
    turned into their text by [+], as a non-empty string is. *)
Definition get (catTotals : gmap string total) (c : string) : option total :=
  match catTotals !! c with
  | Some v => Some v
  | None => if inherited c then Some Text else None
  end.

(** [(v || 0) + (entry.time || 0)]: a sum of numbers, or a string with the
    digits of the time appended. *)
Definition plus (v : option total) (t : Z) : total :=
  match v with
  | Some (Number n) => Number (orZ (Some n) 0 + t)
  | Some Text => Text
  | None => Number (0 + t)
  end.

(** [catTotals[c] = v]: an own property, except under [__proto__], whose
    inherited setter ignores a value that is not an object. *)
Definition put (c : string) (v : total) (catTotals : gmap string total)
  : gmap string total :=
  if String.eqb c "__proto__" then catTotals else <[c := v]> catTotals.

(** One round of the loop over [Object.entries(ds)]. *)
Definition add_total (catTotals : gmap string total) (de : string * entry)
  : gmap string total :=
  let c := category_or_other (snd de) in
  put c (plus (get catTotals c) (orZ (time (snd de)) 0)) catTotals.

Definition catTotals (ds : list (string * entry)) : gmap string total :=
  fold_left add_total ds ∅.




End Popup.

(** ** From the page's reports to the worker's storage *)

Module Pipeline.
Import JS Background.

(** The request a report of the activity monitor becomes; [Number] leaves
    the numeric delta as it is. *)
Definition request_of (r : option string * Z) : request :=
  addDomainTime (fst r) (Some (snd r)).

(** The reports reach the worker's listener in order, each at some time. *)
Definition delivered (rs : list (option string * Z)) (cs : list callback) : Prop :=
  Forall2 (fun r c => exists now, c = Message (Some (request_of r)) now) rs cs.

End Pipeline.

(** ** The category editor of the options page (options.js) *)

Module Options.
Import JS Classifier.

(** [s.split('\n')] *)
Fixpoint split_lines (s : string) : list string :=
  match s with
  | EmptyString => [EmptyString]
  | String c rest =>
      if Ascii.eqb c "010"%char then EmptyString :: split_lines rest
      else match split_lines rest with
           | l :: ls => String c l :: ls
           | [] => [String c EmptyString]
           end
  end.


(** One [.category-item]: the values of its name input and its textarea. *)
Record item := { name_value : string; domains_value : string }.


(** [categoryMap[name] = domains] on the entries of an object: a key that is
    there keeps its place, a new one goes to the end.  (Names that are
    array indices are enumerated first by the engine; what is proved below
    about the saved map holds for every order of enumeration.) *)
Fixpoint assign (name : string) (domains : list string) (entries : categoryMap)
  : categoryMap :=
  match entries with
  | [] => [(name, domains)]
  | (k, v) :: rest =>
      if String.eqb k name then (k, domains) :: rest
      else (k, v) :: assign name domains rest
  end.


Section WithTrim.
(** [String.prototype.trim] *)
Variable trim : string -> string.

Definition domains_of (it : item) : list string :=
  filter (fun d => truthyS (Some d) = true) (map trim (split_lines (domains_value it))).

(** The body of the [forEach] over the category items. *)
Definition collect (entries : categoryMap) (it : item) : categoryMap :=
  let name := trim (name_value it) in
  let domains := domains_of it in
  if truthyS (Some name) && (0 <? length domains)%nat
  then assign name domains entries
  else entries.

(** The [categoryMap] the save handler stores. *)
Definition save_categories (items : list item) : categoryMap :=
  fold_left collect items [].


End WithTrim.

(** A map as the editor saves it: names and patterns are not empty, no
    category is without patterns, no name occurs twice. *)
Definition well_formed (entries : categoryMap) : Prop :=
  Forall (fun e => fst e <> EmptyString /\ snd e <> []
                   /\ Forall (fun p => p <> EmptyString) (snd e)) entries
  /\ NoDup (map fst entries).

End Options.

(** ** Precedence among categories *)

Module Priority.
Import JS Classifier.

(** Some non-empty pattern of some category occurs in the host or the URL. *)
Definition matches (host url : string) (entries : categoryMap) : bool :=
  existsb (fun e => existsb (hit host url) (snd e)) entries.

(** The default map without the pattern [docs.google.com] of its last
    category. *)
Definition DEFAULT_WITHOUT_PRODUCTIVE_DOCS : categoryMap :=
  [ ("social", ["youtube.com"; "instagram.com"; "twitter.com"; "tiktok.com";
                "facebook.com"; "reddit.com"]);
    ("games", ["roblox.com"; "steampowered.com"; "epicgames.com"; "miniclip.com"]);
    ("school", ["classroom.google.com"; "canvas.instructure.com";
                "google.com/drive"; "docs.google.com"]);
    ("productive", ["notion.so"; "github.com"; "stackoverflow.com";
                    "drive.google.com"]) ].

End Priority.

(** ** More worlds, traces and pages for the examples *)

Module MoreExamples.
Import JS Classifier Background Examples.

(** A tick, two reports of pages, a summary request and an idle change. *)
Definition reports : list callback :=
  [ Tick 1000;
    Message (Some (addDomainTime (Some "x.com") (Some 3000))) 2000;
    Message (Some getSummary) 2500;
    Message (Some (addDomainTime (Some "y.com") (Some 500))) 3000;
    IdleChange "idle" ].

Definition github_tab : tab := {| tab_id := 1; tab_url := Some "https://github.com/a" |}.
Definition github_url : URL := {| hostname := "github.com"; pathname := "/a" |}.

(** On [bbc.com], which the user has filed under a category of their own. *)
Definition reading : world :=
  {| mem := {| activeTabId := Some 4; activeDomain := Some "bbc.com";
               activeCategory := Some "news"; activeStart := 1000;
               productiveSessionStart := Some 500;
               productiveAccumulated := 7000; distractingStart := None |};
     local := empty_storage; sync_categoryMap := None; sent := [] |}.

(** A tab of [reddit.com] is activated, and half a minute later its page
    has finished loading. *)
Definition reddit_tab : tab := {| tab_id := 2; tab_url := Some "https://reddit.com/r/all" |}.

Definition scrolling : list callback :=
  [ FocusChange (Some reddit_tab) 1000; FocusChange (Some reddit_tab) 31000 ].

(** A tick and a report of [y.com] whose handlers overlap. *)
Definition overlapping : list action :=
  [ Start (body simple_URL (Tick 1000));
    Start (body simple_URL (Message (Some (addDomainTime (Some "y.com") (Some 500))) 3000));
    Continue 1%nat; Continue 0%nat; Continue 1%nat; Continue 1%nat; Continue 0%nat ].

(** Four ticks of a long productive session, a focus change in between. *)
Definition long_day : list callback :=
  [ Tick (hours 2 + 1000); Tick (hours 2 + 31000);
    FocusChange (Some github_tab) (hours 3); Tick (hours 3 + 1000);
    Tick (hours 5) ].

(** A page of [x.com] on which the user is active for twenty seconds, then
    switches to another tab. *)
Definition twenty_seconds : list Monitor.occurrence :=
  Monitor.UserActivity 10 10 :: replicate 20 (Monitor.TimerFires 1)
  ++ [Monitor.VisibilityChange true 20010 20010].

Definition x_page : Monitor.state := Monitor.loaded (Some "x.com") 0 false.

(** Three seconds into counting on that page: activity, then three ticks of
    the 1 s interval, the page still visible. *)
Definition three_seconds : list Monitor.occurrence :=
  Monitor.UserActivity 10 10 :: replicate 3 (Monitor.TimerFires 1).

Definition counting_page : Monitor.state := Monitor.occur_all three_seconds x_page.

(** The two reports of that page as the worker receives them. *)
Definition two_deliveries : list callback :=
  [ Message (Some (addDomainTime (Some "x.com") (Some 15000))) 15020;
    Message (Some (addDomainTime (Some "x.com") (Some 5000))) 20020 ].

(** Two breaks chosen one after the other, and a click on a close button. *)
Definition restless : list Content.happening :=
  [ Content.ChooseBreak 600000; Content.Fire 0; Content.ReceiveStartBreak None;
    Content.Fire 1; Content.ClickClose 1 ].



(** The category editor with a blank item, a new category and a second
    item of the same name. *)
Definition edited : list Options.item :=
  [ {| Options.name_value := "news";
       Options.domains_value := String "b" (String "b" (String "c" (String "010" "cnn"))) |};
    {| Options.name_value := ""; Options.domains_value := "x.com" |};
    {| Options.name_value := "news"; Options.domains_value := "bbc" |} ].

End MoreExamples.

(** ** What the worker can have stored *)

Module Stored.
Import JS Classifier Background.

(** No category has the empty name: so it is in the default map and in
    every map the options page saves. *)
Definition named (entries : categoryMap) : Prop :=
  Forall (fun e => fst e <> EmptyString) entries.

(** The map [loadPrefs] hands out. *)
Definition map_in_force (cm : option categoryMap) : categoryMap :=
  default DEFAULT_CATEGORY_MAP cm.

(** No stored entry has the empty string as its category. *)
Definition categorised (l : local_storage) : Prop :=
  forall d e, stats l !! d = Some e -> category e <> Some EmptyString.

(** A procedure, started or suspended at an [await], that stores no empty
    category, whatever storage without one and whatever map without an
    empty name its reads are answered with. *)
Fixpoint careful {A} (p : proc A) : Prop :=
  match p with
  | Vis e k =>
      match e in event X return (X -> Prop) -> Prop with
      | LocalGet => fun rest => forall l, categorised l -> rest l
      | LocalSet upd | LocalSetDetached upd =>
          fun rest => (forall l, categorised l -> categorised (upd l)) /\ rest tt
      | SyncGetCategoryMap => fun rest => forall cm, named (map_in_force cm) -> rest cm
      | ReadMem => fun rest => forall m, rest m
      | WriteMem _ | Emit _ => fun rest => rest tt
      end (fun x => careful (k x))
  | _ => True
  end.

(** A world whose storage has no empty category and whose map in force
    has no empty name. *)
Definition spotless (w : world) : Prop :=
  categorised (local w) /\ named (map_in_force (sync_categoryMap w)).

(** The event loop starts careful procedures only. *)
Definition starts_careful (a : action) : Prop :=
  match a with
  | Start p => careful p
  | Continue _ => True
  end.

Section Handlers.
Variable URL_new : string -> option URL.

(** What the worker's listeners run: a callback of the event loop, the
    install handler, or one of the tab and window listeners. *)
Definition handler (p : proc unit) : Prop :=
  (exists c, p = body URL_new c)
  \/ p = Worker.onInstalled
  \/ (exists tabs now, p = Worker.onStartup URL_new tabs now)
  \/ (exists active status t now, p = Worker.onUpdated URL_new active status t now)
  \/ (exists windowId tabs now, p = Worker.onFocusChanged URL_new windowId tabs now)
  \/ (exists got now, p = Worker.onActivated URL_new got now).

(** The event loop starts a handler, or resumes a suspended one. *)
Definition worker_action (a : action) : Prop :=
  match a with
  | Start p => handler p
  | Continue _ => True
  end.

End Handlers.

End Stored.

(** ** Handlers that overlap, and handlers that take turns *)

Module Overlap.
Import JS Classifier Background.

(** What the event loop does next: it starts the handler of a callback, or
    resumes the handler it started as the [i]-th. *)
Inductive turn :=
| Begin (c : callback)
| Resume (i : nat).

(** The callbacks a schedule starts, in order. *)
Definition begun (ts : list turn) : list callback :=
  omap (fun t => match t with Begin c => Some c | Resume _ => None end) ts.

(** The schedule without overlap: each handler is resumed [n] times, to its
    end, before the next callback is started.  [i] is the number of
    handlers started before. *)
Fixpoint in_turn (n i : nat) (cs : list callback) : list turn :=
  match cs with
  | [] => []
  | c :: rest => Begin c :: replicate n (Resume i) ++ in_turn n (S i) rest
  end.

Section Handlers.
Variable URL_new : string -> option URL.

Definition to_action (t : turn) : action :=
  match t with
  | Begin c => Start (body URL_new c)
  | Resume i => Continue i
  end.

(** The world after a schedule. *)
Definition scheduled (ts : list turn) (w : world) : world :=
  fst (interleave (map to_action ts) (w, [])).

End Handlers.

(** A procedure that has come to its end. *)
Definition finished {A} (p : proc A) : Prop :=
  match p with
  | Vis _ _ => False
  | _ => True
  end.

(** A procedure with at most [n] awaits on every path. *)
Fixpoint at_most (n : nat) {A} (p : proc A) : Prop :=
  match p with
  | Vis e k =>
      if awaited e
      then match n with
           | O => False
           | S m => forall x, at_most m (k x)
           end
      else forall x, at_most n (k x)
  | _ => True
  end.

(** The longest handler, [handleTabChange], has four awaits. *)
Definition MAX_AWAITS : nat := 4.

(** How far a handler has come with the persisted time of one domain: it
    has not read [domainStats], it holds a snapshot in which the domain has
    the time [snapshot], or it has written. *)
Inductive progress :=
| Unread
| Holding (snapshot : Z)
| Written.

(** A handler that adds [delta] to the persisted time of [d] at most once:
    what it writes to [domainStats] is the snapshot it read first, with
    [delta] more for [d]; every other write leaves [domainStats] as it is. *)
Fixpoint adds (d : string) (delta : Z) (g : progress) {A} (p : proc A) : Prop :=
  match p with
  | Vis e k =>
      match e in event X return (X -> progress -> Prop) -> Prop with
      | LocalGet =>
          fun rest => forall l,
            rest l (match g with Unread => Holding (time_of l d) | _ => g end)
      | LocalSet upd | LocalSetDetached upd =>
          fun rest =>
            ((forall l, domainStats (upd l) = domainStats l) /\ rest tt g)
            \/ (exists snapshot, g = Holding snapshot
                  /\ (forall l, time_of (upd l) d = snapshot + delta)
                  /\ rest tt Written)
      | SyncGetCategoryMap => fun rest => forall cm, rest cm g
      | ReadMem => fun rest => forall m, rest m g
      | WriteMem _ | Emit _ => fun rest => rest tt g
      end (fun x g' => adds d delta g' (k x))
  | _ => True
  end.

(** One handler of the pool as the bookkeeping sees it: what it adds, and
    how far it has come. *)
Definition account := (Z * progress)%type.

(** What a handler has added so far. *)
Definition due (a : account) : Z :=
  match snd a with
  | Written => fst a
  | _ => 0
  end.

(** What the handlers that have written have added between them, and what
    all handlers of the pool add between them. *)
Definition settled (gs : list account) : Z := foldr (fun a s => due a + s) 0 gs.

Definition budget (gs : list account) : Z := foldr (fun a s => fst a + s) 0 gs.

(** A snapshot held lies between two times. *)
Definition fits (t0 u : Z) (g : progress) : Prop :=
  match g with
  | Holding snapshot => t0 <= snapshot <= u
  | _ => True
  end.

(** The books are in order: every handler adds what its account says,
    nothing negative; the persisted time of [d] and every snapshot held lie
    between the time [t0] at the outset and [t0] plus what has been
    settled. *)
Definition in_order (d : string) (t0 : Z) (gs : list account)
    (st : world * list (proc unit)) : Prop :=
  Forall2 (fun a p => 0 <= fst a /\ adds d (fst a) (snd a) p) gs (snd st)
  /\ t0 <= time_of (local (fst st)) d <= t0 + settled gs
  /\ Forall (fun a => fits t0 (t0 + settled gs) (snd a)) gs.

End Overlap.

(** ** Schedules for the examples *)

Module Schedules.
Import JS Classifier Background Examples MoreExamples Overlap.

(** Two reports of [x.com] whose handlers both read [domainStats] before
    either writes it. *)
Definition two_at_once : list turn :=
  [ Begin (Message (Some (addDomainTime (Some "x.com") (Some 3000))) 2000);
    Begin (Message (Some (addDomainTime (Some "x.com") (Some 2000))) 2500);
    Resume 0%nat; Resume 1%nat; Resume 0%nat; Resume 1%nat; Resume 0%nat; Resume 1%nat ].

(** What the worker hears while a tab of [github.com] is active: two
    reports of its page, a tick, and a report of a page of [x.com]. *)
Definition github_reports : list callback :=
  [ Message (Some (addDomainTime (Some "github.com") (Some 15000))) 16000;
    Tick 31000;
    Message (Some (addDomainTime (Some "github.com") (Some 15000))) 31010;
    Message (Some (addDomainTime (Some "x.com") (Some 500))) 40000 ].

(** The two reports of the page of [x.com], the second delivered before the
    first has been handled to its end. *)
Definition deliveries_at_once : list turn :=
  map Begin two_deliveries
  ++ [ Resume 0%nat; Resume 1%nat; Resume 0%nat; Resume 1%nat; Resume 0%nat; Resume 1%nat ].

End Schedules.

(** * Properties *)

Import JS Classifier.

(** ** Strings *)

Lemma append_cons (c : ascii) (s r : string) :
  (String c s ++ r)%string = String c (s ++ r)%string.
Proof. reflexivity. Qed.

Lemma startsWith_prefix (s p : string) :
  startsWith s p = true <-> exists b, s = (p ++ b)%string.
Proof.
  revert s. induction p as [|a p IH]; intros s; cbn [startsWith].
  - split; [intros _; exists s; reflexivity | reflexivity].
  - destruct s as [|b s].
    + split; [discriminate | intros [r Hr]; rewrite append_cons in Hr; discriminate].
    + destruct (Ascii.eqb_spec a b) as [->|Hne].
      * rewrite IH. split; intros [r Hr]; exists r; rewrite append_cons in *; congruence.
      * split; [discriminate | intros [r Hr]; rewrite append_cons in Hr; congruence].
Qed.

Lemma includes_occurs (s p : string) : includes s p = true <-> occurs_in p s.
Proof.
  unfold occurs_in. induction s as [|c s IH].
  - cbn [includes]. rewrite orb_false_r, startsWith_prefix. split.
    + intros [b Hb]. exists EmptyString, b. exact Hb.
    + intros [a [b Hab]]. destruct a as [|c a].
      * exists b. exact Hab.
      * rewrite append_cons in Hab. discriminate.
  - cbn [includes]. rewrite orb_true_iff, IH, startsWith_prefix. split.
    + intros [[b Hb] | [a [b Hab]]].
      * exists EmptyString, b. exact Hb.
      * exists (String c a), b. rewrite append_cons. congruence.
    + intros [a [b Hab]]. destruct a as [|c' a].
      * left. exists b. exact Hab.
      * right. exists a, b. rewrite append_cons in Hab. congruence.
Qed.

Lemma or_empty_id (s : string) : or_empty s = s.
Proof. destruct s; reflexivity. Qed.

(** ** The classifier *)

Section ClassifierFacts.
Variable URL_new : string -> option URL.

Lemma hit_spec host url p :
  hit host url p = true <-> p <> EmptyString /\ pattern_matches (Some host) url p.
Proof.
  unfold hit, pattern_matches.
  rewrite andb_true_iff, orb_true_iff, !includes_occurs. split.
  - intros [Hp [H|H]]; (split; [destruct p; [discriminate|congruence]|]).
    + left. exists host. auto.
    + right. exact H.
  - intros [Hp H]. split; [destruct p; [congruence|reflexivity]|].
    destruct H as [[h [Hh H]]|H]; [left; congruence | right; exact H].
Qed.

Lemma scan_patterns_find host url (cat : string) (patterns : list string) :
  scan_patterns host url patterns =
  match find (fun cp => hit host url (snd cp)) (map (fun p => (cat, p)) patterns) with
  | Some _ => true
  | None => false
  end.
Proof.
  induction patterns as [|p rest IH]; [reflexivity|].
  cbn [scan_patterns map find snd]. unfold hit at 1.
  destruct (truthyS (Some p)); cbn [negb andb]; [|exact IH].
  destruct (includes host p || includes url p); [reflexivity|exact IH].
Qed.

Lemma find_app_l {A} (f : A -> bool) l1 l2 x :
  find f l1 = Some x -> find f (l1 ++ l2) = Some x.
Proof.
  induction l1 as [|a l1 IH]; [discriminate|]. simpl.
  destruct (f a); auto.
Qed.

Lemma find_app_r {A} (f : A -> bool) (l1 l2 : list A) :
  find f l1 = None -> find f (l1 ++ l2) = find f l2.
Proof.
  induction l1 as [|a l1 IH]; [reflexivity|]. simpl.
  destruct (f a); [discriminate|auto].
Qed.

Lemma find_map_fst host url (cat : string) (patterns : list string) x :
  find (fun cp => hit host url (snd cp)) (map (fun p => (cat, p)) patterns) = Some x ->
  fst x = cat.
Proof.
  induction patterns as [|p rest IH]; [discriminate|]. simpl.
  destruct (hit host url p); [intros [= <-]; reflexivity | exact IH].
Qed.

Lemma scan_entries_find host url entries :
  scan_entries host url entries =
  fst <$> find (fun cp => hit host url (snd cp)) (flatten entries).
Proof.
  induction entries as [|[cat patterns] rest IH]; [reflexivity|].
  cbn [scan_entries flatten flat_map].
  rewrite (scan_patterns_find host url cat).
  destruct (find _ (map _ patterns)) as [x|] eqn:Hf.
  - rewrite (find_app_l _ _ _ _ Hf). simpl. f_equal. symmetry.
    eapply find_map_fst, Hf.
  - rewrite (find_app_r _ _ _ Hf). exact IH.
Qed.

(** [find] computes the first match. *)
Lemma first_match_find (P : string -> Prop) (f : string -> bool) l c :
  (forall p, f p = true <-> P p) ->
  first_match P l c <->
  c = match find (fun cp => f (snd cp)) l with
      | Some cp => fst cp
      | None => "other"
      end.
Proof.
  intros Hf. unfold first_match. induction l as [|[cat p] l IH].
  - simpl. split.
    + intros [(l1 & ? & ? & ? & H & _)|[_ ->]]; [destruct l1; discriminate|reflexivity].
    + intros ->. right. split; [constructor|reflexivity].
  - cbn [find snd fst]. destruct (f p) eqn:Hp; cbn [fst].
    + apply Hf in Hp. split.
      * intros [(l1 & cat' & p' & l2 & H & HP & Hall & ->)|[Hall _]].
        -- destruct l1 as [|x l1]; [simpl in H; congruence|].
           simpl in H. injection H as <- _. inversion Hall; subst. simpl in *. tauto.
        -- inversion Hall; subst. simpl in *. tauto.
      * intros ->. left. exists [], cat, p, l. repeat split; auto.
    + assert (Hn : ~ P p) by (rewrite <- Hf, Hp; discriminate).
      rewrite <- IH. split.
      * intros [(l1 & cat' & p' & l2 & H & HP & Hall & ->)|[Hall ->]].
        -- destruct l1 as [|x l1]; simpl in H.
           ++ congruence.
           ++ injection H as <- ->. left. exists l1, cat', p', l2.
              inversion Hall; subst. auto.
        -- right. inversion Hall; subst. auto.
      * intros [(l1 & cat' & p' & l2 & -> & HP & Hall & ->)|[Hall ->]].
        -- left. exists ((cat, p) :: l1), cat', p', l2. repeat split; auto.
        -- right. split; [constructor; auto|reflexivity].
Qed.

Lemma getCategoryForUrl_parsed url u (entries : categoryMap) :
  URL_new url = Some u ->
  getCategoryForUrl URL_new url (Some entries) =
  Normal (default "other"
            (scan_entries (hostname u ++ pathname u)%string url entries)).
Proof.
  intros Hu. unfold getCategoryForUrl, getCategoryForUrl_try, new_URL.
  rewrite Hu. cbn [cbind Object_entries try_catch]. rewrite or_empty_id.
  destruct (scan_entries _ _ _); reflexivity.
Qed.

Lemma getCategoryForUrl_unparsed url map :
  URL_new url = None -> getCategoryForUrl URL_new url map = Normal "other".
Proof.
  intros Hu. unfold getCategoryForUrl, getCategoryForUrl_try, new_URL.
  rewrite Hu. reflexivity.
Qed.

Lemma getCategoryForUrl_total url map :
  exists c, getCategoryForUrl URL_new url map = Normal c.
Proof.
  unfold getCategoryForUrl, getCategoryForUrl_try, new_URL.
  destruct (URL_new url) as [u|]; simpl; [|eauto].
  destruct map as [entries|]; simpl; [|eauto].
  destruct (scan_entries _ _ _); eauto.
Qed.

Lemma classify_documented_find url entries c :
  classify_documented URL_new url entries c <->
  c = match find (fun cp =>
                    match host_of (URL_new url) with
                    | Some h => includes h (snd cp)
                    | None => false
                    end || includes url (snd cp)) (flatten entries) with
      | Some cp => fst cp
      | None => "other"
      end.
Proof.
  unfold classify_documented.
  apply (first_match_find _ (fun p => match host_of (URL_new url) with
                                      | Some h => includes h p
                                      | None => false
                                      end || includes url p)).
  intros p. unfold pattern_matches. rewrite orb_true_iff, includes_occurs.
  destruct (host_of (URL_new url)) as [h|].
  - rewrite includes_occurs. split.
    + intros [H|H]; [left; eauto | right; exact H].
    + intros [[h' [[= <-] H]]|H]; auto.
  - split.
    + intros [H|H]; [discriminate | right; exact H].
    + intros [[h' [[=] _]]|H]; auto.
Qed.

(** C4, as amended: for a URL the parser accepts, the result is the category
    of the first non-empty pattern, in the iteration order of the map, that
    occurs as a substring of hostname+path or of the raw URL, and ["other"]
    when there is none; the result is a function of the URL and the map.
    For the map [{A: ["x.com"], B: ["x.com/y"]}] and [https://x.com/y] it
    is [A]. *)
Theorem getCategoryForUrl_first_nonempty_match url u (entries : categoryMap) :
  URL_new url = Some u ->
  (forall c,
      getCategoryForUrl URL_new url (Some entries) = Normal c <->
      first_match
        (fun p => p <> EmptyString /\
                  pattern_matches (Some (hostname u ++ pathname u)%string) url p)
        (flatten entries) c)
  /\ (url = "https://x.com/y" ->
      getCategoryForUrl URL_new url (Some example_map) = Normal "A").
Proof.
  intros Hu. split.
  - intros c. rewrite (getCategoryForUrl_parsed _ _ _ Hu).
    rewrite (first_match_find _ (hit (hostname u ++ pathname u)%string url))
      by (intros p; apply hit_spec).
    rewrite scan_entries_find.
    destruct (find _ _) as [cp|]; simpl; split; congruence.
  - intros ->. rewrite (getCategoryForUrl_parsed _ _ _ Hu).
    cbn [example_map scan_entries scan_patterns truthyS negb].
    replace (includes "https://x.com/y" "x.com") with true by reflexivity.
    rewrite orb_true_r. reflexivity.
Qed.

(** C8: a call never ends in an exception; a URL the parser rejects, and a
    map that is [null] or [undefined], give ["other"]. *)
Theorem getCategoryForUrl_never_throws url map :
  (exists c, getCategoryForUrl URL_new url map = Normal c)
  /\ (URL_new url = None -> getCategoryForUrl URL_new url map = Normal "other")
  /\ getCategoryForUrl URL_new url None = Normal "other".
Proof.
  split; [apply getCategoryForUrl_total|].
  split; [apply getCategoryForUrl_unparsed|].
  unfold getCategoryForUrl, getCategoryForUrl_try, new_URL.
  destruct (URL_new url); reflexivity.
Qed.

End ClassifierFacts.

Lemma getCategoryForUrl_first_nonempty_match_witness :
  getCategoryForUrl simple_URL "https://x.com/y" (Some example_map) = Normal "A".
Proof.
  apply (proj2 (getCategoryForUrl_first_nonempty_match simple_URL "https://x.com/y"
                  {| hostname := "x.com"; pathname := "/y" |} example_map eq_refl)).
  reflexivity.
Defined.

Lemma getCategoryForUrl_never_throws_witness :
  getCategoryForUrl simple_URL "x.com/y" (Some DEFAULT_CATEGORY_MAP) = Normal "other".
Proof.
  apply (proj1 (proj2 (getCategoryForUrl_never_throws simple_URL "x.com/y"
                         (Some DEFAULT_CATEGORY_MAP)))).
  reflexivity.
Defined.

(** C4 as worded fails on the code in two ways.  An empty pattern occurs in
    every string, so the documented rule picks its category, while the code
    skips it; and a URL the parser rejects is ["other"] even though the raw
    URL contains a pattern. *)
Lemma getCategoryForUrl_not_documented :
  (getCategoryForUrl simple_URL "https://x.com/y"
     (Some [("A", [""]); ("B", ["x.com"])]) = Normal "B"
   /\ classify_documented simple_URL "https://x.com/y" [("A", [""]); ("B", ["x.com"])] "A"
   /\ ~ classify_documented simple_URL "https://x.com/y"
         [("A", [""]); ("B", ["x.com"])] "B")
  /\ (getCategoryForUrl simple_URL "x.com/y" (Some [("A", ["x.com"])]) = Normal "other"
      /\ classify_documented simple_URL "x.com/y" [("A", ["x.com"])] "A"
      /\ ~ classify_documented simple_URL "x.com/y" [("A", ["x.com"])] "other").
Proof.
  rewrite !classify_documented_find.
  repeat split; try reflexivity; vm_compute; discriminate.
Qed.

(** ** The background worker, one callback at a time *)

Import Background.

Lemma run_bind {A B} (p : proc A) (f : A -> proc B) (w : world) :
  run (bind p f) w =
  match run p w with
  | (w', Normal a) => run (f a) w'
  | (w', Throw e) => (w', Throw e)
  end.
Proof.
  revert w. induction p as [a|e|X e k IH]; intros w; cbn [bind run]; auto.
  destruct (perform e w) as [w' x]. apply IH.
Qed.

Lemma run_catch {A} (p : proc A) (h : string -> proc A) (w : world) :
  run (catch p h) w =
  match run p w with
  | (w', Normal a) => (w', Normal a)
  | (w', Throw e) => run (h e) w'
  end.
Proof.
  revert w. induction p as [a|e|X e k IH]; intros w; cbn [catch run]; auto.
  destruct (perform e w) as [w' x]. apply IH.
Qed.

Lemma only_bind P {A B} (p : proc A) (f : A -> proc B) :
  only P p -> (forall a, only P (f a)) -> only P (bind p f).
Proof.
  intros Hp Hf. induction Hp; cbn [bind]; auto; constructor; auto.
Qed.

Lemma only_catch P {A} (p : proc A) (h : string -> proc A) :
  only P p -> (forall e, only P (h e)) -> only P (catch p h).
Proof.
  intros Hp Hh. induction Hp; cbn [catch]; auto; constructor; auto.
Qed.

Lemma only_trigger P {X} (e : event X) : P X e -> only P (trigger e).
Proof. intros He. constructor; [exact He | constructor]. Qed.

Lemma only_lift P {A} (c : completion A) : only P (lift c).
Proof. destruct c; constructor. Qed.

(** A relation between the worlds before and after, kept by every event of a
    procedure, is kept by its run. *)
Lemma run_only P (I : world -> world -> Prop) {A} (p : proc A) :
  (forall w, I w w) ->
  (forall w1 w2 w3, I w1 w2 -> I w2 w3 -> I w1 w3) ->
  (forall X (e : event X) w, P X e -> I w (fst (perform e w))) ->
  only P p -> forall w, I w (fst (run p w)).
Proof.
  intros Hrefl Htrans Hstep Hp. induction Hp as [a|err|X e k He Hk IH]; intros w.
  - apply Hrefl.
  - apply Hrefl.
  - cbn [run]. specialize (Hstep X e w He).
    destruct (perform e w) as [w' x]. eapply Htrans; [exact Hstep|apply IH].
Qed.

Lemma run_extends {A} (p : proc A) (w : world) : extends w (fst (run p w)).
Proof.
  apply (run_only (fun _ _ => True) extends).
  - intros w0. exists []. symmetry. apply app_nil_r.
  - intros w1 w2 w3 [o1 H1] [o2 H2]. exists (o1 ++ o2). rewrite H2, H1. symmetry. apply app_assoc.
  - intros X e w0 _. destruct e; cbn; try (exists []; symmetry; apply app_nil_r).
    exists [o]. reflexivity.
  - clear. induction p; constructor; auto.
Qed.

Lemma sent_emitted (p : proc unit) (w : world) :
  sent (fst (run p w)) = sent w ++ emitted p w.
Proof.
  unfold emitted. destruct (run_extends p w) as [outs ->].
  rewrite drop_app_length. reflexivity.
Qed.

Lemma emitted_of (p : proc unit) (w : world) outs :
  sent (fst (run p w)) = sent w ++ outs -> emitted p w = outs.
Proof. intros H. unfold emitted. rewrite H, drop_app_length. reflexivity. Qed.

Section BackgroundFacts.
Variable URL_new : string -> option URL.

Lemma getCategoryForUrl_value url map :
  getCategoryForUrl URL_new url map = Normal (category_of URL_new url map).
Proof.
  unfold category_of. destruct (getCategoryForUrl_total URL_new url map) as [c ->].
  reflexivity.
Qed.

Lemma run_loadPrefs (w : world) :
  run loadPrefs w =
  (w, Normal {| prefs_categoryMap := Some (default DEFAULT_CATEGORY_MAP (sync_categoryMap w));
                breakThresholds := BREAK_THRESHOLDS |}).
Proof. reflexivity. Qed.

Lemma run_addDomainTime_rejected domain deltaMs now w :
  truthyS domain = false \/ orZ deltaMs 0 <= 0 ->
  run (addDomainTime_handler URL_new domain deltaMs now) w =
  (add_sent (Respond (ok false)) w, Normal tt).
Proof.
  intros H. unfold addDomainTime_handler. rewrite run_catch.
  destruct domain as [d|]; [|reflexivity].
  destruct (negb (truthyS (Some d)) || (orZ deltaMs 0 <=? 0)) eqn:Hc; [reflexivity|].
  apply orb_false_iff in Hc as [Hd Hn]. apply negb_false_iff in Hd.
  apply Z.leb_gt in Hn. destruct H; [congruence|lia].
Qed.

Lemma run_addDomainTime_accepted d deltaMs now w :
  truthyS (Some d) = true -> 0 < orZ deltaMs 0 ->
  run (addDomainTime_handler URL_new (Some d) deltaMs now) w =
  (add_sent (Respond (ok true))
     (set_local
        (set_domainStats
           (<[d := fill_category (domain_category URL_new w d)
                     (add_time (orZ deltaMs 0) now
                        (default blank_entry (stats (local w) !! d)))]>
              (stats (local w)))
           (local w)) w),
   Normal tt).
Proof.
  intros Hd Hn. unfold addDomainTime_handler. rewrite run_catch.
  rewrite Hd. replace (orZ deltaMs 0 <=? 0) with false by (symmetry; apply Z.leb_gt; lia).
  cbn [negb orb]. unfold addDomainTime_store. rewrite run_bind. cbn [trigger run perform].
  rewrite run_bind, run_catch, run_bind, run_loadPrefs, run_bind.
  cbn [prefs_categoryMap]. rewrite getCategoryForUrl_value.
  reflexivity.
Qed.




Lemma fill_category_kept cat (e : entry) c :
  category e = Some c -> c <> EmptyString -> category (fill_category cat e) = Some c.
Proof.
  intros He Hc. unfold fill_category, orS. cbn [category]. rewrite He.
  destruct c; [congruence|reflexivity].
Qed.

Lemma run_getDomainTime domain (w : world) :
  run (getDomainTime_handler domain) w =
  (add_sent
     (Respond
        (let e := default blank_entry (stats (local w) !! default "undefined" domain) in
         domainTime (orZ (time e) 0) (orS (category e) None) (orZ (lastActive e) 0)))
     w, Normal tt).
Proof. reflexivity. Qed.

(** C5: the answer to [getDomainTime] carries the persisted time and
    [lastActive] of the domain (0 where there is none) and reading it does
    not touch local storage; the page-load callback then sets
    [baseDomainTimeMs] to 0 when [now - lastActive] exceeds the 30 minute
    gap and to the persisted time otherwise.  31 minutes give 0, 29 minutes
    keep the time. *)
Theorem loadDomainInfo_reset_gap (d : string) (now0 now : Z) (w : world)
    (a : Content.activity) :
  let w' := fst (run (onMessage URL_new (Some (getDomainTime (Some d))) now0) w) in
  exists t c last,
    sent w' = sent w ++ [Respond (domainTime t c last)]
    /\ local w' = local w
    /\ t = orZ (stats (local w) !! d ≫= time) 0
    /\ last = orZ (stats (local w) !! d ≫= lastActive) 0
    /\ let a' := Content.loadDomainInfo_callback now
                   (Content.of_response (domainTime t c last)) a in
       (Content.RESET_GAP_MS < now - last -> Content.baseDomainTimeMs a' = 0)
       /\ (now - last <= Content.RESET_GAP_MS -> Content.baseDomainTimeMs a' = t)
       /\ (now - last = 31 * 60 * 1000 -> Content.baseDomainTimeMs a' = 0)
       /\ (now - last = 29 * 60 * 1000 -> Content.baseDomainTimeMs a' = t).
Proof.
  cbn [onMessage]. rewrite run_getDomainTime. cbn [fst from_option id].
  set (e := default blank_entry (stats (local w) !! d)).
  exists (orZ (time e) 0), (orS (category e) None), (orZ (lastActive e) 0).
  split; [reflexivity|]. split; [reflexivity|].
  split; [subst e; destruct (stats (local w) !! d); reflexivity|].
  split; [subst e; destruct (stats (local w) !! d); reflexivity|].
  assert (Hor : forall n, orZ (Some n) 0 = n).
  { intros n. simpl. destruct (Z.eqb_spec n 0); congruence. }
  cbn [Content.loadDomainInfo_callback Content.of_response Content.baseDomainTimeMs
       Content.resp_lastActive Content.resp_time].
  rewrite !Hor. unfold Content.RESET_GAP_MS.
  destruct (Z.gtb_spec (now - orZ (lastActive e) 0) (30 * 60 * 1000)); repeat split; lia.
Qed.

(** *** The scheduler tick *)

Lemma run_check_thresholds duration lastShown ts (w : world) :
  run (check_thresholds duration lastShown ts) w =
  match find (due duration lastShown) ts with
  | Some t => (fired t w, Normal tt)
  | None => (w, Normal tt)
  end.
Proof.
  induction ts as [|t ts IH]; [reflexivity|].
  cbn [check_thresholds find]. fold (due duration lastShown t).
  destruct (due duration lastShown t); [reflexivity|exact IH].
Qed.

Lemma run_check_productive_closed now (w : world) :
  truthyZ (productiveSessionStart (mem w)) = false ->
  run (check_productive now) w = (w, Normal tt).
Proof.
  intros H. unfold check_productive. cbn [bind trigger run perform].
  destruct (productiveSessionStart (mem w)) as [start|]; [|reflexivity].
  rewrite H. reflexivity.
Qed.

Lemma run_check_productive_open now (w : world) :
  truthyZ (productiveSessionStart (mem w)) = true ->
  run (check_productive now) w =
  run (check_thresholds (effective_duration now (mem w)) (latch w) checked_thresholds) w.
Proof.
  intros H. unfold check_productive, effective_duration. cbn [bind trigger run perform].
  destruct (productiveSessionStart (mem w)) as [start|]; [|discriminate].
  rewrite H. reflexivity.
Qed.

Lemma run_check_distracting now (w : world) :
  run (check_distracting now) w =
  match distractingStart (mem w) with
  | Some start =>
      if truthyZ (Some start) && (now - start >=? GET_BACK_THRESHOLD)
      then (nudged (now - start) w, Normal tt)
      else (w, Normal tt)
  | None => (w, Normal tt)
  end.
Proof.
  unfold check_distracting. cbn [bind trigger run perform].
  destruct (distractingStart (mem w)) as [start|]; [|reflexivity].
  destruct (truthyZ (Some start)); cbn [negb andb]; [|reflexivity].
  destruct (now - start >=? GET_BACK_THRESHOLD); reflexivity.
Qed.

Lemma run_persist_accumulated (w : world) :
  run persist_accumulated w =
  (set_local (set_stored_productiveAccumulated (productiveAccumulated (mem w)) (local w)) w,
   Normal tt).
Proof. reflexivity. Qed.

Lemma find_due_first duration lastShown ts t :
  find (due duration lastShown) ts = Some t <-> first_due duration lastShown ts t.
Proof.
  assert (Hdue : forall x, due duration lastShown x = true <-> x <= duration /\ lastShown < x).
  { intros x. unfold due. rewrite andb_true_iff, Z.geb_le, Z.ltb_lt. reflexivity. }
  unfold first_due. induction ts as [|x ts IH]; cbn [find].
  - split; [discriminate|]. intros (b & a & H & _). destruct b; discriminate.
  - destruct (due duration lastShown x) eqn:Hx.
    + apply Hdue in Hx. split.
      * intros [= <-]. exists [], ts. repeat split; try tauto. constructor.
      * intros (b & a & H & Ht & Hl & Hall). destruct b as [|y b]; simpl in H.
        -- congruence.
        -- injection H as <- _. inversion Hall; subst. tauto.
    + assert (Hn : ~ (x <= duration /\ lastShown < x)) by (rewrite <- Hdue, Hx; discriminate).
      rewrite IH. split.
      * intros (b & a & -> & Ht & Hl & Hall). exists (x :: b), a. repeat split; auto.
      * intros (b & a & H & Ht & Hl & Hall). destruct b as [|y b]; simpl in H.
        -- injection H as <- _. tauto.
        -- injection H as <- ->. exists b, a. inversion Hall; subst. auto.
Qed.

(** *** What a callback cannot do *)

Ltac only_step :=
  lazymatch goal with
  | |- only _ (bind _ _) => apply only_bind
  | |- only _ (catch _ _) => apply only_catch
  | |- only _ (trigger _) => apply only_trigger
  | |- only _ (lift _) => apply only_lift
  | |- only _ (Ret _) => constructor
  | |- only _ (Raise _) => constructor
  | |- only _ (if ?b then _ else _) => destruct b
  | |- only _ (match ?x with _ => _ end) => destruct x
  | |- forall _, _ => intro
  | |- only _ loadPrefs => unfold loadPrefs
  | |- only _ (sendResponse _) => unfold sendResponse
  | |- only _ (pushToAllTabs _) => unfold pushToAllTabs
  | |- only _ (saveDomainTime _ _ _) => unfold saveDomainTime
  end.

Ltac only_solve := repeat only_step; try (cbn; intros; auto; fail).

Lemma breaks_shown_app a b : breaks_shown (a ++ b) = breaks_shown a ++ breaks_shown b.
Proof. apply omap_app. Qed.

Lemma nudges_app a b : nudges (a ++ b) = nudges a ++ nudges b.
Proof. apply omap_app. Qed.

Lemma latch_kept_refl w : latch_kept w w.
Proof. split; [reflexivity|]. exists []. split; [symmetry; apply app_nil_r|reflexivity]. Qed.

Lemma latch_kept_trans w1 w2 w3 : latch_kept w1 w2 -> latch_kept w2 w3 -> latch_kept w1 w3.
Proof.
  intros [H1 (o1 & S1 & B1)] [H2 (o2 & S2 & B2)]. split; [congruence|].
  exists (o1 ++ o2). split.
  - rewrite S2, S1. symmetry. apply app_assoc.
  - rewrite breaks_shown_app, B1, B2. reflexivity.
Qed.

Lemma run_keeps_latch {A} (p : proc A) (w : world) :
  only keeps_latch p -> latch_kept w (fst (run p w)).
Proof.
  intros Hp. revert w. apply (run_only keeps_latch latch_kept p); auto.
  - apply latch_kept_refl.
  - apply latch_kept_trans.
  - intros X e w He. unfold latch_kept.
    destruct e; cbn [keeps_latch] in He; cbn [perform fst local sent set_local set_mem add_sent];
      (split; [first [apply He | reflexivity] |]);
      first [ exists []; split; [symmetry; apply app_nil_r | reflexivity]
            | eexists; split; [reflexivity | exact He] ].
Qed.

Lemma calm_kept_refl w : calm_kept w w.
Proof. split; [auto|]. exists []. split; [symmetry; apply app_nil_r|reflexivity]. Qed.

Lemma calm_kept_trans w1 w2 w3 : calm_kept w1 w2 -> calm_kept w2 w3 -> calm_kept w1 w3.
Proof.
  intros [H1 (o1 & S1 & B1)] [H2 (o2 & S2 & B2)]. split; [auto|].
  exists (o1 ++ o2). split.
  - rewrite S2, S1. symmetry. apply app_assoc.
  - rewrite nudges_app, B1, B2. reflexivity.
Qed.

Lemma run_keeps_calm {A} (p : proc A) (w : world) :
  only keeps_calm p -> calm_kept w (fst (run p w)).
Proof.
  intros Hp. revert w. apply (run_only keeps_calm calm_kept p); auto.
  - apply calm_kept_refl.
  - apply calm_kept_trans.
  - intros X e w He. unfold calm_kept.
    destruct e; cbn [keeps_calm] in He; cbn [perform fst mem sent set_local set_mem add_sent];
      (split; [first [apply He | tauto] |]);
      first [ exists []; split; [symmetry; apply app_nil_r | reflexivity]
            | eexists; split; [reflexivity | exact He] ].
Qed.

Lemma handleTabChange_keeps_latch t now : only keeps_latch (handleTabChange URL_new t now).
Proof. unfold handleTabChange, close_interval, open_interval. only_solve. Qed.

Lemma onMessage_keeps_latch msg now :
  msg <> Some resetBreakShown -> only keeps_latch (onMessage URL_new msg now).
Proof.
  intros Hm. destruct msg as [[]|]; try congruence;
    cbn [onMessage]; unfold addDomainTime_handler, addDomainTime_store, getDomainTime_handler;
    only_solve.
Qed.

Lemma onMessage_keeps_calm msg now : only keeps_calm (onMessage URL_new msg now).
Proof.
  destruct msg as [[]|];
    cbn [onMessage]; unfold addDomainTime_handler, addDomainTime_store, getDomainTime_handler;
    only_solve.
Qed.

Lemma check_productive_keeps_calm now : only keeps_calm (check_productive now).
Proof.
  unfold check_productive. only_solve.
  cbn [check_thresholds checked_thresholds]. only_solve.
Qed.

Lemma check_distracting_keeps_latch now : only keeps_latch (check_distracting now).
Proof. unfold check_distracting. only_solve. Qed.

Lemma persist_keeps_latch : only keeps_latch persist_accumulated.
Proof. unfold persist_accumulated. only_solve. Qed.

Lemma persist_keeps_calm : only keeps_calm persist_accumulated.
Proof. unfold persist_accumulated. only_solve. Qed.

Lemma check_productive_normal now (w : world) :
  snd (run (check_productive now) w) = Normal tt.
Proof.
  destruct (truthyZ (productiveSessionStart (mem w))) eqn:H.
  - rewrite run_check_productive_open, run_check_thresholds by exact H.
    destruct (find _ _); reflexivity.
  - rewrite run_check_productive_closed by exact H. reflexivity.
Qed.

Lemma check_distracting_normal now (w : world) :
  snd (run (check_distracting now) w) = Normal tt.
Proof.
  rewrite run_check_distracting. destruct (distractingStart (mem w)) as [start|]; [|reflexivity].
  destruct (_ && _); reflexivity.
Qed.

Lemma run_periodicChecks now (w : world) :
  run (periodicChecks now) w =
  run persist_accumulated
    (fst (run (check_distracting now) (fst (run (check_productive now) w)))).
Proof.
  unfold periodicChecks. rewrite run_bind.
  pose proof (check_productive_normal now w) as H1.
  destruct (run (check_productive now) w) as [w1 r1]. cbn [snd fst] in *. subst r1.
  rewrite run_bind.
  pose proof (check_distracting_normal now w1) as H2.
  destruct (run (check_distracting now) w1) as [w2 r2]. cbn [snd fst] in *. subst r2.
  reflexivity.
Qed.

Lemma check_productive_mem now (w : world) :
  mem (fst (run (check_productive now) w)) = mem w.
Proof.
  destruct (truthyZ (productiveSessionStart (mem w))) eqn:H.
  - rewrite run_check_productive_open, run_check_thresholds by exact H.
    destruct (find _ _); reflexivity.
  - rewrite run_check_productive_closed by exact H. reflexivity.
Qed.

(** *** The distraction nudge *)

Lemma tick_nudges now (w : world) :
  nudges (emitted (periodicChecks now) w) =
  match distractingStart (mem w) with
  | Some start => if streak_due now w then [now - start] else []
  | None => []
  end
  /\ distractingStart (mem (fst (run (periodicChecks now) w))) =
     if streak_due now w then None else distractingStart (mem w).
Proof.
  rewrite (emitted_of (periodicChecks now) w
             (emitted (check_productive now) w ++
              if streak_due now w
              then [ToAllTabs (getBackToWork "distracted"
                                 (now - default 0 (distractingStart (mem w))))]
              else [])).
  - rewrite run_periodicChecks, run_persist_accumulated. cbn [fst mem set_local].
    destruct (run_keeps_calm _ w (check_productive_keeps_calm now)) as [_ (o1 & S1 & N1)].
    rewrite (emitted_of _ _ _ S1), nudges_app, N1.
    pose proof (check_productive_mem now w) as Hm.
    rewrite run_check_distracting, Hm. unfold streak_due.
    destruct (distractingStart (mem w)) as [start|] eqn:Hds;
      [|split; [reflexivity|cbn [fst]; rewrite Hm; exact Hds]].
    destruct (truthyZ (Some start) && (now - start >=? GET_BACK_THRESHOLD)).
    + split; reflexivity.
    + split; [reflexivity|]. cbn [fst]. rewrite Hm. exact Hds.
  - rewrite run_periodicChecks, run_persist_accumulated. cbn [fst sent set_local].
    pose proof (check_productive_mem now w) as Hm.
    pose proof (sent_emitted (check_productive now) w) as Hs.
    rewrite run_check_distracting, Hm. unfold streak_due.
    destruct (distractingStart (mem w)) as [start|].
    + destruct (truthyZ (Some start) && (now - start >=? GET_BACK_THRESHOLD)).
      * cbn [fst nudged sent set_mem add_sent from_option id]. rewrite Hs.
        symmetry. apply app_assoc.
      * cbn [fst]. rewrite Hs, app_nil_r. reflexivity.
    + cbn [fst]. rewrite Hs, app_nil_r. reflexivity.
Qed.

Lemma streak_due_spec now (w : world) :
  streak_due now w = true <->
  exists start, distractingStart (mem w) = Some start /\ start <> 0
                /\ GET_BACK_THRESHOLD <= now - start.
Proof.
  unfold streak_due. destruct (distractingStart (mem w)) as [start|].
  - rewrite andb_true_iff, Z.geb_le. cbn [truthyZ]. rewrite negb_true_iff, Z.eqb_neq.
    split.
    + intros [H1 H2]. exists start. auto.
    + intros (s' & [= <-] & H1 & H2). auto.
  - split; [discriminate|]. intros (s' & [=] & _).
Qed.

Lemma calm_callback (c : callback) (w : world) :
  ~ is_focus_change c ->
  truthyZ (distractingStart (mem w)) = false ->
  calm_kept w (fst (run (body URL_new c) w)).
Proof.
  intros Hc Hw. destruct c as [now|t now|msg now|state].
  - cbn [body]. destruct (tick_nudges now w) as [Hn Hd].
    assert (Hdue : streak_due now w = false).
    { unfold streak_due. destruct (distractingStart (mem w)); [|reflexivity].
      rewrite Hw. reflexivity. }
    rewrite Hdue in Hn, Hd. split.
    + intros _. rewrite Hd. exact Hw.
    + exists (emitted (periodicChecks now) w). split; [apply sent_emitted|].
      rewrite Hn. destruct (distractingStart (mem w)); reflexivity.
  - exfalso. apply Hc. exists t, now. reflexivity.
  - cbn [body]. apply run_keeps_calm, onMessage_keeps_calm.
  - cbn [body]. apply run_keeps_calm. only_solve.
Qed.

Lemma calm_run_all (cs : list callback) (w : world) :
  Forall (fun c => ~ is_focus_change c) cs ->
  truthyZ (distractingStart (mem w)) = false ->
  calm_kept w (run_all URL_new cs w).
Proof.
  intros Hcs. revert w. induction Hcs as [|c cs Hc _ IH]; intros w Hw; cbn [run_all].
  - apply calm_kept_refl.
  - pose proof (calm_callback c w Hc Hw) as H1.
    eapply calm_kept_trans; [exact H1|]. apply IH. apply H1, Hw.
Qed.

(** The firing rule of the nudge: a tick sends [getBackToWork] exactly when
    the distraction streak has a start and [now] is at least 15 minutes
    after it; sending it clears the start, and after that ticks, requests
    and idle changes send none.  What a focus change does to the cleared
    streak is [getBackToWork_rearmed_in_running_interval] below. *)
Theorem getBackToWork_fires_when_due now (w : world) :
  let outs := emitted (periodicChecks now) w in
  let w' := fst (run (periodicChecks now) w) in
  (nudges outs <> [] <->
   exists start, distractingStart (mem w) = Some start /\ start <> 0
                 /\ GET_BACK_THRESHOLD <= now - start)
  /\ (nudges outs <> [] ->
      distractingStart (mem w') = None
      /\ forall cs, Forall (fun c => ~ is_focus_change c) cs ->
                    nudges (emitted_all URL_new cs w') = []).
Proof.
  cbv zeta. destruct (tick_nudges now w) as [Hn Hd]. rewrite Hn, Hd.
  rewrite <- streak_due_spec. split.
  - destruct (distractingStart (mem w)) as [start|] eqn:Hs.
    + destruct (streak_due now w); split; congruence.
    + unfold streak_due. rewrite Hs. split; [congruence|discriminate].
  - intros Hfire.
    assert (Hdue : streak_due now w = true).
    { destruct (distractingStart (mem w)); [|congruence].
      destruct (streak_due now w); congruence. }
    rewrite Hdue. split; [reflexivity|]. intros cs Hcs.
    destruct (calm_run_all cs (fst (run (periodicChecks now) w)) Hcs)
      as [_ (outs & Hs & Hnone)].
    + rewrite Hd, Hdue. reflexivity.
    + unfold emitted_all. rewrite Hs, drop_app_length. exact Hnone.
Qed.

(** *** Focus changes *)

Lemma run_keeps_productive {A} (p : proc A) (w : world) :
  only keeps_productive p -> productive_kept w (fst (run p w)).
Proof.
  intros Hp. revert w. apply (run_only keeps_productive productive_kept p); auto.
  - intros w. split; reflexivity.
  - intros w1 w2 w3 [H1 H2] [H3 H4]. split; congruence.
  - intros X e w He. unfold productive_kept.
    destruct e; cbn [keeps_productive] in He; cbn [perform fst mem set_local set_mem add_sent];
      first [apply He | split; reflexivity].
Qed.

Lemma open_interval_keeps_productive t now :
  only keeps_productive (open_interval URL_new t now).
Proof. unfold open_interval. only_solve. Qed.

Lemma run_saveDomainTime_mem domain cat delta (w : world) :
  snd (run (saveDomainTime domain cat delta) w) = Normal tt
  /\ mem (fst (run (saveDomainTime domain cat delta) w)) = mem w.
Proof.
  unfold saveDomainTime. destruct domain as [d|]; [|split; reflexivity].
  destruct (negb (truthyS (Some d))); split; reflexivity.
Qed.

Lemma run_close_interval now (w : world) :
  truthyS (activeDomain (mem w)) = true ->
  activeStart (mem w) <> 0 ->
  snd (run (close_interval URL_new now) w) = Normal tt
  /\ mem (fst (run (close_interval URL_new now) w)) =
     update_streaks (interval_category URL_new w) now (now - activeStart (mem w)) (mem w).
Proof.
  intros Hd Hs. unfold close_interval. cbn [bind trigger run perform].
  rewrite Hd. cbn [truthyZ]. replace (activeStart (mem w) =? 0) with false
    by (symmetry; apply Z.eqb_neq; exact Hs).
  cbn [negb andb]. rewrite run_bind, run_loadPrefs. cbn [bind trigger run perform].
  rewrite run_bind.
  assert (Hcat : run (if truthyS (activeCategory (mem w))
                      then Ret (activeCategory (mem w))
                      else bind (lift (getCategoryForUrl URL_new
                                         (to_string (activeDomain (mem w)))
                                         (Some (default DEFAULT_CATEGORY_MAP
                                                  (sync_categoryMap w)))))
                                (fun c => Ret (Some c))) w
                 = (w, Normal (interval_category URL_new w))).
  { unfold interval_category. destruct (truthyS (activeCategory (mem w))); [reflexivity|].
    rewrite getCategoryForUrl_value. reflexivity. }
  cbn [prefs_categoryMap]. rewrite Hcat, run_bind.
  destruct (run_saveDomainTime_mem (activeDomain (mem w)) (interval_category URL_new w)
              (now - activeStart (mem w)) w) as [Hn Hm].
  destruct (run (saveDomainTime _ _ _) w) as [w1 r1]. cbn [fst snd] in Hn, Hm. subst r1.
  cbn [trigger run perform fst snd mem set_mem]. rewrite Hm. split; reflexivity.
Qed.

Lemma update_streaks_breaks cat now delta (m : memory) :
  is_one_of cat ["social"; "games"; "other"] = true ->
  productiveSessionStart (update_streaks cat now delta m) = None
  /\ productiveAccumulated (update_streaks cat now delta m) = productiveAccumulated m.
Proof.
  intros H. unfold update_streaks.
  assert (Hp : is_one_of cat ["productive"; "school"] = false).
  { destruct cat as [c|]; [|reflexivity]. cbn [is_one_of existsb] in *.
    rewrite !orb_false_r in *.
    destruct (String.eqb_spec c "productive") as [->|]; [discriminate H|].
    destruct (String.eqb_spec c "school") as [->|]; [discriminate H|]. reflexivity. }
  rewrite Hp, H. split; reflexivity.
Qed.

(** C9: a focus change that closes an interval of category social, games or
    other clears [productiveSessionStart] and leaves [productiveAccumulated]
    as it was. *)
Theorem distracting_interval_keeps_accumulated t now (w : world) (cat : string) :
  truthyS (activeDomain (mem w)) = true ->
  activeStart (mem w) <> 0 ->
  interval_category URL_new w = Some cat ->
  cat = "social" \/ cat = "games" \/ cat = "other" ->
  let w' := fst (run (handleTabChange URL_new t now) w) in
  productiveSessionStart (mem w') = None
  /\ productiveAccumulated (mem w') = productiveAccumulated (mem w).
Proof.
  intros Hd Hs Hcat Hin. cbv zeta. unfold handleTabChange. rewrite run_bind.
  destruct (run_close_interval now w Hd Hs) as [Hn Hm].
  destruct (run (close_interval URL_new now) w) as [w1 r1]. cbn [fst snd] in Hn, Hm.
  subst r1.
  destruct (run_keeps_productive _ w1 (open_interval_keeps_productive t now)) as [H1 H2].
  rewrite H1, H2, Hm, Hcat.
  apply update_streaks_breaks.
  destruct Hin as [-> | [-> | ->]]; reflexivity.
Qed.

(** *** The break latch *)

Lemma orZ_Some_0 n : orZ (Some n) 0 = n.
Proof. cbn [orZ]. destruct (Z.eqb_spec n 0); congruence. Qed.

Lemma run_check_productive now (w : world) :
  run (check_productive now) w =
  match due_threshold now w with
  | Some t => (fired t w, Normal tt)
  | None => (w, Normal tt)
  end.
Proof.
  unfold due_threshold. destruct (truthyZ (productiveSessionStart (mem w))) eqn:H.
  - rewrite run_check_productive_open by exact H. apply run_check_thresholds.
  - apply run_check_productive_closed, H.
Qed.

Lemma rest_of_tick_keeps_latch now :
  only keeps_latch (bind (check_distracting now) (fun _ => persist_accumulated)).
Proof.
  apply only_bind; [apply check_distracting_keeps_latch|].
  intros _. apply persist_keeps_latch.
Qed.

Lemma tick_breaks now (w : world) :
  breaks_shown (emitted (periodicChecks now) w) =
  match due_threshold now w with
  | Some t => [t]
  | None => []
  end
  /\ lastShownBreakThreshold (local (fst (run (periodicChecks now) w))) =
     match due_threshold now w with
     | Some t => Some t
     | None => lastShownBreakThreshold (local w)
     end.
Proof.
  unfold emitted, periodicChecks. rewrite run_bind, run_check_productive.
  destruct (due_threshold now w) as [t|].
  - destruct (run_keeps_latch _ (fired t w) (rest_of_tick_keeps_latch now))
      as [Hl (outs & Hs & Hb)].
    rewrite Hl, Hs. cbn [fired sent set_local add_sent]. split; [|reflexivity].
    rewrite <- app_assoc, drop_app_length, breaks_shown_app, Hb. reflexivity.
  - destruct (run_keeps_latch _ w (rest_of_tick_keeps_latch now))
      as [Hl (outs & Hs & Hb)].
    rewrite Hl, Hs, drop_app_length. split; [exact Hb|reflexivity].
Qed.

Lemma due_threshold_above now (w : world) t :
  due_threshold now w = Some t -> latch w < t.
Proof.
  unfold due_threshold. destruct (truthyZ _); [|discriminate].
  intros H. apply find_some in H as [_ H]. unfold due in H.
  apply andb_true_iff in H as [_ H]. apply Z.ltb_lt, H.
Qed.

Lemma run_all_extends (cs : list callback) (w : world) :
  extends w (run_all URL_new cs w).
Proof.
  revert w. induction cs as [|c cs IH]; intros w; cbn [run_all].
  - exists []. symmetry. apply app_nil_r.
  - destruct (run_extends (body URL_new c) w) as [o1 H1].
    destruct (IH (fst (run (body URL_new c) w))) as [o2 H2].
    exists (o1 ++ o2). rewrite H2, H1. symmetry. apply app_assoc.
Qed.

(** While the latch is at or above [T], no callback other than a reset
    lowers it or shows [T]. *)
Lemma latched_callback (c : callback) (w : world) T :
  ~ is_reset c -> T <= latch w ->
  T <= latch (fst (run (body URL_new c) w))
  /\ T ∉ breaks_shown (emitted (body URL_new c) w).
Proof.
  intros Hc HT. destruct c as [now|t now|msg now|state]; cbn [body].
  - destruct (tick_breaks now w) as [Hb Hl]. rewrite Hb. unfold latch at 1. rewrite Hl.
    destruct (due_threshold now w) as [t|] eqn:Hdue.
    + apply due_threshold_above in Hdue. rewrite orZ_Some_0. split; [lia|].
      intros Hin. apply list_elem_of_singleton in Hin. lia.
    + split; [exact HT|]. apply not_elem_of_nil.
  - destruct (run_keeps_latch _ w (handleTabChange_keeps_latch t now))
      as [Hl (outs & Hs & Hb)].
    unfold latch at 1. rewrite Hl, (emitted_of _ _ _ Hs), Hb.
    split; [exact HT|apply not_elem_of_nil].
  - assert (Hm : msg <> Some resetBreakShown).
    { intros ->. apply Hc. exists now. reflexivity. }
    destruct (run_keeps_latch _ w (onMessage_keeps_latch msg now Hm))
      as [Hl (outs & Hs & Hb)].
    unfold latch at 1. rewrite Hl, (emitted_of _ _ _ Hs), Hb.
    split; [exact HT|apply not_elem_of_nil].
  - split; [exact HT|]. unfold emitted. cbn [pushToAllTabs trigger run perform fst sent add_sent].
    rewrite drop_app_length. apply not_elem_of_nil.
Qed.

Lemma emitted_all_cons (c : callback) cs (w : world) :
  emitted_all URL_new (c :: cs) w =
  emitted (body URL_new c) w ++ emitted_all URL_new cs (fst (run (body URL_new c) w)).
Proof.
  unfold emitted_all at 1. cbn [run_all].
  destruct (run_all_extends cs (fst (run (body URL_new c) w))) as [o2 H2].
  unfold emitted_all. rewrite H2, drop_app_length.
  rewrite (sent_emitted (body URL_new c) w), <- app_assoc, drop_app_length.
  reflexivity.
Qed.

Lemma latched_run_all (cs : list callback) (w : world) T :
  Forall (fun c => ~ is_reset c) cs -> T <= latch w ->
  T ∉ breaks_shown (emitted_all URL_new cs w).
Proof.
  intros Hcs. revert w. induction Hcs as [|c cs Hc _ IH]; intros w HT.
  - unfold emitted_all. cbn [run_all]. rewrite drop_all. apply not_elem_of_nil.
  - rewrite emitted_all_cons, breaks_shown_app.
    destruct (latched_callback c w T Hc HT) as [H1 H2].
    intros Hin. apply elem_of_app in Hin as [Hin|Hin]; [exact (H2 Hin)|].
    exact (IH _ H1 Hin).
Qed.

(** C2, as amended: a tick shows at most one break.  While a productive
    session is open it shows exactly the first threshold of [4h, 3h, 2h]
    that the effective productive duration has reached and the latch is
    below, and sets the latch to it; with no open session it shows none.
    Once the latch is at or above [T], nothing shows [T] again before a
    [resetBreakShown] request, which sets the latch back to 0. *)
Theorem showBreak_latched now (w : world) :
  let outs := emitted (periodicChecks now) w in
  let w' := fst (run (periodicChecks now) w) in
  (length (breaks_shown outs) <= 1)%nat
  /\ (truthyZ (productiveSessionStart (mem w)) = true ->
      forall T, T ∈ breaks_shown outs <->
                first_due (effective_duration now (mem w)) (latch w) checked_thresholds T)
  /\ (truthyZ (productiveSessionStart (mem w)) = false ->
      breaks_shown outs = [] /\ latch w' = latch w)
  /\ (forall T, T ∈ breaks_shown outs -> latch w' = T)
  /\ (breaks_shown outs = [] -> latch w' = latch w)
  /\ (forall T cs, T <= latch w -> Forall (fun c => ~ is_reset c) cs ->
                   T ∉ breaks_shown (emitted_all URL_new cs w))
  /\ (forall now', latch (fst (run (onMessage URL_new (Some resetBreakShown) now') w)) = 0).
Proof.
  cbv zeta. destruct (tick_breaks now w) as [Hb Hl]. rewrite Hb.
  assert (Hlatch : latch (fst (run (periodicChecks now) w)) =
                   match due_threshold now w with
                   | Some t => t
                   | None => latch w
                   end).
  { unfold latch at 1. rewrite Hl. destruct (due_threshold now w); [apply orZ_Some_0|].
    reflexivity. }
  rewrite Hlatch. clear Hb Hl Hlatch. repeat split.
  - destruct (due_threshold now w); simpl; lia.
  - intros Hin. unfold due_threshold in Hin. rewrite H in Hin.
    apply find_due_first. destruct (find _ _) as [t|]; [|inversion Hin].
    apply list_elem_of_singleton in Hin. congruence.
  - intros HT. apply find_due_first in HT. unfold due_threshold. rewrite H, HT.
    apply list_elem_of_singleton. reflexivity.
  - unfold due_threshold. rewrite H. reflexivity.
  - unfold due_threshold. rewrite H. reflexivity.
  - intros T HT. destruct (due_threshold now w) as [t|]; [|inversion HT].
    apply list_elem_of_singleton in HT. congruence.
  - intros Hnone. destruct (due_threshold now w); [discriminate|reflexivity].
  - intros T cs HT Hcs. apply latched_run_all; assumption.
Qed.

(** *** Overlapping requests *)

Lemma advance_addDomainTime d deltaMs now (w : world) :
  truthyS (Some d) = true -> 0 < orZ deltaMs 0 ->
  advance (addDomainTime_handler URL_new (Some d) deltaMs now) w =
  (w, add_reading URL_new d (orZ deltaMs 0) now).
Proof.
  intros Hd Hn. unfold addDomainTime_handler.
  rewrite Hd. replace (orZ deltaMs 0 <=? 0) with false by (symmetry; apply Z.leb_gt; lia).
  reflexivity.
Qed.

Lemma resume_add_reading d delta now (w : world) :
  resume (add_reading URL_new d delta now) w =
  (w, add_classifying URL_new d delta now (local w)).
Proof. reflexivity. Qed.

Lemma resume_add_classifying d delta now snapshot (w : world) :
  resume (add_classifying URL_new d delta now snapshot) w =
  (w, add_writing URL_new d delta now snapshot (sync_categoryMap w)).
Proof.
  unfold add_writing, add_classifying, add_reading, addDomainTime_store.
  cbn [resume advance catch bind trigger perform loadPrefs awaited snd holding local
       sync_categoryMap prefs_categoryMap lift].
  rewrite !getCategoryForUrl_value. reflexivity.
Qed.

Lemma resume_add_writing d delta now snapshot cm (w : world) :
  resume (add_writing URL_new d delta now snapshot cm) w =
  (add_sent (Respond (ok true))
     (set_local (set_domainStats (<[d := add_entry URL_new d delta now snapshot cm]>
                                    (stats snapshot)) (local w)) w),
   Ret tt).
Proof.
  unfold add_writing, add_classifying, add_reading, addDomainTime_store.
  cbn [resume advance catch bind trigger perform loadPrefs awaited snd holding local
       sync_categoryMap prefs_categoryMap lift].
  rewrite !getCategoryForUrl_value. reflexivity.
Qed.

Lemma advance_saveDomainTime d cat delta (w : world) :
  truthyS (Some d) = true ->
  advance (saveDomainTime (Some d) cat delta) w = (w, save_reading d cat delta).
Proof.
  intros Hd. unfold save_reading, saveDomainTime. rewrite Hd. reflexivity.
Qed.

Lemma resume_save_reading d cat delta (w : world) :
  truthyS (Some d) = true ->
  resume (save_reading d cat delta) w = (w, save_writing d cat delta (local w)).
Proof.
  intros Hd. unfold save_writing, save_reading, saveDomainTime. rewrite Hd. reflexivity.
Qed.

Lemma resume_save_writing d cat delta snapshot (w : world) :
  truthyS (Some d) = true ->
  resume (save_writing d cat delta snapshot) w =
  (save_written d cat delta snapshot w, Ret tt).
Proof.
  intros Hd. unfold save_writing, save_reading, saveDomainTime. rewrite Hd. reflexivity.
Qed.

Lemma resume_stage d k s (w : world) :
  truthyS (Some d) = true ->
  resume (stage_proc URL_new d k s) w =
  (fst (stage_step URL_new d k s w),
   stage_proc URL_new d k (snd (stage_step URL_new d k s w))).
Proof.
  intros Hd. destruct k, s; cbn [stage_proc stage_step fst snd];
    first [ apply resume_add_reading
          | apply resume_add_classifying
          | apply resume_add_writing
          | apply resume_save_reading, Hd
          | apply resume_save_writing, Hd
          | reflexivity ].
Qed.

Lemma interleave_stages d k1 k2 sched (w : world) s1 s2 :
  truthyS (Some d) = true ->
  interleave (map pick sched)
    (w, [stage_proc URL_new d k1 s1; stage_proc URL_new d k2 s2]) =
  let '(w', s1', s2') := stages_run URL_new d k1 k2 sched (w, s1, s2) in
  (w', [stage_proc URL_new d k1 s1'; stage_proc URL_new d k2 s2']).
Proof.
  intros Hd. revert w s1 s2.
  induction sched as [|b sched IH]; intros w s1 s2; [reflexivity|].
  unfold interleave in *. cbn [map fold_left stages_run].
  destruct b; cbn [pick step]; cbn [lookup list_lookup]; rewrite resume_stage by exact Hd;
    cbn [insert list_insert]; rewrite IH;
    destruct (stage_step _ _ _ _ _) as [w' s']; reflexivity.
Qed.

Lemma step_start (p : proc unit) (w : world) pool :
  step (Start p) (w, pool) = (fst (advance p w), pool ++ [snd (advance p w)]).
Proof. cbn [step]. destruct (advance _ w). reflexivity. Qed.

Lemma advance_rmw d k (w : world) :
  truthyS (Some d) = true -> 0 < rmw_delta k ->
  advance (rmw_proc URL_new d k) w = (w, stage_proc URL_new d k Reading).
Proof.
  intros Hd Hk. destruct k as [delta now|cat delta]; cbn [rmw_proc stage_proc onMessage].
  - rewrite advance_addDomainTime by (rewrite ?orZ_Some_0; assumption).
    rewrite orZ_Some_0. reflexivity.
  - apply advance_saveDomainTime, Hd.
Qed.

Lemma race_rmw d k1 k2 sched (w : world) :
  truthyS (Some d) = true -> 0 < rmw_delta k1 -> 0 < rmw_delta k2 ->
  fst (race (rmw_proc URL_new d k1) (rmw_proc URL_new d k2) sched w) =
  fst (fst (stages_run URL_new d k1 k2 sched (w, Reading, Reading))).
Proof.
  intros Hd H1 H2. unfold race, interleave. cbn [fold_left].
  rewrite !step_start, !advance_rmw by assumption. cbn [app fst snd].
  pose proof (interleave_stages d k1 k2 sched w Reading Reading Hd) as H.
  unfold interleave in H. rewrite H.
  destruct (stages_run _ _ _ _ _ _) as [[w' s1'] s2']. reflexivity.
Qed.

Lemma time_of_default (l : local_storage) d :
  orZ (time (default blank_entry (stats l !! d))) 0 = time_of l d.
Proof. unfold time_of. destruct (stats l !! d); reflexivity. Qed.

Lemma time_of_add_written d delta now snapshot cm (w : world) :
  time_of (local (add_written URL_new d delta now snapshot cm w)) d =
  time_of snapshot d + delta.
Proof.
  unfold add_written, time_of at 1, stats at 1.
  cbn [local add_sent set_local set_domainStats domainStats from_option id].
  rewrite lookup_insert_eq. cbn [mbind option_bind add_entry fill_category time add_time].
  rewrite orZ_Some_0, time_of_default. reflexivity.
Qed.

Lemma time_of_save_written d cat delta snapshot (w : world) :
  time_of (local (save_written d cat delta snapshot w)) d = time_of snapshot d + delta.
Proof.
  unfold save_written, time_of at 1, stats at 1.
  cbn [local set_local set_domainStats domainStats from_option id].
  rewrite lookup_insert_eq. cbn [mbind option_bind save_entry save_time time].
  rewrite orZ_Some_0. unfold time_of. destruct (stats snapshot !! d); reflexivity.
Qed.

Lemma steps_of_length sched :
  (steps_of false sched + steps_of true sched = length sched)%nat.
Proof.
  unfold steps_of. induction sched as [|[] sched IH]; [reflexivity| |].
  - rewrite (filter_cons_False _ true) by discriminate.
    rewrite (filter_cons_True _ true) by reflexivity. simpl. lia.
  - rewrite (filter_cons_True _ false) by reflexivity.
    rewrite (filter_cons_False _ false) by discriminate. simpl. lia.
Qed.

Ltac evaluate_schedule :=
  repeat match goal with
         | |- context [serialized ?l] =>
             let v := eval vm_compute in (serialized l) in change (serialized l) with v
         | |- context [last ?l] =>
             let v := eval vm_compute in (last l) in change (last l) with v
         end.

Ltac settle_schedule :=
  cbn [stages_run stage_step fst snd];
  rewrite ?time_of_add_written, ?time_of_save_written;
  rewrite ?time_of_add_written, ?time_of_save_written;
  evaluate_schedule; cbn [from_option id rmw_delta]; lia.

(** C3, as amended: two read-modify-write sequences on the entry of one
    domain (accepted [addDomainTime] requests, or the [saveDomainTime] calls
    of focus changes) whose awaits interleave in any order.  When one
    sequence reads [domainStats] after the other has written it, the
    persisted time ends as the prior value plus both deltas; in every other
    order the sequence that writes last has read the prior value, and the
    persisted time ends as the prior value plus its delta alone. *)
Theorem domainStats_race d (k1 k2 : rmw) (sched : list bool) (w : world) :
  truthyS (Some d) = true -> 0 < rmw_delta k1 -> 0 < rmw_delta k2 ->
  steps_of false sched = awaits k1 -> steps_of true sched = awaits k2 ->
  let final := fst (race (rmw_proc URL_new d k1) (rmw_proc URL_new d k2) sched w) in
  time_of (local final) d =
  if serialized sched then time_of (local w) d + rmw_delta k1 + rmw_delta k2
  else time_of (local w) d +
       (if default false (last sched) then rmw_delta k2 else rmw_delta k1).
Proof.
  intros Hd H1 H2 Hf Ht. cbv zeta. rewrite race_rmw by assumption.
  pose proof (steps_of_length sched) as Hlen. rewrite Hf, Ht in Hlen.
  destruct k1 as [delta1 now1|cat1 delta1], k2 as [delta2 now2|cat2 delta2];
    cbn [awaits] in Hf, Ht, Hlen; cbn [rmw_delta] in H1, H2.
  - destruct sched as [|b1 [|b2 [|b3 [|b4 [|b5 [|b6 [|b7 rest]]]]]]];
      try discriminate Hlen.
    destruct b1, b2, b3, b4, b5, b6; try discriminate Hf; try discriminate Ht;
      settle_schedule.
  - destruct sched as [|b1 [|b2 [|b3 [|b4 [|b5 [|b6 rest]]]]]]; try discriminate Hlen.
    destruct b1, b2, b3, b4, b5; try discriminate Hf; try discriminate Ht;
      settle_schedule.
  - destruct sched as [|b1 [|b2 [|b3 [|b4 [|b5 [|b6 rest]]]]]]; try discriminate Hlen.
    destruct b1, b2, b3, b4, b5; try discriminate Hf; try discriminate Ht;
      settle_schedule.
  - destruct sched as [|b1 [|b2 [|b3 [|b4 [|b5 rest]]]]]; try discriminate Hlen.
    destruct b1, b2, b3, b4; try discriminate Hf; try discriminate Ht;
      settle_schedule.
Qed.

End BackgroundFacts.

(** ** Concrete runs *)

Import Examples.


(** A storage seeded with an entry whose category is the empty string would
    have it replaced by the request; no storage the worker has written is
    like that ([StoredFacts.spotless_kept] below). *)
Lemma addDomainTime_fills_empty_category :
  let w := one_entry {| time := Some 5; category := Some ""; lastActive := Some 0 |} in
  let w' := fst (run (onMessage simple_URL
                        (Some (addDomainTime (Some "x.com") (Some 1000))) 9) w) in
  category <$> stats (local w) !! "x.com" = Some (Some "")
  /\ category <$> stats (local w') !! "x.com" = Some (Some "other").
Proof. split; vm_compute; reflexivity. Qed.

Lemma loadDomainInfo_reset_gap_witness :
  Content.baseDomainTimeMs
    (Content.loadDomainInfo_callback (100 + 31 * 60 * 1000)
       (Some {| Content.resp_time := Some 5000; Content.resp_category := Some "social";
                Content.resp_lastActive := Some 100 |}) idle_activity) = 0
  /\ Content.baseDomainTimeMs
       (Content.loadDomainInfo_callback (100 + 29 * 60 * 1000)
          (Some {| Content.resp_time := Some 5000; Content.resp_category := Some "social";
                   Content.resp_lastActive := Some 100 |}) idle_activity) = 5000.
Proof.
  pose (e := {| time := Some 5000; category := Some "social"; lastActive := Some 100 |}).
  split.
  - destruct (loadDomainInfo_reset_gap simple_URL "x.com" 0 (100 + 31 * 60 * 1000)
                (one_entry e) idle_activity)
      as (t & c & last & Hs & _ & _ & _ & _ & _ & H31 & _).
    vm_compute in Hs. injection Hs as <- <- <-. exact (H31 eq_refl).
  - destruct (loadDomainInfo_reset_gap simple_URL "x.com" 0 (100 + 29 * 60 * 1000)
                (one_entry e) idle_activity)
      as (t & c & last & Hs & _ & _ & _ & _ & _ & _ & H29).
    vm_compute in Hs. injection Hs as <- <- <-. exact (H29 eq_refl).
Defined.

Lemma showBreak_latched_witness :
  hours 2 ∈ breaks_shown (emitted (periodicChecks (1000 + hours 2 + minutes 1))
                            (working (Some 1000) 0))
  /\ breaks_shown (emitted (periodicChecks (1000 + hours 2 + minutes 1))
                     (working None (hours 3))) = [].
Proof.
  pose proof (showBreak_latched simple_URL (1000 + hours 2 + minutes 1)
                (working (Some 1000) 0)) as (_ & Hopen & _).
  pose proof (showBreak_latched simple_URL (1000 + hours 2 + minutes 1)
                (working None (hours 3))) as (_ & _ & Hclosed & _).
  split.
  - apply (proj2 (Hopen eq_refl (hours 2))). apply find_due_first. reflexivity.
  - apply (Hclosed eq_refl).
Defined.

(** C2 as worded fails once the productive session is closed: with three
    hours accumulated and the latch at 0, the effective duration of the
    design document has reached the 3 h threshold, and the tick shows
    nothing. *)
Lemma showBreak_not_without_session :
  let w := working None (hours 3) in
  let now := 1000 + hours 5 in
  first_due (effective_duration now (mem w)) (latch w) checked_thresholds (hours 3)
  /\ breaks_shown (emitted (periodicChecks now) w) = [].
Proof.
  split; [|vm_compute; reflexivity].
  apply find_due_first. reflexivity.
Qed.

Lemma getBackToWork_fires_when_due_witness :
  let w' := fst (run (periodicChecks (1000 + minutes 15)) (distracted 1000)) in
  distractingStart (mem w') = None
  /\ nudges (emitted_all simple_URL
               [Tick (1000 + minutes 15 + 30000); Message (Some getSummary) 0;
                Tick (1000 + minutes 16)] w') = [].
Proof.
  cbv zeta.
  destruct (getBackToWork_fires_when_due simple_URL (1000 + minutes 15) (distracted 1000))
    as [Hiff Hafter].
  assert (Hfired : nudges (emitted (periodicChecks (1000 + minutes 15)) (distracted 1000))
                   <> []).
  { apply Hiff. exists 1000. split; [reflexivity|]. split; [discriminate|].
    unfold GET_BACK_THRESHOLD, minutes. lia. }
  destruct (Hafter Hfired) as [Hclear Hquiet]. split; [exact Hclear|].
  apply Hquiet. repeat constructor; intros (t & now & H); discriminate.
Defined.

Lemma distracting_interval_keeps_accumulated_witness :
  let w' := fst (run (handleTabChange simple_URL None 5000) (distracted 1000)) in
  productiveSessionStart (mem w') = None /\ productiveAccumulated (mem w') = 7000.
Proof.
  apply (distracting_interval_keeps_accumulated simple_URL None 5000 (distracted 1000)
           "social").
  - reflexivity.
  - discriminate.
  - reflexivity.
  - left. reflexivity.
Defined.

Lemma domainStats_race_witness :
  time_of (local (fst (race (rmw_proc simple_URL "x.com" (Add 1000 7))
                         (rmw_proc simple_URL "x.com" (Save (Some "social") 2000))
                         [false; false; false; true; true] (one_entry five_seconds))))
    "x.com" = 5000 + 1000 + 2000
  /\ time_of (local (fst (race (rmw_proc simple_URL "x.com" (Add 1000 7))
                            (rmw_proc simple_URL "x.com" (Add 2000 8))
                            [false; true; true; true; false; false]
                            (one_entry five_seconds))))
       "x.com" = 5000 + 1000.
Proof.
  split.
  - apply (domainStats_race simple_URL "x.com" (Add 1000 7) (Save (Some "social") 2000)
             [false; false; false; true; true] (one_entry five_seconds));
      reflexivity.
  - apply (domainStats_race simple_URL "x.com" (Add 1000 7) (Add 2000 8)
             [false; true; true; true; false; false] (one_entry five_seconds));
      reflexivity.
Defined.

(** C3 as worded fails on the code.  Two [addDomainTime] requests, of 1000
    and 2000 ms, whose reads both come before either write: the later write
    replaces the earlier one, and the persisted time ends as 5000 + 2000,
    not 5000 + 1000 + 2000.  Two focus changes away from [x.com], 1000 and
    2000 ms after the interval began, that overlap in the same way lose the
    first delta as well. *)
Lemma domainStats_lost_update :
  let add1 := body simple_URL (Message (Some (addDomainTime (Some "x.com") (Some 1000))) 7) in
  let add2 := body simple_URL (Message (Some (addDomainTime (Some "x.com") (Some 2000))) 8) in
  let after_adds :=
    fst (race add1 add2 [false; true; false; false; true; true] (one_entry five_seconds)) in
  let after_changes :=
    fst (race (body simple_URL (FocusChange None 2000))
           (body simple_URL (FocusChange None 3000))
           [false; true; false; true; false; true] (browsing 1000 five_seconds)) in
  (time_of (local (one_entry five_seconds)) "x.com" = 5000
   /\ time_of (local after_adds) "x.com" = 5000 + 2000
   /\ time_of (local after_adds) "x.com" <> 5000 + 1000 + 2000)
  /\ (time_of (local (browsing 1000 five_seconds)) "x.com" = 5000
      /\ time_of (local after_changes) "x.com" = 5000 + (3000 - 1000)
      /\ time_of (local after_changes) "x.com" <> 5000 + (2000 - 1000) + (3000 - 1000)).
Proof. repeat split; vm_compute; congruence. Qed.

(** ** The break banner *)

(** [startBreak] clears no timer: it only adds the pre-start interval of the
    new banner. *)
Lemma startBreak_timers (durationMs : Z) (p : Content.page) :
  Content.timers (Content.startBreak durationMs p) =
  <[Content.next_timer p :=
      Content.preInterval (Content.next_banner p) durationMs 3]> (Content.timers p).
Proof. reflexivity. Qed.

Lemma startBreak_cancels_nothing (durationMs : Z) (p : Content.page) id c :
  Content.timers p !! id = Some c ->
  id <> Content.next_timer p ->
  Content.timers (Content.startBreak durationMs p) !! id = Some c.
Proof.
  intros Hc Hid. rewrite startBreak_timers, lookup_insert_ne by congruence. exact Hc.
Qed.

(** A timer callback writes to the banner its closure captured and to no
    other: a stale tick cannot change what the new banner shows. *)
Lemma fire_touches_own_banner (id : nat) (p : Content.page) c b' :
  Content.timers p !! id = Some c ->
  b' <> Content.closure_banner c ->
  Content.banners (Content.fire id p) !! b' = Content.banners p !! b'.
Proof.
  intros Hc Hb. unfold Content.fire. rewrite Hc.
  destruct c as [b d n|b r|b n|b|b|b]; cbn [Content.closure_banner] in Hb.
  - destruct (n - 1 <=? 0); cbn; rewrite ?lookup_alter_ne by congruence; reflexivity.
  - destruct (Content.content <$> Content.banners p !! b) as [[]|];
      destruct (r - 1 <=? 0); cbn; rewrite ?lookup_alter_ne by congruence; reflexivity.
  - destruct (n - 1 <=? 0); cbn; rewrite ?lookup_alter_ne by congruence; reflexivity.
  - cbn. rewrite lookup_alter_ne by congruence. reflexivity.
  - reflexivity.
  - cbn. rewrite lookup_alter_ne by congruence. reflexivity.
Qed.

(** C1 fails on the code: a [startBreak] message that arrives while the
    break the user chose is still in its pre-start countdown removes the
    first banner from the page but leaves its interval timer pending.  The
    superseded timer goes on firing, announces the break of the superseded
    instance, and two countdowns run side by side. *)
Theorem startBreak_leaves_old_countdown_running :
  let p2 := Content.happen_all
              [Content.ChooseBreak 60000; Content.ReceiveStartBreak (Some 120000)]
              Content.initial in
  let p3 := Content.happen_all
              [Content.Fire 0; Content.Fire 1; Content.Fire 0; Content.Fire 1;
               Content.Fire 0; Content.Fire 1]%nat p2 in
  Content.attached p2 = [1%nat]
  /\ Content.timers p2 !! 0%nat = Some (Content.preInterval 0 60000 3)
  /\ ~ Content.only_instance 1 p2
  /\ length (Content.countdowns p2) = 2%nat
  /\ Content.outbox p3 = [Content.startBreakGlobal 60000; Content.startBreakGlobal 120000]
  /\ Content.countdowns p3 = [(2%nat, Content.interval 0 60); (3%nat, Content.interval 1 120)].
Proof.
  cbv zeta. split; [reflexivity|]. split; [reflexivity|]. split.
  - intros H. specialize (H 0%nat (Content.preInterval 0 60000 3) eq_refl). discriminate H.
  - repeat split; vm_compute; reflexivity.
Qed.

(** * More of the worker: storage accounting, focus changes, lifecycle *)

Import Worker.

Ltac frame_step :=
  lazymatch goal with
  | |- only _ (bind _ _) => apply only_bind
  | |- only _ (catch _ _) => apply only_catch
  | |- only _ (trigger _) => apply only_trigger
  | |- only _ (lift _) => apply only_lift
  | |- only _ (Ret _) => constructor
  | |- only _ (Raise _) => constructor
  | |- only _ (if ?b then _ else _) => destruct b
  | |- only _ (match ?x with _ => _ end) => destruct x
  | |- forall _, _ => intro
  | |- only _ loadPrefs => unfold loadPrefs
  | |- only _ (sendResponse _) => unfold sendResponse
  | |- only _ (pushToAllTabs _) => unfold pushToAllTabs
  | |- only _ (saveDomainTime _ _ _) => unfold saveDomainTime
  | |- only _ (detached _) => unfold detached
  | |- only _ (handleTabChange _ _ _) => unfold handleTabChange
  end.

Ltac frame_solve := repeat frame_step; try (cbn; intros; auto; fail).

Lemma run_keeps_stats {A} (p : proc A) (w : world) :
  only keeps_stats p -> domainStats (local (fst (run p w))) = domainStats (local w).
Proof.
  intros Hp. revert w.
  apply (run_only keeps_stats
           (fun w w' => domainStats (local w') = domainStats (local w)) p); auto.
  - intros w1 w2 w3 H1 H2. congruence.
  - intros X e w He. destruct e; cbn [keeps_stats] in He;
      cbn [perform fst local set_local set_mem add_sent]; first [apply He | reflexivity].
Qed.

Lemma run_keeps_streaks {A} (p : proc A) (w : world) :
  only keeps_streaks p -> streaks (fst (run p w)) = streaks w.
Proof.
  intros Hp. revert w.
  apply (run_only keeps_streaks (fun w w' => streaks w' = streaks w) p); auto.
  - intros w1 w2 w3 H1 H2. congruence.
  - intros X e w He. unfold streaks. destruct e; cbn [keeps_streaks] in He;
      cbn [perform fst mem set_local set_mem add_sent]; try reflexivity.
    destruct (He (mem w)) as (-> & -> & ->). reflexivity.
Qed.

Lemma run_keeps_active {A} (p : proc A) (w : world) :
  only keeps_active p -> active (fst (run p w)) = active w.
Proof.
  intros Hp. revert w.
  apply (run_only keeps_active (fun w w' => active w' = active w) p); auto.
  - intros w1 w2 w3 H1 H2. congruence.
  - intros X e w He. unfold active. destruct e; cbn [keeps_active] in He;
      cbn [perform fst mem set_local set_mem add_sent]; try reflexivity.
    destruct (He (mem w)) as (-> & -> & -> & ->). reflexivity.
Qed.

Lemma run_keeps_local {A} (p : proc A) (w : world) :
  only keeps_local p -> local (fst (run p w)) = local w.
Proof.
  intros Hp. revert w.
  apply (run_only keeps_local (fun w w' => local w' = local w) p); auto.
  - intros w1 w2 w3 H1 H2. congruence.
  - intros X e w He. destruct e; cbn [keeps_local] in He;
      cbn [perform fst local set_local set_mem add_sent]; first [contradiction | reflexivity].
Qed.

Lemma run_keeps_mem {A} (p : proc A) (w : world) :
  only keeps_mem p -> mem (fst (run p w)) = mem w.
Proof.
  intros Hp. revert w.
  apply (run_only keeps_mem (fun w w' => mem w' = mem w) p); auto.
  - intros w1 w2 w3 H1 H2. congruence.
  - intros X e w He. destruct e; cbn [keeps_mem] in He;
      cbn [perform fst mem set_local set_mem add_sent]; first [contradiction | reflexivity].
Qed.

Lemma time_of_stats (l : local_storage) d :
  time_of l d = orZ (stats l !! d ≫= time) 0.
Proof. reflexivity. Qed.

Lemma time_of_domainStats (l l' : local_storage) d :
  domainStats l' = domainStats l -> time_of l' d = time_of l d.
Proof. intros H. unfold time_of, stats. rewrite H. reflexivity. Qed.

Lemma orZ_0_r (o : option Z) n : orZ (Some (orZ o 0 + n)) 0 = orZ o 0 + n.
Proof. apply orZ_Some_0. Qed.

(** The closed form of [saveDomainTime] for a domain that is not empty. *)
Lemma run_saveDomainTime d cat delta (w : world) :
  truthyS (Some d) = true ->
  run (saveDomainTime (Some d) cat delta) w =
  (set_local
     (set_domainStats
        (<[d := save_time cat delta
                  (default {| time := Some 0; category := orS cat (Some "other");
                              lastActive := None |} (stats (local w) !! d))]>
           (stats (local w)))
        (local w)) w,
   Normal tt).
Proof. intros Hd. unfold saveDomainTime. rewrite Hd. reflexivity. Qed.

Lemma stats_set_domainStats m l : stats (set_domainStats m l) = m.
Proof. reflexivity. Qed.

Section WorkerFacts.
Variable URL_new : string -> option URL.

(** X1: [saveDomainTime] with an empty or absent domain changes nothing.
    For any other domain it adds [deltaMs] to the domain's persisted time
    (creating the entry at 0), leaves [lastActive] and every other domain,
    storage key and variable as they were, and sends nothing; the entry's
    category becomes the given one when that is set, and otherwise stays
    (["other"] for a new entry). *)
Theorem saveDomainTime_accounts domain cat delta (w : world) :
  let w' := fst (run (saveDomainTime domain cat delta) w) in
  (truthyS domain = false -> w' = w)
  /\ (forall d, domain = Some d -> d <> EmptyString ->
      time_of (local w') d = time_of (local w) d + delta
      /\ (forall d', d' <> d -> stats (local w') !! d' = stats (local w) !! d')
      /\ stats (local w') !! d ≫= lastActive = stats (local w) !! d ≫= lastActive
      /\ (truthyS cat = true -> stats (local w') !! d ≫= category = cat)
      /\ (truthyS cat = false ->
          stats (local w') !! d ≫= category =
          match stats (local w) !! d with
          | Some e => category e
          | None => Some "other"
          end)
      /\ mem w' = mem w /\ sent w' = sent w
      /\ stored_productiveAccumulated (local w') = stored_productiveAccumulated (local w)
      /\ lastShownBreakThreshold (local w') = lastShownBreakThreshold (local w)
      /\ stored_categoryMap (local w') = stored_categoryMap (local w)).
Proof.
  cbv zeta. split.
  - intros Hd. unfold saveDomainTime. destruct domain as [d|]; [|reflexivity].
    rewrite Hd. reflexivity.
  - intros d -> Hd.
    assert (Ht : truthyS (Some d) = true) by (destruct d; [congruence|reflexivity]).
    rewrite (run_saveDomainTime d cat delta w Ht). cbn [fst].
    cbn [set_local local mem sent set_domainStats stored_productiveAccumulated
         lastShownBreakThreshold stored_categoryMap].
    unfold time_of. rewrite !stats_set_domainStats, lookup_insert_eq.
    repeat split.
    + cbn [mbind option_bind save_time time]. rewrite orZ_Some_0.
      destruct (stats (local w) !! d) as [e|]; reflexivity.
    + intros d' Hne. apply lookup_insert_ne. congruence.
    + destruct (stats (local w) !! d) as [e|]; reflexivity.
    + intros Hc. cbn [mbind option_bind save_time category]. unfold orS. rewrite Hc.
      reflexivity.
    + intros Hc. cbn [mbind option_bind save_time category]. unfold orS. rewrite Hc.
      destruct (stats (local w) !! d) as [e|]; [reflexivity|].
      reflexivity.
Qed.

Lemma run_getDomainTime_emitted d now (w : world) :
  emitted (onMessage URL_new (Some (getDomainTime (Some d))) now) w =
  [Respond
     (let e := default blank_entry (stats (local w) !! d) in
      domainTime (orZ (time e) 0) (orS (category e) None) (orZ (lastActive e) 0))].
Proof.
  apply emitted_of. cbn [onMessage]. rewrite run_getDomainTime. reflexivity.
Qed.

(** X2: after an accepted [addDomainTime] request for a domain, the answer
    to [getDomainTime] for it carries the time persisted before plus the
    delta, and the time of the request as [lastActive]; its category is the
    one the entry had when that was set, and otherwise the classification
    of [https://<domain>]. *)
Theorem addDomainTime_then_getDomainTime d deltaMs now later (w : world) :
  d <> EmptyString -> 0 < orZ deltaMs 0 ->
  let w1 := fst (run (onMessage URL_new (Some (addDomainTime (Some d) deltaMs)) now) w) in
  exists c,
    emitted (onMessage URL_new (Some (getDomainTime (Some d))) later) w1 =
    [Respond (domainTime (time_of (local w) d + orZ deltaMs 0) c now)]
    /\ (forall c0, stats (local w) !! d ≫= category = Some c0 -> c0 <> EmptyString ->
        c = Some c0)
    /\ (truthyS (stats (local w) !! d ≫= category) = false ->
        domain_category URL_new w d <> EmptyString ->
        c = Some (domain_category URL_new w d)).
Proof.
  intros Hd Hn. cbv zeta.
  assert (Ht : truthyS (Some d) = true) by (destruct d; [congruence|reflexivity]).
  cbn [onMessage]. rewrite (run_addDomainTime_accepted URL_new d deltaMs now w Ht Hn).
  cbn [fst]. fold (onMessage URL_new (Some (getDomainTime (Some d))) later).
  rewrite run_getDomainTime_emitted.
  cbn [add_sent set_local local]. rewrite stats_set_domainStats, lookup_insert_eq.
  cbn [from_option id fill_category add_time time category lastActive].
  rewrite !orZ_Some_0.
  exists (orS (orS (category (default blank_entry (stats (local w) !! d)))
                 (Some (domain_category URL_new w d))) None).
  split.
  { replace (time_of (local w) d)
      with (orZ (time (default blank_entry (stats (local w) !! d))) 0); [reflexivity|].
    unfold time_of. destruct (stats (local w) !! d); reflexivity. }
  split.
  - intros c0 Hc Hne. destruct (stats (local w) !! d) as [e|]; [|discriminate].
    cbn [mbind option_bind from_option id] in *. rewrite Hc.
    unfold orS. destruct c0; [congruence|reflexivity].
  - intros Hc Hne. destruct (stats (local w) !! d) as [e|];
      cbn [mbind option_bind from_option id blank_entry category] in *.
    + unfold orS at 2. rewrite Hc. unfold orS.
      destruct (domain_category URL_new w d); [congruence|reflexivity].
    + unfold orS. cbn [truthyS].
      destruct (domain_category URL_new w d); [congruence|reflexivity].
Qed.

(** *** Persisted time over a trace *)

Lemma check_thresholds_keeps_stats duration lastShown ts :
  only keeps_stats (check_thresholds duration lastShown ts).
Proof. induction ts; cbn [check_thresholds]; frame_solve. Qed.

Lemma check_thresholds_keeps_active duration lastShown ts :
  only keeps_active (check_thresholds duration lastShown ts).
Proof. induction ts; cbn [check_thresholds]; frame_solve. Qed.

Lemma tick_keeps_stats now : only keeps_stats (periodicChecks now).
Proof.
  unfold periodicChecks, check_productive, check_distracting, persist_accumulated.
  frame_solve. apply check_thresholds_keeps_stats.
Qed.

Lemma tick_keeps_active now : only keeps_active (periodicChecks now).
Proof.
  unfold periodicChecks, check_productive, check_distracting, persist_accumulated.
  frame_solve. apply check_thresholds_keeps_active.
Qed.

Lemma onMessage_keeps_active msg now : only keeps_active (onMessage URL_new msg now).
Proof.
  unfold onMessage, addDomainTime_handler, addDomainTime_store, getDomainTime_handler.
  frame_solve.
Qed.

Lemma onMessage_keeps_mem msg now : only keeps_mem (onMessage URL_new msg now).
Proof.
  unfold onMessage, addDomainTime_handler, addDomainTime_store, getDomainTime_handler.
  frame_solve.
Qed.

Lemma open_interval_keeps_local t now : only keeps_local (open_interval URL_new t now).
Proof. unfold open_interval. frame_solve. Qed.

Lemma open_interval_keeps_streaks t now : only keeps_streaks (open_interval URL_new t now).
Proof. unfold open_interval. frame_solve. Qed.

(** What a request other than [addDomainTime] leaves alone. *)
Lemma other_request_keeps_stats msg now :
  (forall domain deltaMs, msg <> Some (addDomainTime domain deltaMs)) ->
  only keeps_stats (onMessage URL_new msg now).
Proof.
  intros Hm. destruct msg as [[| | | | | | |]|]; cbn [onMessage];
    try (unfold getDomainTime_handler; frame_solve).
  exfalso. eapply Hm. reflexivity.
Qed.

Lemma time_of_insert m l d (e : entry) d' :
  time_of (set_domainStats (<[d := e]> m) l) d' =
  if bool_decide (d = d') then orZ (time e) 0 else orZ (m !! d' ≫= time) 0.
Proof.
  unfold time_of. rewrite stats_set_domainStats. case_bool_decide as Hd.
  - subst. rewrite lookup_insert_eq. reflexivity.
  - rewrite lookup_insert_ne by exact Hd. reflexivity.
Qed.

Lemma credited_callback (c : callback) (w : world) d :
  ~ is_focus_change c ->
  time_of (local (fst (run (body URL_new c) w))) d = time_of (local w) d + credited d c.
Proof.
  intros Hc. destruct c as [now|t now|msg now|state]; cbn [body].
  - cbn [credited]. rewrite Z.add_0_r.
    apply time_of_domainStats, run_keeps_stats, tick_keeps_stats.
  - exfalso. apply Hc. exists t, now. reflexivity.
  - destruct msg as [[| url | domain deltaMs | domain | | durationMs | |]|];
      try (cbn [credited]; rewrite Z.add_0_r;
           apply time_of_domainStats, run_keeps_stats, other_request_keeps_stats;
           intros; discriminate).
    cbn [onMessage].
    destruct (decide (truthyS domain = true /\ 0 < orZ deltaMs 0)) as [[Hd Hn]|Hno].
    + destruct domain as [d0|]; [|discriminate].
      rewrite (run_addDomainTime_accepted URL_new d0 deltaMs now w Hd Hn).
      cbn [fst add_sent local set_local credited]. rewrite time_of_insert, Hd.
      replace (0 <? orZ deltaMs 0) with true by (symmetry; apply Z.ltb_lt; exact Hn).
      rewrite !andb_true_r.
      cbn [fill_category add_time time]. rewrite orZ_Some_0.
      case_bool_decide as Heq.
      * subst d0. unfold time_of. destruct (stats (local w) !! d); reflexivity.
      * rewrite Z.add_0_r. reflexivity.
    + rewrite run_addDomainTime_rejected.
      * cbn [fst add_sent local].
        replace (credited d (Message (Some (addDomainTime domain deltaMs)) now)) with 0;
          [lia|].
        cbn [credited]. destruct domain as [d0|]; [|reflexivity].
        destruct (bool_decide (d0 = d) && truthyS (Some d0) && (0 <? orZ deltaMs 0)) eqn:Hb;
          [|reflexivity].
        apply andb_true_iff in Hb as [Hb1 Hb2]. apply andb_true_iff in Hb1 as [_ Hb1].
        apply Z.ltb_lt in Hb2. exfalso. apply Hno. auto.
      * destruct (truthyS domain); [right|left; reflexivity].
        destruct (Z.lt_ge_cases 0 (orZ deltaMs 0)); [exfalso; apply Hno; auto|lia].
  - cbn [credited]. rewrite Z.add_0_r. reflexivity.
Qed.

Lemma active_callback (c : callback) (w : world) :
  ~ is_focus_change c -> active (fst (run (body URL_new c) w)) = active w.
Proof.
  intros Hc. destruct c as [now|t now|msg now|state]; cbn [body].
  - apply run_keeps_active, tick_keeps_active.
  - exfalso. apply Hc. exists t, now. reflexivity.
  - apply run_keeps_active, onMessage_keeps_active.
  - reflexivity.
Qed.

Lemma active_run_all (cs : list callback) (w : world) :
  Forall (fun c => ~ is_focus_change c) cs -> active (run_all URL_new cs w) = active w.
Proof.
  intros Hcs. revert w. induction Hcs as [|c cs Hc _ IH]; intros w; cbn [run_all].
  - reflexivity.
  - rewrite IH. apply active_callback, Hc.
Qed.

Lemma time_run_all d (cs : list callback) (w : world) :
  Forall (fun c => ~ is_focus_change c) cs ->
  time_of (local (run_all URL_new cs w)) d = time_of (local w) d + credited_all d cs.
Proof.
  intros Hcs. revert w. induction Hcs as [|c cs Hc _ IH]; intros w;
    cbn [run_all credited_all foldr].
  - lia.
  - rewrite IH, (credited_callback c w d Hc). fold (credited_all d cs). lia.
Qed.

(** *** Focus changes in closed form *)

Lemma run_close_interval_idle now (w : world) :
  truthyS (activeDomain (mem w)) = false \/ activeStart (mem w) = 0 ->
  run (close_interval URL_new now) w = (w, Normal tt).
Proof.
  intros H. unfold close_interval. cbn [bind trigger run perform].
  destruct H as [H|H]; rewrite H; cbn [truthyZ Z.eqb negb andb]; [reflexivity|].
  destruct (truthyS (activeDomain (mem w))); reflexivity.
Qed.

Lemma run_close_interval_active now (w : world) d :
  activeDomain (mem w) = Some d -> d <> EmptyString -> activeStart (mem w) <> 0 ->
  run (close_interval URL_new now) w =
  (let cat := interval_category URL_new w in
   let delta := now - activeStart (mem w) in
   set_mem (update_streaks cat now delta (mem w))
     (set_local
        (set_domainStats
           (<[d := save_time cat delta
                     (default {| time := Some 0; category := orS cat (Some "other");
                                 lastActive := None |} (stats (local w) !! d))]>
              (stats (local w)))
           (local w)) w),
   Normal tt).
Proof.
  intros Had Hd Hs.
  assert (Ht : truthyS (Some d) = true) by (destruct d; [congruence|reflexivity]).
  unfold close_interval. cbn [bind trigger run perform].
  rewrite Had, Ht. cbn [truthyZ]. replace (activeStart (mem w) =? 0) with false
    by (symmetry; apply Z.eqb_neq; exact Hs).
  cbn [negb andb]. rewrite run_bind, run_loadPrefs. cbn [bind trigger run perform].
  rewrite run_bind.
  assert (Hcat : run (if truthyS (activeCategory (mem w))
                      then Ret (activeCategory (mem w))
                      else bind (lift (getCategoryForUrl URL_new
                                         (to_string (activeDomain (mem w)))
                                         (Some (default DEFAULT_CATEGORY_MAP
                                                  (sync_categoryMap w)))))
                                (fun c => Ret (Some c))) w
                 = (w, Normal (interval_category URL_new w))).
  { unfold interval_category. destruct (truthyS (activeCategory (mem w))); [reflexivity|].
    rewrite getCategoryForUrl_value. reflexivity. }
  cbn [prefs_categoryMap]. rewrite Had in Hcat at 1. rewrite Had, Hcat, run_bind.
  rewrite (run_saveDomainTime d _ _ w Ht). reflexivity.
Qed.

Lemma run_open_interval_none t now (w : world) :
  has_url t = false ->
  run (open_interval URL_new t now) w =
  (set_mem (set_active None None None now (mem w)) w, Normal tt).
Proof.
  intros H. unfold open_interval. destruct t as [[id [url|]]|]; try reflexivity.
  cbn [has_url tab_url] in H. rewrite H. reflexivity.
Qed.

Lemma run_open_interval_parsed id url u now (w : world) :
  truthyS (Some url) = true -> URL_new url = Some u ->
  run (open_interval URL_new (Some {| tab_id := id; tab_url := Some url |}) now) w =
  (let c := category_of URL_new url (Some (default DEFAULT_CATEGORY_MAP (sync_categoryMap w))) in
   add_sent (ToTab id (activeCategoryIs (Some c)))
     (set_mem (set_active (Some id) (Some (hostname u)) (Some c) now (mem w)) w),
   Normal tt).
Proof.
  intros Ht Hu. unfold open_interval. rewrite Ht. cbn [negb].
  rewrite run_bind. cbn [trigger run perform]. rewrite run_bind.
  unfold new_URL. rewrite Hu. cbn [lift run]. rewrite run_bind.
  cbn [trigger run perform]. rewrite run_bind, run_loadPrefs, run_bind.
  cbn [prefs_categoryMap]. rewrite getCategoryForUrl_value. reflexivity.
Qed.

Lemma run_open_interval_unparsed id url now (w : world) :
  truthyS (Some url) = true -> URL_new url = None ->
  run (open_interval URL_new (Some {| tab_id := id; tab_url := Some url |}) now) w =
  (set_mem (set_active (Some id) (activeDomain (mem w)) (activeCategory (mem w))
              (activeStart (mem w)) (mem w)) w,
   Throw "TypeError: Invalid URL").
Proof.
  intros Ht Hu. unfold open_interval. rewrite Ht. cbn [negb].
  rewrite run_bind. cbn [trigger run perform]. rewrite run_bind.
  unfold new_URL. rewrite Hu. reflexivity.
Qed.

Lemma close_interval_normal now (w : world) :
  snd (run (close_interval URL_new now) w) = Normal tt.
Proof.
  destruct (activeDomain (mem w)) as [d|] eqn:Had.
  - destruct (decide (d = EmptyString)) as [->|Hd].
    + rewrite run_close_interval_idle; [reflexivity|]. left. rewrite Had. reflexivity.
    + destruct (decide (activeStart (mem w) = 0)) as [Hs|Hs].
      * rewrite run_close_interval_idle; [reflexivity|]. right. exact Hs.
      * rewrite (run_close_interval_active now w d Had Hd Hs). reflexivity.
  - rewrite run_close_interval_idle; [reflexivity|]. left. rewrite Had. reflexivity.
Qed.

Lemma run_handleTabChange t now (w : world) :
  run (handleTabChange URL_new t now) w =
  run (open_interval URL_new t now) (fst (run (close_interval URL_new now) w)).
Proof.
  unfold handleTabChange. rewrite run_bind.
  pose proof (close_interval_normal now w) as H.
  destruct (run (close_interval URL_new now) w) as [w1 r1]. cbn [snd fst] in *. subst r1.
  reflexivity.
Qed.

Lemma close_interval_time now (w : world) d' :
  time_of (local (fst (run (close_interval URL_new now) w))) d' =
  time_of (local w) d' +
  match activeDomain (mem w) with
  | Some d => if bool_decide (d = d') && truthyS (Some d) && truthyZ (Some (activeStart (mem w)))
              then now - activeStart (mem w) else 0
  | None => 0
  end.
Proof.
  destruct (activeDomain (mem w)) as [d|] eqn:Had.
  - destruct (decide (d = EmptyString)) as [->|Hd].
    + rewrite run_close_interval_idle by (left; rewrite Had; reflexivity).
      cbn [truthyS]. rewrite andb_false_r. cbn [fst andb]. lia.
    + destruct (decide (activeStart (mem w) = 0)) as [Hs|Hs].
      * rewrite run_close_interval_idle by (right; exact Hs).
        rewrite Hs. cbn [truthyZ Z.eqb negb]. rewrite andb_false_r. cbn [fst]. lia.
      * rewrite (run_close_interval_active now w d Had Hd Hs). cbn [fst set_mem local set_local].
        rewrite time_of_insert. cbn [save_time time]. rewrite orZ_Some_0.
        replace (truthyS (Some d)) with true by (destruct d; [congruence|reflexivity]).
        replace (truthyZ (Some (activeStart (mem w)))) with true
          by (cbn [truthyZ]; symmetry; apply negb_true_iff, Z.eqb_neq; exact Hs).
        rewrite !andb_true_r. case_bool_decide as Heq.
        -- subst d'. unfold time_of. destruct (stats (local w) !! d); reflexivity.
        -- unfold time_of. lia.
  - rewrite run_close_interval_idle by (left; rewrite Had; reflexivity). cbn [fst]. lia.
Qed.

Lemma handleTabChange_time t now (w : world) d' :
  time_of (local (fst (run (handleTabChange URL_new t now) w))) d' =
  time_of (local (fst (run (close_interval URL_new now) w))) d'.
Proof.
  rewrite run_handleTabChange.
  rewrite (run_keeps_local _ _ (open_interval_keeps_local t now)). reflexivity.
Qed.

Lemma handleTabChange_mem_closed t now (w : world) :
  streaks (fst (run (handleTabChange URL_new t now) w)) =
  streaks (fst (run (close_interval URL_new now) w)).
Proof.
  rewrite run_handleTabChange.
  apply run_keeps_streaks, open_interval_keeps_streaks.
Qed.

(** Callbacks run one after the other: between two focus changes, the tab
    made active at [t1] is credited with the wall-clock time [t2 - t1] by
    the second focus change, on top of every delta its page reported
    through [addDomainTime] in between; every other domain only gets what
    was reported for it. *)
Lemma focus_interval_time id url u t1 (cs : list callback) t' t2 (w : world) :
  url <> EmptyString -> URL_new url = Some u -> hostname u <> EmptyString -> t1 <> 0 ->
  Forall (fun c => ~ is_focus_change c) cs ->
  let w1 := fst (run (body URL_new
                        (FocusChange (Some {| tab_id := id; tab_url := Some url |}) t1)) w) in
  let w3 := fst (run (body URL_new (FocusChange t' t2)) (run_all URL_new cs w1)) in
  time_of (local w3) (hostname u) =
    time_of (local w1) (hostname u) + credited_all (hostname u) cs + (t2 - t1)
  /\ forall d, d <> hostname u ->
       time_of (local w3) d = time_of (local w1) d + credited_all d cs.
Proof.
  intros Hurl Hu Hh Ht1 Hcs. cbv zeta. cbn [body].
  assert (Ht : truthyS (Some url) = true) by (destruct url; [congruence|reflexivity]).
  set (w1 := fst (run (handleTabChange URL_new _ t1) w)).
  assert (Hact : activeDomain (mem w1) = Some (hostname u) /\ activeStart (mem w1) = t1).
  { subst w1. rewrite run_handleTabChange, (run_open_interval_parsed id url u t1 _ Ht Hu).
    split; reflexivity. }
  set (w2 := run_all URL_new cs w1).
  assert (Hact2 : activeDomain (mem w2) = Some (hostname u) /\ activeStart (mem w2) = t1).
  { pose proof (active_run_all cs w1 Hcs) as Ha. fold w2 in Ha. unfold active in Ha.
    destruct Hact as [H1 H2]. injection Ha as _ Hd _ Hs. split; congruence. }
  destruct Hact2 as [Hd2 Hs2].
  assert (Hsum : forall d, time_of (local w2) d = time_of (local w1) d + credited_all d cs).
  { intros d. apply time_run_all, Hcs. }
  split.
  - rewrite handleTabChange_time, close_interval_time, Hd2, Hs2, Hsum.
    rewrite bool_decide_true by reflexivity.
    replace (truthyS (Some (hostname u))) with true
      by (destruct (hostname u); [congruence|reflexivity]).
    replace (truthyZ (Some t1)) with true
      by (cbn [truthyZ]; symmetry; apply negb_true_iff, Z.eqb_neq; exact Ht1).
    cbn [andb]. lia.
  - intros d Hne. rewrite handleTabChange_time, close_interval_time, Hd2, Hsum.
    rewrite bool_decide_false by congruence. cbn [andb]. lia.
Qed.

(** X5: once a focus change has found no tab or no URL (the window lost
    focus), nothing is on the clock: the next focus change persists no
    time and leaves the streak variables as they are, however much later it
    comes. *)
Theorem away_time_not_attributed t t1 (cs : list callback) t' t2 (w : world) :
  has_url t = false ->
  Forall (fun c => ~ is_focus_change c) cs ->
  let w2 := run_all URL_new cs (fst (run (body URL_new (FocusChange t t1)) w)) in
  let w3 := fst (run (body URL_new (FocusChange t' t2)) w2) in
  local w3 = local w2 /\ streaks w3 = streaks w2.
Proof.
  intros Ht Hcs. cbv zeta. cbn [body].
  set (w1 := fst (run (handleTabChange URL_new t t1) w)).
  assert (Hact : activeDomain (mem w1) = None).
  { subst w1. rewrite run_handleTabChange, (run_open_interval_none t t1 _ Ht). reflexivity. }
  set (w2 := run_all URL_new cs w1).
  assert (Hact2 : activeDomain (mem w2) = None).
  { pose proof (active_run_all cs w1 Hcs) as Ha. fold w2 in Ha. unfold active in Ha.
    injection Ha as _ Hd _ _. congruence. }
  rewrite run_handleTabChange.
  rewrite (run_close_interval_idle t2 w2) by (left; rewrite Hact2; reflexivity).
  cbn [fst]. split.
  - apply run_keeps_local, open_interval_keeps_local.
  - apply run_keeps_streaks, open_interval_keeps_streaks.
Qed.

(** X6: when the URL of the new tab does not parse, [handleTabChange] ends
    in an exception after it has closed the previous interval and recorded
    the tab id: the previous domain stays active with its old start, no
    [activeCategory] message is sent, and the next focus change credits
    the previous domain again from that old start, so the first interval is
    counted twice. *)
Theorem unparsed_tab_counts_twice id url d t1 t' t2 (w : world) :
  url <> EmptyString -> URL_new url = None ->
  activeDomain (mem w) = Some d -> d <> EmptyString -> activeStart (mem w) <> 0 ->
  let r1 := run (body URL_new
                   (FocusChange (Some {| tab_id := id; tab_url := Some url |}) t1)) w in
  let w2 := fst (run (body URL_new (FocusChange t' t2)) (fst r1)) in
  (exists err, snd r1 = Throw err)
  /\ activeTabId (mem (fst r1)) = Some id
  /\ activeDomain (mem (fst r1)) = Some d
  /\ activeStart (mem (fst r1)) = activeStart (mem w)
  /\ sent (fst r1) = sent w
  /\ time_of (local w2) d =
     time_of (local w) d + (t1 - activeStart (mem w)) + (t2 - activeStart (mem w)).
Proof.
  intros Hurl Hu Had Hd Hs. cbv zeta. cbn [body].
  assert (Ht : truthyS (Some url) = true) by (destruct url; [congruence|reflexivity]).
  assert (Htd : truthyS (Some d) = true) by (destruct d; [congruence|reflexivity]).
  assert (Hts : truthyZ (Some (activeStart (mem w))) = true)
    by (cbn [truthyZ]; apply negb_true_iff, Z.eqb_neq; exact Hs).
  pose proof (close_interval_time t1 w d) as Htime.
  rewrite Had, bool_decide_true, Htd, Hts in Htime by reflexivity. cbn [andb] in Htime.
  rewrite handleTabChange_time, close_interval_time.
  rewrite (run_handleTabChange _ t1 w), (run_open_interval_unparsed id url t1 _ Ht Hu).
  rewrite (run_close_interval_active t1 w d Had Hd Hs) in *.
  cbn [fst snd mem set_mem set_local set_active activeTabId activeDomain activeStart sent
       update_streaks local] in *.
  assert (Hkeep : forall cat delta,
             activeDomain (update_streaks cat t1 delta (mem w)) = Some d
             /\ activeStart (update_streaks cat t1 delta (mem w)) = activeStart (mem w)).
  { intros cat delta. unfold update_streaks.
    destruct (is_one_of cat _); [split; [exact Had|reflexivity]|].
    destruct (is_one_of cat _); split; first [exact Had|reflexivity]. }
  destruct (Hkeep (interval_category URL_new w) (t1 - activeStart (mem w))) as [K1 K2].
  rewrite K1, K2, bool_decide_true, Htd, Hts by reflexivity. cbn [andb].
  repeat split; eauto. lia.
Qed.

(** *** Streaks *)

Lemma streaks_eq (w w' : world) :
  streaks w' = streaks w ->
  productiveSessionStart (mem w') = productiveSessionStart (mem w)
  /\ productiveAccumulated (mem w') = productiveAccumulated (mem w)
  /\ distractingStart (mem w') = distractingStart (mem w).
Proof.
  unfold streaks. intros H.
  pose proof (f_equal (fun x => fst (fst x)) H) as H1.
  pose proof (f_equal (fun x => snd (fst x)) H) as H2.
  pose proof (f_equal snd H) as H3. cbn [fst snd] in *. auto.
Qed.

Lemma handleTabChange_streaks t now (w : world) :
  truthyS (activeDomain (mem w)) = true -> activeStart (mem w) <> 0 ->
  let w' := fst (run (handleTabChange URL_new t now) w) in
  let m := update_streaks (interval_category URL_new w) now (now - activeStart (mem w))
             (mem w) in
  productiveSessionStart (mem w') = productiveSessionStart m
  /\ productiveAccumulated (mem w') = productiveAccumulated m
  /\ distractingStart (mem w') = distractingStart m.
Proof.
  intros Hd Hs. cbv zeta.
  destruct (streaks_eq _ _ (handleTabChange_mem_closed t now w)) as (-> & -> & ->).
  destruct (run_close_interval URL_new now w Hd Hs) as [_ ->]. auto.
Qed.

(** X7: a focus change that closes an interval of category productive or
    school adds the length of the interval to [productiveAccumulated],
    starts the productive session at the interval's start unless one is
    already open, and clears the distraction streak. *)
Theorem productive_interval_accumulates t now (w : world) (cat : string) :
  truthyS (activeDomain (mem w)) = true ->
  activeStart (mem w) <> 0 ->
  interval_category URL_new w = Some cat ->
  cat = "productive" \/ cat = "school" ->
  let w' := fst (run (handleTabChange URL_new t now) w) in
  productiveAccumulated (mem w') = productiveAccumulated (mem w) + (now - activeStart (mem w))
  /\ productiveSessionStart (mem w') =
     (if truthyZ (productiveSessionStart (mem w)) then productiveSessionStart (mem w)
      else Some (activeStart (mem w)))
  /\ distractingStart (mem w') = None.
Proof.
  intros Hd Hs Hcat Hin. cbv zeta.
  destruct (handleTabChange_streaks t now w Hd Hs) as (-> & -> & ->).
  rewrite Hcat. unfold update_streaks.
  replace (is_one_of (Some cat) ["productive"; "school"]) with true
    by (destruct Hin as [-> | ->]; reflexivity).
  cbn [productiveAccumulated productiveSessionStart distractingStart].
  destruct (truthyZ (productiveSessionStart (mem w))); repeat split; reflexivity.
Qed.

(** X8: an interval whose category is none of the five built-in names (a
    category the user defined on the options page) is neither productive
    nor distracting: the focus change that closes it leaves the three
    streak variables as they were, and still persists the interval's
    length for the domain. *)
Theorem custom_category_is_neutral t now (w : world) d (cat : string) :
  activeDomain (mem w) = Some d -> d <> EmptyString ->
  activeStart (mem w) <> 0 ->
  interval_category URL_new w = Some cat ->
  cat ∉ ["productive"; "school"; "social"; "games"; "other"] ->
  let w' := fst (run (handleTabChange URL_new t now) w) in
  streaks w' = streaks w
  /\ time_of (local w') d = time_of (local w) d + (now - activeStart (mem w)).
Proof.
  intros Had Hd Hs Hcat Hout. cbv zeta.
  assert (Htd : truthyS (Some d) = true) by (destruct d; [congruence|reflexivity]).
  split.
  - assert (Htd' : truthyS (activeDomain (mem w)) = true) by (rewrite Had; exact Htd).
    unfold streaks.
    destruct (handleTabChange_streaks t now w Htd' Hs) as (-> & -> & ->).
    rewrite Hcat. unfold update_streaks.
    assert (H1 : is_one_of (Some cat) ["productive"; "school"] = false).
    { cbn [is_one_of existsb]. rewrite !orb_false_r. apply orb_false_iff.
      split; apply String.eqb_neq; intros ->; apply Hout; set_solver. }
    assert (H2 : is_one_of (Some cat) ["social"; "games"; "other"] = false).
    { cbn [is_one_of existsb]. rewrite !orb_false_r. apply orb_false_iff.
      split; [|apply orb_false_iff; split]; apply String.eqb_neq; intros ->; apply Hout;
        set_solver. }
    rewrite H1, H2. reflexivity.
  - rewrite handleTabChange_time, close_interval_time, Had, Htd.
    rewrite bool_decide_true by reflexivity.
    replace (truthyZ (Some (activeStart (mem w)))) with true
      by (cbn [truthyZ]; symmetry; apply negb_true_iff, Z.eqb_neq; exact Hs).
    reflexivity.
Qed.

(** X9: a focus change that closes an interval of category social, games or
    other starts the distraction streak at the start of that interval
    unless a streak is already running; the nudge is therefore due as soon
    as a tick comes 15 minutes after the interval began, and the tick
    reports the time since then. *)
Theorem distracting_interval_backdated t now later (w : world) (cat : string) :
  truthyS (activeDomain (mem w)) = true ->
  activeStart (mem w) <> 0 ->
  interval_category URL_new w = Some cat ->
  cat = "social" \/ cat = "games" \/ cat = "other" ->
  let w' := fst (run (handleTabChange URL_new t now) w) in
  distractingStart (mem w') =
    (if truthyZ (distractingStart (mem w)) then distractingStart (mem w)
     else Some (activeStart (mem w)))
  /\ (truthyZ (distractingStart (mem w)) = false ->
      nudges (emitted (periodicChecks later) w') =
      if later - activeStart (mem w) >=? GET_BACK_THRESHOLD
      then [later - activeStart (mem w)] else []).
Proof.
  intros Hd Hs Hcat Hin. cbv zeta.
  destruct (handleTabChange_streaks t now w Hd Hs) as (_ & _ & Hds).
  rewrite Hcat in Hds.
  assert (Hds' : distractingStart (mem (fst (run (handleTabChange URL_new t now) w))) =
                 if truthyZ (distractingStart (mem w)) then distractingStart (mem w)
                 else Some (activeStart (mem w))).
  { rewrite Hds. unfold update_streaks.
    replace (is_one_of (Some cat) ["productive"; "school"]) with false
      by (destruct Hin as [-> | [-> | ->]]; reflexivity).
    replace (is_one_of (Some cat) ["social"; "games"; "other"]) with true
      by (destruct Hin as [-> | [-> | ->]]; reflexivity).
    cbn [distractingStart]. destruct (truthyZ (distractingStart (mem w))); cbn [negb];
      [reflexivity|]. f_equal. lia. }
  split; [exact Hds'|].
  intros Hfalse. rewrite Hfalse in Hds'.
  destruct (tick_nudges later (fst (run (handleTabChange URL_new t now) w))) as [Hn _].
  rewrite Hn. unfold streak_due. rewrite Hds'.
  replace (truthyZ (Some (activeStart (mem w)))) with true
    by (cbn [truthyZ]; symmetry; apply negb_true_iff, Z.eqb_neq; exact Hs).
  reflexivity.
Qed.

(** *** The tick, restart and install *)

Lemma tick_world now (w : world) :
  run (periodicChecks now) w =
  (let w1 := match due_threshold now w with
             | Some t => fired t w
             | None => w
             end in
   let w2 := if streak_due now w
             then nudged (now - default 0 (distractingStart (mem w))) w1
             else w1 in
   set_local (set_stored_productiveAccumulated (productiveAccumulated (mem w)) (local w2)) w2,
   Normal tt).
Proof.
  rewrite run_periodicChecks, run_persist_accumulated. cbv zeta.
  rewrite run_check_productive.
  assert (Hm : mem match due_threshold now w with
                   | Some t => fired t w
                   | None => w
                   end = mem w) by (destruct (due_threshold now w); reflexivity).
  set (w1 := match due_threshold now w with Some t => fired t w | None => w end) in *.
  replace (fst match due_threshold now w with
               | Some t => (fired t w, Normal tt)
               | None => (w, Normal tt)
               end) with w1 by (subst w1; destruct (due_threshold now w); reflexivity).
  rewrite run_check_distracting. unfold streak_due. rewrite Hm.
  destruct (distractingStart (mem w)) as [start|]; cbn [from_option id].
  - destruct (truthyZ (Some start) && (now - start >=? GET_BACK_THRESHOLD));
      cbn [fst nudged mem set_mem add_sent]; rewrite ?Hm; reflexivity.
  - cbn [fst]. rewrite Hm. reflexivity.
Qed.

Lemma tick_frame now (w : world) :
  let r := run (periodicChecks now) w in
  snd r = Normal tt
  /\ stored_productiveAccumulated (local (fst r)) = Some (productiveAccumulated (mem w))
  /\ domainStats (local (fst r)) = domainStats (local w)
  /\ stored_categoryMap (local (fst r)) = stored_categoryMap (local w)
  /\ active (fst r) = active w
  /\ productiveSessionStart (mem (fst r)) = productiveSessionStart (mem w)
  /\ productiveAccumulated (mem (fst r)) = productiveAccumulated (mem w).
Proof.
  cbv zeta. rewrite tick_world. cbv zeta. unfold active.
  destruct (due_threshold now w), (streak_due now w); repeat split; reflexivity.
Qed.

(** X10: a tick of the 30 s timer always completes; it stores the current
    [productiveAccumulated], and it leaves the per-domain statistics, the
    stored category map, the active tab, domain, category and start, and
    the productive session as they were. *)
Theorem tick_persists_accumulated now (w : world) :
  let r := run (periodicChecks now) w in
  snd r = Normal tt
  /\ stored_productiveAccumulated (local (fst r)) = Some (productiveAccumulated (mem w))
  /\ domainStats (local (fst r)) = domainStats (local w)
  /\ stored_categoryMap (local (fst r)) = stored_categoryMap (local w)
  /\ active (fst r) = active w
  /\ productiveSessionStart (mem (fst r)) = productiveSessionStart (mem w)
  /\ productiveAccumulated (mem (fst r)) = productiveAccumulated (mem w).
Proof. apply tick_frame. Qed.

Lemma run_detached (p : proc unit) (w : world) :
  run (detached p) w = (fst (run p w), Normal tt).
Proof.
  unfold detached. rewrite run_catch. destruct (run p w) as [w' [[]|e]]; reflexivity.
Qed.

Lemma tick_latch now (w : world) :
  latch (fst (run (periodicChecks now) w)) =
  match due_threshold now w with
  | Some t => t
  | None => latch w
  end.
Proof.
  destruct (tick_breaks now w) as [_ H]. unfold latch at 1. rewrite H.
  destruct (due_threshold now w); [apply orZ_Some_0|reflexivity].
Qed.

(** X11: the accumulated productive time survives a restart of the worker
    through storage: after a tick has run, [onStartup] on the freshly
    loaded script completes and restores [productiveAccumulated] to what it
    was.  The open productive session is not restored, so no break is
    shown by a tick that follows the restart, and the break latch stays
    where the tick left it. *)
Theorem startup_restores_accumulated now loaded tabs at_ later (w : world) :
  let w1 := fst (run (periodicChecks now) w) in
  let r := run (onStartup URL_new tabs at_) (restarted loaded w1) in
  snd r = Normal tt
  /\ productiveAccumulated (mem (fst r)) = productiveAccumulated (mem w)
  /\ productiveSessionStart (mem (fst r)) = None
  /\ latch (fst r) = latch w1
  /\ breaks_shown (emitted (periodicChecks later) (fst r)) = [].
Proof.
  cbv zeta.
  destruct (tick_frame now w) as (_ & Hacc & _).
  set (w1 := fst (run (periodicChecks now) w)) in *.
  unfold onStartup. cbn [bind trigger run perform restarted local].
  rewrite Hacc, orZ_Some_0.
  set (wa := set_mem _ _).
  assert (Hwa : streaks wa = (None, productiveAccumulated (mem w), None)
                /\ local wa = local w1 /\ activeDomain (mem wa) = None)
    by (repeat split; reflexivity).
  destruct Hwa as (Hs & Hl & Hd).
  assert (H : exists w', run match tabs with
                             | [] => Ret tt
                             | t :: _ => detached (handleTabChange URL_new (Some t) at_)
                             end wa = (w', Normal tt)
                         /\ streaks w' = streaks wa /\ local w' = local wa).
  { destruct tabs as [|t tabs'].
    - exists wa. repeat split; reflexivity.
    - eexists. split; [apply run_detached|].
      rewrite run_handleTabChange.
      rewrite (run_close_interval_idle at_ wa) by (left; rewrite Hd; reflexivity).
      cbn [fst]. split.
      + apply run_keeps_streaks, open_interval_keeps_streaks.
      + apply run_keeps_local, open_interval_keeps_local. }
  destruct H as (w' & -> & Hs' & Hl'). cbn [fst snd].
  rewrite Hs in Hs'.
  assert (Hp : productiveSessionStart (mem w') = None
               /\ productiveAccumulated (mem w') = productiveAccumulated (mem w)).
  { unfold streaks in Hs'.
    pose proof (f_equal (fun x => fst (fst x)) Hs') as H1.
    pose proof (f_equal (fun x => snd (fst x)) Hs') as H2. cbn [fst snd] in *. auto. }
  destruct Hp as [Hp1 Hp2].
  repeat split; auto.
  - unfold latch. rewrite Hl', Hl. reflexivity.
  - destruct (tick_breaks later w') as [-> _]. unfold due_threshold. rewrite Hp1. reflexivity.
Qed.

(** X12: [onInstalled] completes, zeroes the break latch and the
    accumulated productive time (in memory and in storage), stores the
    category map in force, and keeps the per-domain statistics.  It does
    not close the open productive session, so the tick that follows shows
    the largest threshold that session alone has reached, whatever was shown
    before. *)
Theorem onInstalled_resets now (w : world) :
  let r := run onInstalled w in
  snd r = Normal tt
  /\ latch (fst r) = 0
  /\ productiveAccumulated (mem (fst r)) = 0
  /\ stored_productiveAccumulated (local (fst r)) = Some 0
  /\ stored_categoryMap (local (fst r)) =
     Some (default DEFAULT_CATEGORY_MAP (sync_categoryMap w))
  /\ domainStats (local (fst r)) = domainStats (local w)
  /\ (forall start, productiveSessionStart (mem w) = Some start -> start <> 0 ->
      breaks_shown (emitted (periodicChecks now) (fst r)) =
      match find (fun t => now - start >=? t) checked_thresholds with
      | Some t => [t]
      | None => []
      end).
Proof.
  cbv zeta. unfold onInstalled. rewrite run_bind, run_loadPrefs.
  cbn [bind trigger run perform prefs_categoryMap fst snd].
  repeat split.
  intros start Hstart Hne.
  set (w' := set_mem _ _).
  destruct (tick_breaks now w') as [-> _].
  unfold due_threshold, effective_duration.
  replace (productiveSessionStart (mem w')) with (Some start) by (symmetry; exact Hstart).
  replace (truthyZ (Some start)) with true
    by (cbn [truthyZ]; symmetry; apply negb_true_iff, Z.eqb_neq; exact Hne).
  replace (productiveAccumulated (mem w')) with 0 by reflexivity.
  replace (latch w') with 0 by reflexivity.
  rewrite Z.add_0_l. unfold due, checked_thresholds. cbn [find].
  repeat match goal with |- context [0 <? ?t] => replace (0 <? t) with true by reflexivity end.
  rewrite !andb_true_r. reflexivity.
Qed.

(** *** Breaks between two resets *)

Lemma shown_callback (c : callback) (w : world) :
  ~ is_reset c ->
  let w' := fst (run (body URL_new c) w) in
  let shown := breaks_shown (emitted (body URL_new c) w) in
  (shown = [] /\ latch w' = latch w)
  \/ (exists t, shown = [t] /\ latch w' = t /\ latch w < t /\ t ∈ checked_thresholds).
Proof.
  intros Hc. cbv zeta. destruct c as [now|t now|msg now|state]; cbn [body].
  - destruct (tick_breaks now w) as [Hb _]. rewrite Hb, tick_latch.
    destruct (due_threshold now w) as [t|] eqn:Hdue; [right|left; auto].
    exists t. repeat split; [eapply due_threshold_above, Hdue|].
    unfold due_threshold in Hdue. destruct (truthyZ _); [|discriminate].
    apply find_some in Hdue as [Hin _]. apply list_elem_of_In, Hin.
  - left. destruct (run_keeps_latch _ w (handleTabChange_keeps_latch URL_new t now))
      as [Hl (outs & Hs & Hb)].
    unfold latch. rewrite Hl, (emitted_of _ _ _ Hs). auto.
  - left. assert (Hm : msg <> Some resetBreakShown).
    { intros ->. apply Hc. exists now. reflexivity. }
    destruct (run_keeps_latch _ w (onMessage_keeps_latch URL_new msg now Hm))
      as [Hl (outs & Hs & Hb)].
    unfold latch. rewrite Hl, (emitted_of _ _ _ Hs). auto.
  - left. split; [|reflexivity]. unfold emitted.
    cbn [pushToAllTabs trigger run perform fst sent add_sent].
    rewrite drop_app_length. reflexivity.
Qed.

Lemma ascending_run_all (cs : list callback) (w : world) :
  Forall (fun c => ~ is_reset c) cs ->
  ascending (latch w) (breaks_shown (emitted_all URL_new cs w))
  /\ Forall (fun t => t ∈ checked_thresholds) (breaks_shown (emitted_all URL_new cs w)).
Proof.
  intros Hcs. revert w. induction Hcs as [|c cs Hc _ IH]; intros w.
  - unfold emitted_all. cbn [run_all]. rewrite drop_all. split; constructor.
  - rewrite emitted_all_cons, breaks_shown_app.
    destruct (IH (fst (run (body URL_new c) w))) as [IH1 IH2].
    destruct (shown_callback c w Hc) as [[-> Hl]|(t & -> & Hl & Hlt & Hin)];
      rewrite Hl in IH1; cbn [app ascending]; auto.
Qed.

Lemma ascending_at_most_three lo (l : list Z) :
  ascending lo l -> Forall (fun t => t ∈ checked_thresholds) l -> (length l <= 3)%nat.
Proof.
  intros Ha Hin.
  destruct l as [|a [|b [|c [|d l]]]]; cbn [length]; try lia.
  exfalso. cbn [ascending] in Ha. destruct Ha as (_ & Hab & Hbc & Hcd & _).
  inversion Hin as [|? ? Ia Hin1]; subst. inversion Hin1 as [|? ? Ib Hin2]; subst.
  inversion Hin2 as [|? ? Ic Hin3]; subst. inversion Hin3 as [|? ? Id _]; subst.
  unfold checked_thresholds in *.
  repeat match goal with
         | H : _ ∈ _ :: _ |- _ => apply elem_of_cons in H as [H|H]
         | H : _ ∈ [] |- _ => apply elem_of_nil in H; contradiction
         end; lia.
Qed.

(** X13: in any sequence of callbacks without a [resetBreakShown] request,
    the thresholds of the [showBreak] broadcasts are among 2 h, 3 h, 4 h,
    each is above the one shown before it and above the latch the sequence
    started with; so there are at most three of them. *)
Theorem showBreak_thresholds_ascend (cs : list callback) (w : world) :
  Forall (fun c => ~ is_reset c) cs ->
  let shown := breaks_shown (emitted_all URL_new cs w) in
  ascending (latch w) shown
  /\ Forall (fun t => t ∈ checked_thresholds) shown
  /\ (length shown <= 3)%nat.
Proof.
  intros Hcs. cbv zeta. destruct (ascending_run_all cs w Hcs) as [H1 H2].
  split; [exact H1|]. split; [exact H2|]. eapply ascending_at_most_three; eassumption.
Qed.

(** *** The tab listeners *)

(** Each tab listener changes the world as the focus change it stands for,
    or not at all; the listeners that do not await [handleTabChange] keep
    its exception to themselves. *)
Lemma listeners_are_focus_changes (t : tab) tabs now (w : world) :
  run (onActivated URL_new (Some t) now) w
    = (fst (run (body URL_new (FocusChange (Some t) now)) w), Normal tt)
  /\ run (onActivated URL_new None now) w = (w, Normal tt)
  /\ run (onUpdated URL_new true (Some "complete") t now) w
     = (fst (run (body URL_new (FocusChange (Some t) now)) w), Normal tt)
  /\ (forall status, run (onUpdated URL_new false status t now) w = (w, Normal tt))
  /\ run (onFocusChanged URL_new WINDOW_ID_NONE tabs now) w
     = run (body URL_new (FocusChange None now)) w
  /\ (forall windowId, windowId <> WINDOW_ID_NONE ->
      run (onFocusChanged URL_new windowId (t :: tabs) now) w
      = (fst (run (body URL_new (FocusChange (Some t) now)) w), Normal tt)).
Proof.
  repeat split; try reflexivity; cbn [onActivated onUpdated body andb];
    try (rewrite bool_decide_true by reflexivity); try apply run_detached.
  intros windowId Hw. unfold onFocusChanged.
  rewrite (proj2 (Z.eqb_neq windowId WINDOW_ID_NONE) Hw). apply run_detached.
Qed.

(** *** Requests and their answers *)


(** *** The accumulated productive time *)

Lemma update_streaks_grows cat now delta (m : memory) :
  0 <= delta ->
  productiveAccumulated m <= productiveAccumulated (update_streaks cat now delta m)
  /\ activeStart (update_streaks cat now delta m) = activeStart m.
Proof.
  intros Hd. unfold update_streaks.
  destruct (is_one_of cat _); [cbn; split; [lia|reflexivity]|].
  destruct (is_one_of cat _); cbn; split; first [lia|reflexivity].
Qed.

Lemma close_interval_grows now (w : world) :
  activeStart (mem w) <= now ->
  let w' := fst (run (close_interval URL_new now) w) in
  productiveAccumulated (mem w) <= productiveAccumulated (mem w')
  /\ activeStart (mem w') = activeStart (mem w).
Proof.
  intros Hs. cbv zeta. destruct (activeDomain (mem w)) as [d|] eqn:Had.
  - destruct (decide (d = EmptyString)) as [->|Hd].
    + rewrite run_close_interval_idle by (left; rewrite Had; reflexivity).
      cbn [fst]. split; [lia|reflexivity].
    + destruct (decide (activeStart (mem w) = 0)) as [H0|H0].
      * rewrite run_close_interval_idle by (right; exact H0). cbn [fst]. split; [lia|reflexivity].
      * rewrite (run_close_interval_active now w d Had Hd H0). cbn [fst mem set_mem].
        apply update_streaks_grows. lia.
  - rewrite run_close_interval_idle by (left; rewrite Had; reflexivity).
    cbn [fst]. split; [lia|reflexivity].
Qed.

Lemma open_interval_start t now (w : world) :
  activeStart (mem w) <= now ->
  activeStart (mem (fst (run (open_interval URL_new t now) w))) <= now.
Proof.
  intros Hs. destruct (has_url t) eqn:Ht.
  - destruct t as [[id [url|]]|]; try discriminate Ht. cbn [has_url tab_url] in Ht.
    destruct (URL_new url) as [u|] eqn:Hu.
    + rewrite (run_open_interval_parsed id url u now w Ht Hu). cbn. lia.
    + rewrite (run_open_interval_unparsed id url now w Ht Hu). cbn. exact Hs.
  - rewrite (run_open_interval_none t now w Ht). cbn. lia.
Qed.

Lemma accumulated_callback (c : callback) (w : world) t0 :
  activeStart (mem w) <= t0 ->
  focus_times_ascend t0 [c] ->
  let w' := fst (run (body URL_new c) w) in
  productiveAccumulated (mem w) <= productiveAccumulated (mem w')
  /\ activeStart (mem w') <= match c with FocusChange _ now => now | _ => t0 end.
Proof.
  intros Hs Hc. cbv zeta. destruct c as [now|t now|msg now|state]; cbn [body].
  - destruct (tick_frame now w) as (_ & _ & _ & _ & Ha & _ & Hp).
    rewrite Hp. unfold active in Ha.
    pose proof (f_equal snd Ha) as Hst. cbn [snd] in Hst. rewrite Hst. split; [lia|exact Hs].
  - destruct Hc as [Ht _]. rewrite run_handleTabChange.
    destruct (close_interval_grows now w ltac:(lia)) as [Hg Hst].
    set (w1 := fst (run (close_interval URL_new now) w)) in *.
    destruct (streaks_eq _ _ (run_keeps_streaks _ w1 (open_interval_keeps_streaks t now)))
      as (_ & -> & _).
    split; [exact Hg|]. apply open_interval_start. lia.
  - rewrite (run_keeps_mem _ w (onMessage_keeps_mem msg now)). split; [lia|exact Hs].
  - cbn. split; [lia|exact Hs].
Qed.

(** X29: the accumulated productive time never goes down.  Over any trace
    of ticks, focus changes, requests and idle changes whose focus
    changes come in the order of their times, [productiveAccumulated] at
    the end is at least what it was: nothing in the event loop resets or
    lowers it, by day or otherwise. *)
Theorem accumulated_never_decreases (cs : list callback) (w : world) t0 :
  activeStart (mem w) <= t0 ->
  focus_times_ascend t0 cs ->
  productiveAccumulated (mem w) <= productiveAccumulated (mem (run_all URL_new cs w)).
Proof.
  revert w t0. induction cs as [|c cs IH]; intros w t0 Hs Hcs; cbn [run_all]; [lia|].
  assert (Hc : focus_times_ascend t0 [c]).
  { destruct c; cbn [focus_times_ascend] in *; tauto. }
  destruct (accumulated_callback c w t0 Hs Hc) as [Hg Hst].
  etransitivity; [exact Hg|].
  destruct c as [now|t now|msg now|state]; cbn [focus_times_ascend] in Hcs.
  - apply (IH _ t0); assumption.
  - apply (IH _ now); [exact Hst|tauto].
  - apply (IH _ t0); assumption.
  - apply (IH _ t0); assumption.
Qed.

(** The variables a tick leaves alone: it only ever clears the distraction
    streak. *)
Lemma tick_keeps_interval now (w : world) :
  let w' := fst (run (periodicChecks now) w) in
  activeDomain (mem w') = activeDomain (mem w)
  /\ activeStart (mem w') = activeStart (mem w)
  /\ interval_category URL_new w' = interval_category URL_new w.
Proof.
  cbv zeta. rewrite tick_world. cbn [fst]. unfold interval_category.
  destruct (due_threshold now w), (streak_due now w); cbn; auto.
Qed.

(** C6: the nudge does not wait for a new distracting interval.  On a tab
    of category social, games or other whose streak is due, the tick sends
    [getBackToWork] and clears the streak; the next focus change, whichever
    it is (the same tab finishing a page load is one), closes the interval
    that was running when the nudge fired and starts the streak again at the
    start of that interval; a tick 15 minutes after that start, however soon
    after the first nudge, sends [getBackToWork] again. *)
Theorem getBackToWork_rearmed_in_running_interval t now1 now2 now3 (w : world)
    (cat : string) (start : Z) :
  truthyS (activeDomain (mem w)) = true ->
  activeStart (mem w) <> 0 ->
  interval_category URL_new w = Some cat ->
  cat = "social" \/ cat = "games" \/ cat = "other" ->
  distractingStart (mem w) = Some start -> start <> 0 ->
  GET_BACK_THRESHOLD <= now1 - start ->
  GET_BACK_THRESHOLD <= now3 - activeStart (mem w) ->
  let w1 := fst (run (periodicChecks now1) w) in
  let w2 := fst (run (handleTabChange URL_new t now2) w1) in
  nudges (emitted (periodicChecks now1) w) = [now1 - start]
  /\ distractingStart (mem w1) = None
  /\ distractingStart (mem w2) = Some (activeStart (mem w))
  /\ nudges (emitted (periodicChecks now3) w2) = [now3 - activeStart (mem w)].
Proof.
  intros Hd Hs Hcat Hin Hstart Hstart0 Hdue1 Hdue3. cbv zeta.
  assert (Hfire : streak_due now1 w = true) by (apply streak_due_spec; eauto).
  destruct (tick_nudges now1 w) as [Hn1 Hc1]. rewrite Hstart, Hfire in Hn1.
  rewrite Hfire in Hc1.
  destruct (tick_keeps_interval now1 w) as (Hdom & Hact & Hic).
  set (w1 := fst (run (periodicChecks now1) w)) in *.
  destruct (handleTabChange_streaks t now2 w1) as (_ & _ & Hds);
    [rewrite Hdom; exact Hd|rewrite Hact; exact Hs|].
  rewrite Hic, Hcat, Hact in Hds.
  assert (Hre : distractingStart (mem (fst (run (handleTabChange URL_new t now2) w1)))
                = Some (activeStart (mem w))).
  { rewrite Hds. unfold update_streaks.
    replace (is_one_of (Some cat) ["productive"; "school"]) with false
      by (destruct Hin as [-> | [-> | ->]]; reflexivity).
    replace (is_one_of (Some cat) ["social"; "games"; "other"]) with true
      by (destruct Hin as [-> | [-> | ->]]; reflexivity).
    cbn [distractingStart]. rewrite Hc1. cbn [truthyZ negb]. f_equal. lia. }
  split; [exact Hn1|]. split; [exact Hc1|]. split; [exact Hre|].
  destruct (tick_nudges now3 (fst (run (handleTabChange URL_new t now2) w1))) as [Hn3 _].
  rewrite Hn3, Hre.
  replace (streak_due now3 (fst (run (handleTabChange URL_new t now2) w1))) with true;
    [reflexivity|].
  symmetry. apply streak_due_spec. exists (activeStart (mem w)). auto.
Qed.

End WorkerFacts.

(** * The activity monitor of the content script *)

Module MonitorFacts.
Import Content Monitor.

Ltac open_state s :=
  destruct s as [[dom cat la cnt un base] ai hid lv nh rep sm];
  cbn [vars activityInterval hidden live next_handle reported shown_minutes
       currentDomain currentCategory lastActivity isCounting unsentAccumMs
       baseDomainTimeMs] in *.

Ltac simpl_state :=
  cbn [vars activityInterval hidden live next_handle reported shown_minutes
       currentDomain currentCategory lastActivity isCounting unsentAccumMs
       baseDomainTimeMs set_vars set_unsent set_base set_isCounting set_lastActivity
       set_activityInterval set_hidden setInterval clearInterval send_addDomainTime
       updateTimerDisplay negb orb andb] in *.

Lemma tidy_flush (s : state) :
  tidy s -> tidy (flushAccumulatedTime s).
Proof.
  unfold tidy, flushAccumulatedTime. open_state s.
  intros (H1 & H2 & H3 & H4 & H5).
  destruct (negb (truthyS dom) || (un <=? 0)) eqn:Hc; simpl_state; [auto|].
  repeat split; auto; try lia. apply Z.divide_0_r.
Qed.

Lemma tidy_startCounting now (s : state) :
  tidy s -> tidy (startCounting now s).
Proof.
  unfold tidy, startCounting. open_state s.
  intros (H1 & H2 & H3 & H4 & H5). destruct cnt; simpl_state; [auto|].
  destruct H1 as [-> ->]. repeat split; auto; try (intros; congruence).
  exists nh. split; [reflexivity|]. apply union_empty_r_L.
Qed.

Lemma tidy_stopCounting (s : state) :
  tidy s -> tidy (stopCounting s).
Proof.
  intros H. unfold stopCounting.
  destruct (isCounting (vars s)) eqn:Hc; cbn [negb]; [|exact H].
  generalize H. unfold tidy, flushAccumulatedTime. open_state s. subst cnt.
  intros ((h & -> & ->) & H2 & H3 & H4 & H5). simpl_state.
  assert (Hset : ({[h]} ∖ {[h]} : gset positive) = ∅) by apply difference_diag_L.
  destruct (truthyS dom) eqn:Hd; simpl_state.
  - destruct (un <=? 0) eqn:Hu; simpl_state; rewrite Hset.
    + apply Z.leb_le in Hu. repeat split; auto. intros _ _. lia.
    + repeat split; auto; try lia. apply Z.divide_0_r.
  - rewrite Hset. repeat split; auto; try (intros; congruence).
Qed.

Lemma tidy_counting_tick (s : state) :
  tidy s -> isCounting (vars s) = true -> tidy (counting_tick s).
Proof.
  unfold tidy, counting_tick, flushAccumulatedTime. open_state s.
  intros (H1 & H2 & H3 & H4 & H5) ->. destruct hid; simpl_state; [auto 10|].
  assert (Hdiv : (1000 | un + 1000)) by (apply Z.divide_add_r; [exact H5|apply Z.divide_refl]).
  destruct (un + 1000 >=? 15 * 1000) eqn:Hge; simpl_state.
  - destruct (truthyS dom) eqn:Hd; simpl_state.
    + replace (un + 1000 <=? 0) with false by (symmetry; apply Z.leb_gt; lia).
      simpl_state. repeat split; auto; try lia; try (intros; congruence). apply Z.divide_0_r.
    + repeat split; auto; try lia; try (intros; congruence).
  - rewrite Z.geb_leb in Hge. apply Z.leb_gt in Hge. repeat split; auto; try lia; try (intros; congruence).
Qed.

Lemma tidy_occur (o : occurrence) (s : state) :
  tidy s -> tidy (occur o s).
Proof.
  intros H. destruct o as [now later|h|now|b now later|st now later|now resp|]; cbn [occur].
  - unfold onUserActivity.
    assert (H' : tidy (set_vars (set_lastActivity now (vars s)) s)).
    { revert H. unfold tidy. open_state s. simpl_state. auto. }
    destruct (negb (hidden _)); [apply tidy_startCounting, H'|exact H'].
  - case_bool_decide as Hin; [|exact H]. apply tidy_counting_tick; [exact H|].
    destruct H as (H1 & _). destruct (isCounting (vars s)); [reflexivity|].
    destruct H1 as [_ Hl]. rewrite Hl in Hin. set_solver.
  - unfold inactivity_check. destruct (negb _); [exact H|].
    destruct (_ >? _); [apply tidy_stopCounting, H|exact H].
  - assert (H' : tidy (set_hidden b s)).
    { revert H. unfold tidy. open_state s. simpl_state. auto. }
    unfold on_visibilitychange. destruct (hidden _); [apply tidy_stopCounting, H'|].
    destruct (_ <=? _); [apply tidy_startCounting, H'|exact H'].
  - unfold on_idleState. destruct (_ || _); [apply tidy_stopCounting, H|].
    destruct (_ <=? _); [apply tidy_startCounting, H|exact H].
  - unfold on_domainInfo. destruct resp as [r|]; [|exact H].
    revert H. unfold tidy. open_state s. simpl_state.
    cbn [loadDomainInfo_callback currentDomain isCounting unsentAccumMs]. auto.
  - revert H. unfold tidy. open_state s. simpl_state. auto.
Qed.

Lemma total_app a b : total (a ++ b) = total a + total b.
Proof. unfold total. induction a as [|x a IH]; cbn [app foldr]; lia. Qed.

Lemma accounted_refl (s : state) : accounted s s [] 0.
Proof. unfold accounted. cbn [total foldr]. rewrite app_nil_r. repeat split; lia. Qed.

Lemma accounted_trans s1 s2 s3 new1 new2 n1 n2 :
  accounted s1 s2 new1 n1 -> accounted s2 s3 new2 n2 ->
  accounted s1 s3 (new1 ++ new2) (n1 + n2).
Proof.
  unfold accounted. intros (R1 & B1 & U1 & D1) (R2 & B2 & U2 & D2).
  rewrite total_app, R2, R1, <- app_assoc. repeat split; try lia; congruence.
Qed.

Lemma accounted_flush (s : state) :
  exists new, accounted s (flushAccumulatedTime s) new 0
              /\ (0 <= unsentAccumMs (vars s) <= 15 * 1000 ->
                  (1000 | unsentAccumMs (vars s)) ->
                  Forall (batch (currentDomain (vars s))) new)
              /\ (truthyS (currentDomain (vars s)) = false -> new = []).
Proof.
  unfold flushAccumulatedTime, accounted. open_state s.
  destruct (truthyS dom) eqn:Hd; cbn [negb orb].
  - destruct (Z.leb_spec un 0) as [Hu|Hu]; simpl_state.
    + exists []. cbn [total foldr]. rewrite app_nil_r. repeat split; try lia. constructor.
    + exists [(dom, un)]. cbn [total foldr snd]. repeat split; try lia; try discriminate.
      intros Hb Hdiv. constructor; [|constructor]. unfold batch. cbn [fst snd].
      repeat split; auto; try lia. apply Z.divide_pos_le in Hdiv; lia.
  - exists []. simpl_state. cbn [total foldr]. rewrite app_nil_r. repeat split; try lia.
    constructor.
Qed.

Lemma accounted_startCounting now (s : state) : accounted s (startCounting now s) [] 0.
Proof.
  unfold startCounting. destruct (isCounting (vars s)) eqn:Hc; [apply accounted_refl|].
  unfold accounted. open_state s. simpl_state. cbn [total foldr]. rewrite app_nil_r.
  repeat split; lia.
Qed.

Lemma accounted_stopCounting (s : state) :
  exists new, accounted s (stopCounting s) new 0
              /\ (0 <= unsentAccumMs (vars s) <= 15 * 1000 ->
                  (1000 | unsentAccumMs (vars s)) ->
                  Forall (batch (currentDomain (vars s))) new)
              /\ (truthyS (currentDomain (vars s)) = false -> new = []).
Proof.
  unfold stopCounting. destruct (isCounting (vars s)) eqn:Hc; cbn [negb].
  - set (s2 := set_activityInterval None _).
    destruct (accounted_flush s2) as (new & Ha & Hb & Hn). exists new. split; [|split].
    + revert Ha. unfold accounted. subst s2. open_state s.
      destruct ai; simpl_state; auto.
    + revert Hb. subst s2. open_state s. destruct ai; simpl_state; auto.
    + revert Hn. subst s2. open_state s. destruct ai; simpl_state; auto.
  - exists []. split; [apply accounted_refl|]. split; [constructor|reflexivity].
Qed.

Lemma accounted_counting_tick (s : state) :
  exists new, accounted s (counting_tick s) new (if hidden s then 0 else 1)
              /\ (0 <= unsentAccumMs (vars s) < 15 * 1000 ->
                  (1000 | unsentAccumMs (vars s)) ->
                  Forall (batch (currentDomain (vars s))) new)
              /\ (truthyS (currentDomain (vars s)) = false -> new = []).
Proof.
  unfold counting_tick. destruct (hidden s) eqn:Hh.
  - exists []. split; [apply accounted_refl|]. split; [constructor|reflexivity].
  - set (s2 := updateTimerDisplay _).
    assert (H2 : accounted s s2 [] 1).
    { subst s2. unfold accounted. open_state s. simpl_state. cbn [total foldr].
      rewrite app_nil_r. repeat split; lia. }
    assert (Hu : unsentAccumMs (vars s2) = unsentAccumMs (vars s) + 1000
                 /\ currentDomain (vars s2) = currentDomain (vars s)).
    { subst s2. open_state s. simpl_state. auto. }
    destruct Hu as [Hu Hd].
    destruct (unsentAccumMs (vars s2) >=? 15 * 1000).
    + destruct (accounted_flush s2) as (new & Ha & Hb & Hn). exists new.
      split; [|split].
      * apply (accounted_trans _ _ _ _ _ _ _ H2 Ha).
      * intros Hr Hdiv. rewrite <- Hd. apply Hb; rewrite Hu.
        -- destruct Hdiv as [k Hk]. lia.
        -- apply Z.divide_add_r; [exact Hdiv|apply Z.divide_refl].
      * rewrite <- Hd. exact Hn.
    + exists []. split; [exact H2|]. split; [constructor|reflexivity].
Qed.

Lemma accounted_set_hidden b (s : state) : accounted s (set_hidden b s) [] 0.
Proof.
  unfold accounted. open_state s. simpl_state. cbn [total foldr]. rewrite app_nil_r.
  repeat split; lia.
Qed.

Lemma accounted_set_lastActivity now (s : state) :
  accounted s (set_vars (set_lastActivity now (vars s)) s) [] 0.
Proof.
  unfold accounted. open_state s. simpl_state. cbn [total foldr]. rewrite app_nil_r.
  repeat split; lia.
Qed.

Lemma accounted_redraw (s : state) : accounted s (updateTimerDisplay s) [] 0.
Proof.
  unfold accounted. open_state s. simpl_state. cbn [total foldr]. rewrite app_nil_r.
  repeat split; lia.
Qed.

Lemma tidy_batches (s : state) (new : list (option string * Z)) :
  (0 <= unsentAccumMs (vars s) < 15 * 1000 ->
   (1000 | unsentAccumMs (vars s)) ->
   Forall (batch (currentDomain (vars s))) new) ->
  (truthyS (currentDomain (vars s)) = false -> new = []) ->
  tidy s -> Forall (batch (currentDomain (vars s))) new.
Proof.
  intros H1 H2 (_ & _ & H3 & H4 & H5).
  destruct (truthyS (currentDomain (vars s))) eqn:Hd.
  - apply H1; auto.
  - rewrite H2 by reflexivity. constructor.
Qed.

Lemma accounted_occur (o : occurrence) (s : state) :
  ~ is_domainInfo o ->
  exists new, accounted s (occur o s) new (if counts o s then 1 else 0)
              /\ (tidy s -> Forall (batch (currentDomain (vars s))) new).
Proof.
  intros Ho.
  destruct o as [now later|h|now|b now later|st now later|now resp|]; cbn [occur counts].
  - exists []. split; [|constructor]. unfold onUserActivity.
    pose proof (accounted_set_lastActivity now s) as H1.
    destruct (negb _); [|exact H1].
    apply (accounted_trans _ _ _ [] [] 0 0 H1), accounted_startCounting.
  - case_bool_decide as Hin; cbn [andb].
    + destruct (accounted_counting_tick s) as (new & Ha & Hb & Hn). exists new.
      split; [destruct (hidden s); exact Ha|]. apply tidy_batches; assumption.
    + exists []. split; [apply accounted_refl|constructor].
  - unfold inactivity_check. destruct (negb _).
    + exists []. split; [apply accounted_refl|constructor].
    + destruct (_ >? _).
      * destruct (accounted_stopCounting s) as (new & Ha & Hb & Hn). exists new.
        split; [exact Ha|]. apply tidy_batches; [|assumption].
        intros Hr Hdiv. apply Hb; [lia|assumption].
      * exists []. split; [apply accounted_refl|constructor].
  - pose proof (accounted_set_hidden b s) as H1. unfold on_visibilitychange.
    destruct (hidden (set_hidden b s)).
    + destruct (accounted_stopCounting (set_hidden b s)) as (new & Ha & Hb & Hn).
      exists new.
      split; [apply (accounted_trans _ _ _ [] new 0 0 H1 Ha)|].
      apply tidy_batches; [|exact Hn].
      intros Hr Hdiv. apply Hb; cbn [set_hidden vars]; [lia|assumption].
    + exists []. split; [|constructor].
      destruct (_ <=? _); [|exact H1].
      apply (accounted_trans _ _ _ [] [] 0 0 H1), accounted_startCounting.
  - unfold on_idleState. destruct (_ || _).
    + destruct (accounted_stopCounting s) as (new & Ha & Hb & Hn). exists new.
      split; [exact Ha|]. apply tidy_batches; [|assumption].
      intros Hr Hdiv. apply Hb; [lia|assumption].
    + exists []. split; [|constructor].
      destruct (_ <=? _); [apply accounted_startCounting|apply accounted_refl].
  - exfalso. apply Ho. exists now, resp. reflexivity.
  - exists []. split; [apply accounted_redraw|constructor].
Qed.

Lemma reported_by_of (os : list occurrence) (s : state) new :
  reported (occur_all os s) = reported s ++ new -> reported_by os s = new.
Proof. intros H. unfold reported_by. rewrite H, drop_app_length. reflexivity. Qed.

Lemma accounted_occur_all (os : list occurrence) (s : state) :
  Forall (fun o => ~ is_domainInfo o) os ->
  exists new, accounted s (occur_all os s) new (counted os s)
              /\ (tidy s -> Forall (batch (currentDomain (vars s))) new).
Proof.
  intros Hos. revert s. induction Hos as [|o os Ho _ IH]; intros s;
    cbn [occur_all fold_left counted].
  - exists []. split; [apply accounted_refl|constructor].
  - destruct (accounted_occur o s Ho) as (new1 & Ha1 & Hb1).
    destruct (IH (occur o s)) as (new2 & Ha2 & Hb2).
    exists (new1 ++ new2). split; [apply (accounted_trans _ _ _ _ _ _ _ Ha1 Ha2)|].
    intros Ht. apply Forall_app. split; [auto|].
    destruct Ha1 as (_ & _ & _ & <-). apply Hb2, tidy_occur, Ht.
Qed.

(** X14: the monitor stays tidy whatever happens on the page, in any order:
    it counts exactly when one counting interval is live (never two, and
    none is left behind when it stops); the unreported time is a multiple
    of one second and never negative; and on a page with a domain it is
    below 15 seconds, and zero while the monitor does not count, every
    counted second having been reported. *)
Theorem monitor_stays_tidy (os : list occurrence) (s : state) :
  tidy s -> tidy (occur_all os s).
Proof.
  revert s. induction os as [|o os IH]; intros s H; cbn [occur_all fold_left].
  - exact H.
  - apply IH, tidy_occur, H.
Qed.

(** X15: no counted time is lost or invented.  Over any run in which no
    [getDomainTime] answer arrives, the base time grows by exactly the sum
    of the deltas reported, and what was reported plus what is still unsent
    is what was unsent before plus one second for every firing of a live
    counting interval on a visible page. *)
Theorem monitor_conserves_time (os : list occurrence) (s : state) :
  Forall (fun o => ~ is_domainInfo o) os ->
  let s' := occur_all os s in
  baseDomainTimeMs (vars s') = baseDomainTimeMs (vars s) + total (reported_by os s)
  /\ total (reported_by os s) + unsentAccumMs (vars s') =
     unsentAccumMs (vars s) + 1000 * counted os s.
Proof.
  intros Hos. cbv zeta.
  destruct (accounted_occur_all os s Hos) as (new & (Hr & Hb & Hu & _) & _).
  rewrite (reported_by_of os s new Hr). auto.
Qed.

(** X16: from a tidy state, every [addDomainTime] message the monitor hands
    over names the page's own domain, which is not empty, and carries a
    whole number of seconds between 1 and 15; on a page without a domain
    nothing is ever reported. *)
Theorem monitor_reports_batches (os : list occurrence) (s : state) :
  tidy s ->
  Forall (fun o => ~ is_domainInfo o) os ->
  Forall (batch (currentDomain (vars s))) (reported_by os s)
  /\ (truthyS (currentDomain (vars s)) = false -> reported_by os s = []).
Proof.
  intros Ht Hos.
  destruct (accounted_occur_all os s Hos) as (new & (Hr & _) & Hb).
  rewrite (reported_by_of os s new Hr). split; [auto|].
  intros Hd. specialize (Hb Ht). destruct Hb as [|r new' (_ & Ht' & _) _]; [reflexivity|].
  congruence.
Qed.

Lemma display_flush (s : state) :
  display_current s -> display_current (flushAccumulatedTime s).
Proof.
  unfold display_current, flushAccumulatedTime. open_state s.
  destruct (_ || _); simpl_state; [auto|]. intros ->. f_equal. lia.
Qed.

Lemma display_startCounting now (s : state) :
  display_current s -> display_current (startCounting now s).
Proof.
  unfold display_current, startCounting. open_state s. destruct cnt; simpl_state; auto.
Qed.

Lemma display_stopCounting (s : state) :
  display_current s -> display_current (stopCounting s).
Proof.
  intros H. unfold stopCounting. destruct (negb _); [exact H|].
  apply display_flush. revert H. unfold display_current. open_state s.
  destruct ai; simpl_state; auto.
Qed.

Lemma display_occur (o : occurrence) (s : state) :
  display_current s -> display_current (occur o s).
Proof.
  intros H. destruct o as [now later|h|now|b now later|st now later|now resp|]; cbn [occur].
  - unfold onUserActivity.
    assert (H' : display_current (set_vars (set_lastActivity now (vars s)) s)).
    { revert H. unfold display_current. open_state s. simpl_state. auto. }
    destruct (negb _); [apply display_startCounting, H'|exact H'].
  - case_bool_decide; [|exact H]. unfold counting_tick. destruct (hidden s); [exact H|].
    set (s2 := updateTimerDisplay _).
    assert (H2 : display_current s2) by reflexivity.
    destruct (_ >=? _); [apply display_flush, H2|exact H2].
  - unfold inactivity_check. destruct (negb _); [exact H|].
    destruct (_ >? _); [apply display_stopCounting, H|exact H].
  - assert (H' : display_current (set_hidden b s)) by exact H.
    unfold on_visibilitychange. destruct (hidden _); [apply display_stopCounting, H'|].
    destruct (_ <=? _); [apply display_startCounting, H'|exact H'].
  - unfold on_idleState. destruct (_ || _); [apply display_stopCounting, H|].
    destruct (_ <=? _); [apply display_startCounting, H|exact H].
  - unfold on_domainInfo. destruct resp; [reflexivity|exact H].
  - reflexivity.
Qed.

(** X17: once the timer element shows the whole minutes of base plus unsent
    time it keeps doing so through everything that happens on the page:
    each counted second is drawn at once, a report moves time from unsent
    to base without changing the total, and a [getDomainTime] answer
    redraws after it has replaced the base. *)
Theorem display_never_stale (os : list occurrence) (s : state) :
  display_current s -> display_current (occur_all os s).
Proof.
  revert s. induction os as [|o os IH]; intros s H; cbn [occur_all fold_left].
  - exact H.
  - apply IH, display_occur, H.
Qed.

Lemma stopCounting_stops (s : state) : isCounting (vars (stopCounting s)) = false.
Proof.
  unfold stopCounting, flushAccumulatedTime. open_state s.
  destruct cnt; simpl_state; [|reflexivity].
  destruct ai; simpl_state; destruct (_ || _); reflexivity.
Qed.

Lemma stops_counting (o : occurrence) (s : state) :
  stops o s = true -> isCounting (vars (occur o s)) = false.
Proof.
  destruct o as [now later|h|now|b now later|st now later|now resp|]; cbn [stops occur];
    try discriminate.
  - intros H. unfold inactivity_check. rewrite H.
    destruct (isCounting (vars s)) eqn:Hc; cbn [negb]; [apply stopCounting_stops|exact Hc].
  - intros ->. unfold on_visibilitychange. cbn [set_hidden hidden]. apply stopCounting_stops.
  - intros H. unfold on_idleState. rewrite H. apply stopCounting_stops.
Qed.

Lemma quiet_occur (o : occurrence) (s : state) :
  from_timer o -> isCounting (vars s) = false -> live s = ∅ ->
  vars (occur o s) = vars s /\ reported (occur o s) = reported s /\ live (occur o s) = ∅.
Proof.
  intros Ho Hc Hl. destruct o as [now later|h|now|b now later|st now later|now resp|];
    cbn [from_timer] in Ho; try contradiction; cbn [occur].
  - rewrite bool_decide_false by (rewrite Hl; apply not_elem_of_empty). auto.
  - unfold inactivity_check. rewrite Hc. auto.
  - open_state s. simpl_state. auto.
Qed.

(** X30: hidden, idle and inactive time is not counted.  When the page
    becomes hidden, the system goes idle or is locked, or the inactivity
    check finds no activity for more than a minute, a tidy monitor stops:
    no counting interval stays live and, on a page with a domain, nothing
    stays unreported.  From then on timers alone change neither the
    activity variables nor the reports, however many fire. *)
Theorem idle_time_is_not_counted (o : occurrence) (os : list occurrence) (s : state) :
  tidy s -> stops o s = true -> Forall from_timer os ->
  let s1 := occur o s in
  let s2 := occur_all os s1 in
  isCounting (vars s1) = false /\ live s1 = ∅
  /\ (truthyS (currentDomain (vars s1)) = true -> unsentAccumMs (vars s1) = 0)
  /\ vars s2 = vars s1 /\ reported s2 = reported s1.
Proof.
  intros Ht Hstop Hos. cbv zeta.
  pose proof (stops_counting o s Hstop) as Hc.
  pose proof (tidy_occur o s Ht) as (H1 & H2 & _).
  set (s1 := occur o s) in *. rewrite Hc in H1. destruct H1 as [_ Hl].
  split; [exact Hc|]. split; [exact Hl|]. split; [auto|].
  clearbody s1. clear Ht Hstop H2. revert s1 Hc Hl.
  induction Hos as [|o' os Ho _ IH]; intros s1 Hc Hl; cbn [occur_all fold_left]; [auto|].
  destruct (quiet_occur o' s1 Ho Hc Hl) as (Hv & Hr & Hl').
  destruct (IH (occur o' s1)) as [IHv IHr]; [rewrite Hv; exact Hc|exact Hl'|].
  unfold occur_all in *. split; congruence.
Qed.

End MonitorFacts.

(** * The break, from the overlay to the end *)

Module BreakFacts.
Import Content Overlay.

Ltac simpl_page :=
  cbn [banners next_banner attached overlay timers next_timer outbox
       removeOverlay removeExistingBanner set_timer clear_timer update_timer
       set_content set_faded detach sendMessageSafe create_banner set_overlay].

Lemma control_startBreak durationMs (p : page) :
  at_rest p ->
  control (startBreak durationMs p) =
  ({[ next_timer p := preInterval (next_banner p) durationMs 3 ]}, [next_banner p],
   outbox p, S (next_timer p))
  /\ is_Some (banners (startBreak durationMs p) !! next_banner p)
  /\ overlay (startBreak durationMs p) = false.
Proof.
  intros [Ht Ha]. unfold control, startBreak. simpl_page. rewrite Ht, Ha, insert_empty.
  split; [reflexivity|]. split; [|reflexivity]. rewrite lookup_insert_eq. eauto.
Qed.

Lemma control_fire_preInterval id (p : page) b d c :
  timers p = {[ id := preInterval b d c ]} ->
  control (fire id p) =
  (if c - 1 <=? 0
   then ({[ next_timer p := interval b (seconds_of d) ]}, attached p,
         outbox p ++ [startBreakGlobal d], S (next_timer p))
   else ({[ id := preInterval b d (c - 1) ]}, attached p, outbox p, next_timer p))
  /\ (is_Some (banners p !! b) ->
      is_Some (banners (fire id p) !! b)
      /\ (c - 1 <= 0 -> close_button b (fire id p) = Some (next_timer p))).
Proof.
  intros Ht. unfold control, fire. rewrite Ht, lookup_singleton_eq.
  destruct (Z.leb_spec (c - 1) 0) as [Hc|Hc]; simpl_page; rewrite Ht.
  - rewrite delete_singleton_eq, insert_empty. split; [reflexivity|].
    intros [bn Hb]. unfold close_button. simpl_page.
    rewrite !lookup_alter_eq, Hb. cbn. split; [eauto|reflexivity].
  - rewrite insert_singleton_eq. split; [reflexivity|].
    intros [bn Hb]. rewrite lookup_alter_eq, Hb. split; [cbn; eauto|lia].
Qed.

Lemma control_fire_interval id (p : page) b r :
  timers p = {[ id := interval b r ]} ->
  control (fire id p) =
  (if r - 1 <=? 0
   then ({[ next_timer p := endTimer b 3 ]}, attached p, outbox p, S (next_timer p))
   else ({[ id := interval b (r - 1) ]}, attached p, outbox p, next_timer p))
  /\ (0 < r - 1 -> close_button b (fire id p) = close_button b p).
Proof.
  intros Ht. unfold control, fire. rewrite Ht, lookup_singleton_eq.
  set (p1 := match content <$> banners p !! b with
             | Some (break_content _ h) => set_content b (break_content (r - 1) h) p
             | _ => p
             end).
  assert (H1 : timers p1 = timers p /\ attached p1 = attached p /\ outbox p1 = outbox p
               /\ next_timer p1 = next_timer p /\ close_button b p1 = close_button b p).
  { subst p1. unfold close_button. destruct (banners p !! b) as [[v f]|] eqn:Hb; cbn.
    - destruct v; simpl_page; rewrite ?lookup_alter_eq, ?Hb; cbn; auto 10.
    - rewrite Hb. auto 10. }
  destruct H1 as (T1 & A1 & O1 & N1 & C1).
  destruct (Z.leb_spec (r - 1) 0) as [Hc|Hc]; simpl_page; rewrite T1, A1, O1, N1, Ht.
  - rewrite delete_singleton_eq, insert_empty. split; [reflexivity|lia].
  - rewrite insert_singleton_eq. split; [reflexivity|]. intros _.
    unfold close_button. simpl_page. exact C1.
Qed.

Lemma control_fire_endTimer id (p : page) b c :
  timers p = {[ id := endTimer b c ]} ->
  control (fire id p) =
  (if c - 1 <=? 0
   then ({[ next_timer p := fadeOut b ]}, attached p, outbox p ++ [endBreakGlobal],
         S (next_timer p))
   else ({[ id := endTimer b (c - 1) ]}, attached p, outbox p, next_timer p)).
Proof.
  intros Ht. unfold control, fire. rewrite Ht, lookup_singleton_eq.
  destruct (Z.leb_spec (c - 1) 0) as [Hc|Hc]; simpl_page; rewrite Ht.
  - rewrite delete_singleton_eq, insert_empty. reflexivity.
  - rewrite insert_singleton_eq. reflexivity.
Qed.

Lemma control_fire_fadeOut id (p : page) b :
  timers p = {[ id := fadeOut b ]} ->
  control (fire id p) =
  ({[ next_timer p := removeBanner b ]}, attached p, outbox p, S (next_timer p)).
Proof.
  intros Ht. unfold control, fire. rewrite Ht, lookup_singleton_eq. simpl_page.
  rewrite Ht, delete_singleton_eq, insert_empty. reflexivity.
Qed.

Lemma control_fire_removeBanner id (p : page) b :
  timers p = {[ id := removeBanner b ]} ->
  control (fire id p) =
  (∅, filter (fun x => x ≠ b) (attached p), outbox p, next_timer p).
Proof.
  intros Ht. unfold control, fire. rewrite Ht, lookup_singleton_eq. simpl_page.
  rewrite Ht, delete_singleton_eq. reflexivity.
Qed.

Lemma control_fire_endEarly id (p : page) b :
  timers p = {[ id := endEarly b ]} ->
  control (fire id p) =
  ({[ next_timer p := removeBanner b ]}, attached p, outbox p ++ [endBreakGlobal],
   S (next_timer p)).
Proof.
  intros Ht. unfold control, fire. rewrite Ht, lookup_singleton_eq. simpl_page.
  rewrite Ht, delete_singleton_eq, insert_empty. reflexivity.
Qed.

Lemma control_click_close (p : page) b h c :
  close_button b p = Some h -> b ∈ attached p -> timers p = {[ h := c ]} ->
  control (click_close b p) =
  ({[ next_timer p := endEarly b ]}, attached p, outbox p, S (next_timer p)).
Proof.
  unfold close_button, control, click_close. intros Hb Hin Ht.
  destruct (content <$> banners p !! b) as [[]|]; try discriminate.
  injection Hb as ->. rewrite bool_decide_true by exact Hin. simpl_page.
  rewrite Ht, delete_singleton_eq, insert_empty. reflexivity.
Qed.

Lemma control_eq (p : page) tm att ob nt :
  control p = (tm, att, ob, nt) ->
  timers p = tm /\ attached p = att /\ outbox p = ob /\ next_timer p = nt.
Proof. unfold control. intros [= -> -> -> ->]. auto. Qed.

Lemma happen_all_app hs1 hs2 (p : page) :
  happen_all (hs1 ++ hs2) p = happen_all hs2 (happen_all hs1 p).
Proof. apply fold_left_app. Qed.

Lemma happen_all_fires n id (p : page) :
  happen_all (replicate (S n) (Fire id)) p = happen_all (replicate n (Fire id)) (fire id p).
Proof. reflexivity. Qed.

Lemma pre_countdown id b d n : forall (p : page) c,
  timers p = {[ id := preInterval b d c ]} -> is_Some (banners p !! b) ->
  c = Z.of_nat (S n) ->
  let p' := happen_all (replicate (S n) (Fire id)) p in
  control p' = ({[ next_timer p := interval b (seconds_of d) ]}, attached p,
                outbox p ++ [startBreakGlobal d], S (next_timer p))
  /\ close_button b p' = Some (next_timer p).
Proof.
  induction n as [|n IH]; intros p c Ht Hb Hc; cbv zeta; rewrite happen_all_fires;
    destruct (control_fire_preInterval id p b d c Ht) as [Hctl Hbn];
    destruct (Hbn Hb) as [Hb' Hclose].
  - replace (c - 1 <=? 0) with true in Hctl by (symmetry; apply Z.leb_le; lia).
    split; [exact Hctl|]. apply Hclose. lia.
  - replace (c - 1 <=? 0) with false in Hctl by (symmetry; apply Z.leb_gt; lia).
    apply control_eq in Hctl as (T & A & O & N).
    destruct (IH (fire id p) (c - 1) T Hb' ltac:(lia)) as [H1 H2].
    rewrite A, O, N in H1. rewrite N in H2. auto.
Qed.

Lemma interval_countdown id b n : forall (p : page) r,
  timers p = {[ id := interval b r ]} ->
  Z.max 1 r = Z.of_nat (S n) ->
  control (happen_all (replicate (S n) (Fire id)) p) =
  ({[ next_timer p := endTimer b 3 ]}, attached p, outbox p, S (next_timer p)).
Proof.
  induction n as [|n IH]; intros p r Ht Hr; rewrite happen_all_fires;
    destruct (control_fire_interval id p b r Ht) as [Hctl _].
  - replace (r - 1 <=? 0) with true in Hctl by (symmetry; apply Z.leb_le; lia).
    exact Hctl.
  - replace (r - 1 <=? 0) with false in Hctl by (symmetry; apply Z.leb_gt; lia).
    apply control_eq in Hctl as (T & A & O & N).
    rewrite (IH (fire id p) (r - 1) T ltac:(lia)), A, O, N. reflexivity.
Qed.

Lemma interval_partial id b j : forall (p : page) r,
  timers p = {[ id := interval b r ]} ->
  Z.of_nat j < Z.max 1 r ->
  let p' := happen_all (replicate j (Fire id)) p in
  control p' = ({[ id := interval b (r - Z.of_nat j) ]}, attached p, outbox p, next_timer p)
  /\ close_button b p' = close_button b p.
Proof.
  induction j as [|j IH]; intros p r Ht Hr; cbv zeta.
  - cbn [replicate happen_all fold_left]. unfold control. rewrite Ht, Z.sub_0_r. auto.
  - rewrite happen_all_fires.
    destruct (control_fire_interval id p b r Ht) as [Hctl Hclose].
    replace (r - 1 <=? 0) with false in Hctl by (symmetry; apply Z.leb_gt; lia).
    apply control_eq in Hctl as (T & A & O & N).
    destruct (IH (fire id p) (r - 1) T ltac:(lia)) as [H1 H2].
    rewrite A, O, N in H1. rewrite H1, H2, Hclose by lia.
    replace (r - Z.of_nat (S j)) with (r - 1 - Z.of_nat j) by lia. auto.
Qed.

Lemma end_countdown id b n : forall (p : page) c,
  timers p = {[ id := endTimer b c ]} ->
  c = Z.of_nat (S n) ->
  control (happen_all (replicate (S n) (Fire id)) p) =
  ({[ next_timer p := fadeOut b ]}, attached p, outbox p ++ [endBreakGlobal],
   S (next_timer p)).
Proof.
  induction n as [|n IH]; intros p c Ht Hc; rewrite happen_all_fires;
    pose proof (control_fire_endTimer id p b c Ht) as Hctl.
  - replace (c - 1 <=? 0) with true in Hctl by (symmetry; apply Z.leb_le; lia).
    exact Hctl.
  - replace (c - 1 <=? 0) with false in Hctl by (symmetry; apply Z.leb_gt; lia).
    apply control_eq in Hctl as (T & A & O & N).
    rewrite (IH (fire id p) (c - 1) T ltac:(lia)), A, O, N. reflexivity.
Qed.

Lemma active_ticks_S d : exists n, active_ticks d = S n /\ Z.max 1 (seconds_of d) = Z.of_nat (S n).
Proof.
  unfold active_ticks. exists (Z.to_nat (Z.max 1 (seconds_of d) - 1)). split; lia.
Qed.

Lemma filter_own b : filter (fun x : nat => x ≠ b) [b] = [].
Proof. cbn. rewrite decide_False by (intros H; apply H; reflexivity). reflexivity. Qed.

(** X18: a break started on a page at rest and left alone runs its course:
    three pre-start ticks, one tick per second of the break (at least one),
    three pre-end ticks, the fade and the removal.  It sends
    [startBreakGlobal] with the duration and then [endBreakGlobal], once
    each and nothing else, and leaves no banner and no timer behind. *)
Theorem break_runs_its_course durationMs (p : page) :
  at_rest p ->
  let p' := happen_all (full_course (next_timer p) durationMs) (startBreak durationMs p) in
  outbox p' = outbox p ++ [startBreakGlobal durationMs; endBreakGlobal]
  /\ timers p' = ∅ /\ attached p' = [].
Proof.
  intros Hrest. cbv zeta. unfold full_course.
  destruct (control_startBreak durationMs p Hrest) as (H0 & Hb0 & _).
  apply control_eq in H0 as (T0 & A0 & O0 & N0).
  set (k := next_timer p) in *. set (b := next_banner p) in *.
  set (p0 := startBreak durationMs p) in *.
  rewrite !happen_all_app.
  destruct (pre_countdown k b durationMs 2 p0 3 T0 Hb0 eq_refl) as [H1 _].
  cbv zeta in H1. set (p1 := happen_all (replicate 3 (Fire k)) p0) in *.
  rewrite A0, O0, N0 in H1. apply control_eq in H1 as (T1 & A1 & O1 & N1).
  destruct (active_ticks_S durationMs) as (n & -> & Hn).
  pose proof (interval_countdown (S k) b n p1 _ T1 Hn) as H2.
  set (p2 := happen_all (replicate (S n) (Fire (S k))) p1) in *.
  rewrite A1, O1, N1 in H2. apply control_eq in H2 as (T2 & A2 & O2 & N2).
  pose proof (end_countdown (S (S k)) b 2 p2 3 T2 eq_refl) as H3.
  set (p3 := happen_all (replicate 3 (Fire (S (S k)))) p2) in *.
  rewrite A2, O2, N2 in H3. apply control_eq in H3 as (T3 & A3 & O3 & N3).
  cbn [happen_all fold_left happen].
  pose proof (control_fire_fadeOut _ p3 b T3) as H4.
  rewrite A3, O3, N3 in H4. apply control_eq in H4 as (T4 & A4 & O4 & N4).
  pose proof (control_fire_removeBanner _ _ b T4) as H5.
  rewrite A4, O4, filter_own in H5. apply control_eq in H5 as (T5 & A5 & O5 & _).
  rewrite T5, A5, O5, <- !app_assoc. auto.
Qed.

(** X19: a break closed with its close button while the seconds run sends
    [endBreakGlobal] exactly once, one tick after the click; the
    countdown is cancelled, the pre-end countdown never starts, and two
    ticks later no banner and no timer is left. *)
Theorem break_closed_early durationMs (j : nat) (p : page) :
  at_rest p ->
  (j < active_ticks durationMs)%nat ->
  let p' := happen_all (closed_early (next_timer p) (next_banner p) j)
              (startBreak durationMs p) in
  outbox p' = outbox p ++ [startBreakGlobal durationMs; endBreakGlobal]
  /\ timers p' = ∅ /\ attached p' = [].
Proof.
  intros Hrest Hj. cbv zeta. unfold closed_early.
  destruct (control_startBreak durationMs p Hrest) as (H0 & Hb0 & _).
  apply control_eq in H0 as (T0 & A0 & O0 & N0).
  set (k := next_timer p) in *. set (b := next_banner p) in *.
  set (p0 := startBreak durationMs p) in *.
  rewrite !happen_all_app.
  destruct (pre_countdown k b durationMs 2 p0 3 T0 Hb0 eq_refl) as [H1 C1].
  cbv zeta in H1, C1. set (p1 := happen_all (replicate 3 (Fire k)) p0) in *.
  rewrite A0, O0, N0 in H1. rewrite N0 in C1. apply control_eq in H1 as (T1 & A1 & O1 & N1).
  assert (Hj' : Z.of_nat j < Z.max 1 (seconds_of durationMs))
    by (unfold active_ticks in Hj; lia).
  destruct (interval_partial (S k) b j p1 _ T1 Hj') as [H2 C2].
  cbv zeta in H2, C2. set (p2 := happen_all (replicate j (Fire (S k))) p1) in *.
  rewrite A1, O1, N1 in H2. rewrite C1 in C2. apply control_eq in H2 as (T2 & A2 & O2 & N2).
  cbn [happen_all fold_left happen].
  assert (Hin : b ∈ attached p2) by (rewrite A2; apply list_elem_of_singleton; reflexivity).
  pose proof (control_click_close p2 b (S k) _ C2 Hin T2) as H3.
  rewrite A2, O2, N2 in H3. apply control_eq in H3 as (T3 & A3 & O3 & N3).
  pose proof (control_fire_endEarly _ _ b T3) as H4.
  rewrite A3, O3, N3 in H4. apply control_eq in H4 as (T4 & A4 & O4 & N4).
  pose proof (control_fire_removeBanner _ _ b T4) as H5.
  rewrite A4, O4, filter_own in H5. apply control_eq in H5 as (T5 & A5 & O5 & _).
  rewrite T5, A5, O5, <- !app_assoc. auto.
Qed.

Lemma attached_fire id (p : page) :
  attached (fire id p) = attached p
  \/ exists b, attached (fire id p) = filter (fun x => x ≠ b) (attached p).
Proof.
  unfold fire. destruct (timers p !! id) as [[b d c|b r|b c|b|b|b]|]; auto.
  - destruct (_ <=? _); simpl_page; auto.
  - destruct (content <$> banners p !! b) as [[]|]; destruct (_ <=? _); simpl_page; auto.
  - destruct (_ <=? _); simpl_page; auto.
  - simpl_page. eauto.
Qed.

Lemma attached_startBreak d (p : page) :
  attached (startBreak d p) = tail (attached p) ++ [next_banner p].
Proof. reflexivity. Qed.

Lemma one_banner_happen (h : happening) (p : page) :
  (length (attached p) <= 1)%nat -> (length (attached (happen h p)) <= 1)%nat.
Proof.
  intros H. destruct h as [d|d|id|b]; cbn [happen].
  - rewrite attached_startBreak, length_app. destruct (attached p) as [|x [|y l]];
      cbn [tail length] in *; lia.
  - unfold on_startBreak. rewrite attached_startBreak, length_app.
    destruct (attached p) as [|x [|y l]]; cbn [tail length] in *; lia.
  - destruct (attached_fire id p) as [->|[b ->]]; [exact H|].
    etransitivity; [apply length_filter|exact H].
  - unfold click_close. destruct (content <$> banners p !! b) as [[]|]; try exact H.
    destruct (bool_decide _); [|exact H]. simpl_page. exact H.
Qed.

(** X20: the page never shows two break banners: if at most one is attached,
    at most one is attached after any sequence of break choices,
    [startBreak] messages, timer firings and clicks on close buttons. *)
Theorem never_two_banners (hs : list happening) (p : page) :
  (length (attached p) <= 1)%nat -> (length (attached (happen_all hs p)) <= 1)%nat.
Proof.
  revert p. induction hs as [|h hs IH]; intros p H; cbn [happen_all fold_left].
  - exact H.
  - apply IH, one_banner_happen, H.
Qed.

Lemma seconds_of_minutes m : 0 <= m -> seconds_of (m * 60 * 1000) = m * 60.
Proof.
  intros Hm. unfold seconds_of.
  replace (- (m * 60 * 1000)) with ((- (m * 60)) * 1000) by lia.
  rewrite Z.div_mul by lia. lia.
Qed.

(** X21: a click on a button of the break overlay either starts a break of
    a whole number of minutes between 1 and 45, whose countdown then
    takes exactly that many times sixty ticks, or (a manual entry that is
    not a positive number) starts nothing; either way the overlay is gone.
    Without the overlay there is nothing to click. *)
Theorem overlay_choice_bounded (c : choice) (p : page) :
  (overlay p = false -> click_break c p = p)
  /\ (overlay p = true ->
      overlay (click_break c p) = false
      /\ ((exists m, 1 <= m <= 45
                     /\ click_break c p = startBreak (m * 60 * 1000) p
                     /\ active_ticks (m * 60 * 1000) = Z.to_nat (m * 60))
          \/ ((c = manual None \/ exists n, c = manual (Some n) /\ n <= 0)
              /\ click_break c p = removeOverlay p))).
Proof.
  unfold click_break. split; intros ->; cbn [negb]; [reflexivity|].
  assert (Hticks : forall m, 1 <= m -> active_ticks (m * 60 * 1000) = Z.to_nat (m * 60)).
  { intros m Hm. unfold active_ticks. rewrite seconds_of_minutes by lia. lia. }
  destruct c as [| | |[n|]].
  - split; [reflexivity|]. left. exists 10. split; [lia|]. split; [reflexivity|].
    apply Hticks. lia.
  - split; [reflexivity|]. left. exists 20. split; [lia|]. split; [reflexivity|].
    apply Hticks. lia.
  - split; [reflexivity|]. left. exists 30. split; [lia|]. split; [reflexivity|].
    apply Hticks. lia.
  - destruct (Z.leb_spec n 0) as [Hn|Hn].
    + split; [reflexivity|]. right. split; [right; eauto|reflexivity].
    + split; [reflexivity|]. left. exists (Z.min n 45). split; [lia|].
      split; [reflexivity|]. apply Hticks. lia.
  - split; [reflexivity|]. right. split; [left; reflexivity|reflexivity].
Qed.

End BreakFacts.

(** * The summary of the popup *)

Module PopupFacts.
Import Popup.








End PopupFacts.

(** * Handlers that overlap, and handlers that take turns *)

Module OverlapFacts.
Import Worker Overlap.

(** *** Handlers that take turns *)

Lemma at_most_le {A} (p : proc A) : forall n m, (n <= m)%nat -> at_most n p -> at_most m p.
Proof.
  induction p as [a|err|X e k IH]; intros n m Hnm; cbn [at_most]; auto.
  destruct (awaited e).
  - destruct n as [|n]; [contradiction|]. destruct m as [|m]; [lia|].
    intros H x. apply (IH x n m); [lia|apply H].
  - intros H x. apply (IH x n m); [lia|apply H].
Qed.

Lemma at_most_bind {A B} (p : proc A) (f : A -> proc B) : forall a b,
  at_most a p -> (forall x, at_most b (f x)) -> at_most (a + b) (bind p f).
Proof.
  induction p as [x|err|X e k IH]; intros a b Hp Hf; cbn [bind at_most] in *.
  - apply (at_most_le _ b); [lia|apply Hf].
  - exact I.
  - destruct (awaited e).
    + destruct a as [|a]; [contradiction|]. cbn [Nat.add]. intros x. apply IH; auto.
    + intros x. apply IH; auto.
Qed.

Lemma at_most_catch {A} (p : proc A) (h : string -> proc A) : forall a b,
  at_most a p -> (forall err, at_most b (h err)) -> at_most (a + b) (catch p h).
Proof.
  induction p as [x|err|X e k IH]; intros a b Hp Hh; cbn [catch at_most] in *.
  - exact I.
  - apply (at_most_le _ b); [lia|apply Hh].
  - destruct (awaited e).
    + destruct a as [|a]; [contradiction|]. cbn [Nat.add]. intros x. apply IH; auto.
    + intros x. apply IH; auto.
Qed.

Lemma map_replicate {A B} (f : A -> B) n (x : A) :
  map f (replicate n x) = replicate n (f x).
Proof. induction n as [|n IH]; cbn; [reflexivity|]. rewrite IH. reflexivity. Qed.

Lemma continue_finished (p : proc unit) (pool : list (proc unit)) (w : world) n :
  finished p ->
  interleave (replicate n (Continue (length pool))) (w, pool ++ [p]) = (w, pool ++ [p]).
Proof.
  intros Hp. induction n as [|n IH]; [reflexivity|].
  cbn [replicate interleave fold_left step].
  rewrite lookup_app_r, Nat.sub_diag by lia. cbn [lookup list_lookup].
  destruct p as [a|err|X e k]; [| |contradiction]; cbn [resume];
    rewrite list_insert_id by (rewrite lookup_app_r, Nat.sub_diag by lia; reflexivity);
    exact IH.
Qed.

(** Started and resumed as often as it has awaits, a handler has run to its
    end, with nothing else in between. *)
Lemma resumed_to_end (p : proc unit) : forall n (w : world) (pool : list (proc unit)),
  at_most n p ->
  exists q, finished q
    /\ interleave (replicate n (Continue (length pool)))
         (fst (advance p w), pool ++ [snd (advance p w)])
       = (fst (run p w), pool ++ [q]).
Proof.
  induction p as [a|err|X e k IH]; intros n w pool Hn.
  - exists (Ret a). split; [exact I|]. apply continue_finished. exact I.
  - exists (Raise err). split; [exact I|]. apply continue_finished. exact I.
  - cbn [at_most] in Hn. cbn [advance run]. destruct (awaited e) eqn:He.
    + destruct n as [|n]; [contradiction|]. cbn [fst snd replicate interleave fold_left step].
      rewrite lookup_app_r, Nat.sub_diag by lia. cbn [lookup list_lookup resume].
      destruct (perform e w) as [w' x] eqn:Hp.
      destruct (IH x n w' pool (Hn x)) as (q & Hq & Hrun). exists q. split; [exact Hq|].
      rewrite <- Hrun. destruct (advance (k x) w') as [w'' p'']. cbn [fst snd].
      rewrite insert_app_r_alt, Nat.sub_diag by lia. reflexivity.
    + destruct (perform e w) as [w' x] eqn:Hp. apply IH, Hn.
Qed.

Section Handlers.
Variable URL_new : string -> option URL.

Lemma at_most_saveDomainTime domain cat delta : at_most 2 (saveDomainTime domain cat delta).
Proof.
  unfold saveDomainTime. destruct domain; [|exact I]. destruct (negb _); [exact I|].
  cbn. auto.
Qed.

Lemma at_most_body (c : callback) : at_most MAX_AWAITS (body URL_new c).
Proof.
  unfold MAX_AWAITS. destruct c as [now|t now|msg now|state]; cbn [body].
  - unfold periodicChecks.
    apply (at_most_bind _ _ 2 2); [|intros _; apply (at_most_bind _ _ 0 2)].
    + unfold check_productive. cbn [bind trigger at_most awaited]. intros m0.
      destruct (productiveSessionStart m0); [|exact I]. destruct (negb _); [exact I|].
      cbn [bind trigger at_most awaited]. intros s.
      induction checked_thresholds as [|t ts IH]; cbn [check_thresholds]; [exact I|].
      destruct (_ && _); [|exact IH]. cbn. auto.
    + unfold check_distracting. cbn [bind trigger at_most awaited]. intros m1.
      destruct (distractingStart m1); [|exact I]. destruct (negb _); [exact I|].
      destruct (_ >=? _); cbn; auto.
    + intros _. cbn. auto.
  - unfold handleTabChange. apply (at_most_bind _ _ 3 1).
    + unfold close_interval. cbn [bind trigger at_most awaited]. intros m0.
      destruct (_ && _); [|exact I]. cbn [loadPrefs bind trigger at_most awaited].
      intros cm m1. apply (at_most_bind _ _ 0 2).
      * destruct (truthyS _); [exact I|]. destruct (getCategoryForUrl _ _ _); exact I.
      * intros cat. apply (at_most_bind _ _ 2 0); [apply at_most_saveDomainTime|].
        intros _. cbn. auto.
    + intros _. unfold open_interval. destruct t as [[id [url|]]|]; try (cbn; auto; fail).
      destruct (negb _); [cbn; auto; fail|]. cbn [bind trigger at_most awaited]. intros _.
      destruct (new_URL URL_new url); cbn [lift bind trigger at_most awaited loadPrefs];
        [|exact I].
      intros _ cm. destruct (getCategoryForUrl _ _ _); cbn; auto.
  - destruct msg as [[| |domain deltaMs| | | | |]|]; cbn [onMessage]; try (cbn; auto; fail).
    unfold addDomainTime_handler. apply (at_most_catch _ _ 3 1); [|intros; cbn; auto].
    destruct domain as [d|]; [|cbn; auto]. destruct (_ || _); [cbn; auto; fail|].
    unfold addDomainTime_store. cbn [bind trigger at_most awaited]. intros l.
    apply (at_most_bind _ _ 1 1); [|intros; cbn; auto].
    apply (at_most_catch _ _ 1 0); [|intros; exact I].
    cbn [loadPrefs bind trigger at_most awaited]. intros cm.
    destruct (getCategoryForUrl _ _ _); exact I.
  - cbn. auto.
Qed.

(** Handlers that take turns are the callbacks run one after the other. *)
Lemma in_turn_run_all n (cs : list callback) : forall (w : world) (pool : list (proc unit)),
  (MAX_AWAITS <= n)%nat ->
  exists pool',
    interleave (map (to_action URL_new) (in_turn n (length pool) cs)) (w, pool)
    = (run_all URL_new cs w, pool').
Proof.
  induction cs as [|c cs IH]; intros w pool Hn; cbn [in_turn map run_all].
  - exists pool. reflexivity.
  - rewrite map_app, map_replicate. cbn [to_action]. unfold interleave.
    cbn [fold_left]. rewrite fold_left_app. cbn [step].
    destruct (resumed_to_end (body URL_new c) n w pool) as (q & _ & Hrun).
    { apply (at_most_le _ MAX_AWAITS); [exact Hn|apply at_most_body]. }
    unfold interleave in Hrun. destruct (advance (body URL_new c) w) as [w' p'].
    cbn [fst snd] in Hrun. rewrite Hrun.
    destruct (IH (fst (run (body URL_new c) w)) (pool ++ [q]) Hn) as (pool' & Hrest).
    rewrite length_app in Hrest. cbn [length] in Hrest.
    replace (length pool + 1)%nat with (S (length pool)) in Hrest by lia.
    exists pool'. exact Hrest.
Qed.

Lemma run_all_app (cs cs' : list callback) : forall w : world,
  run_all URL_new (cs ++ cs') w = run_all URL_new cs' (run_all URL_new cs w).
Proof. induction cs as [|c cs IH]; intros w; cbn [app run_all]; auto. Qed.

Lemma scheduled_in_turn n (cs : list callback) (w : world) :
  (MAX_AWAITS <= n)%nat ->
  scheduled URL_new (in_turn n 0 cs) w = run_all URL_new cs w.
Proof.
  intros Hn. unfold scheduled.
  destruct (in_turn_run_all n cs w [] Hn) as (pool' & H). cbn [length] in H.
  rewrite H. reflexivity.
Qed.

End Handlers.

(** *** Handlers that overlap *)

Section Books.
Variable d : string.
Variable t0 : Z.

Lemma fits_le u u' g : u <= u' -> fits t0 u g -> fits t0 u' g.
Proof. intros Hu. destruct g; cbn [fits]; auto. lia. Qed.

(** One event of a handler keeps the books in order. *)
Lemma adds_perform {A X} (e : event X) (k : X -> proc A) delta g u (w : world) :
  0 <= delta -> adds d delta g (Vis e k) ->
  t0 <= time_of (local w) d <= u -> fits t0 u g ->
  exists g',
    adds d delta g' (k (snd (perform e w)))
    /\ let u' := u - due (delta, g) + due (delta, g') in
       u <= u' /\ t0 <= time_of (local (fst (perform e w))) d <= u' /\ fits t0 u' g'.
Proof.
  intros Hdelta Hadds Ht Hg. cbn [adds] in Hadds.
  assert (Hsame : forall g0, let u' := u - due (delta, g0) + due (delta, g0) in u <= u')
    by (intros; cbv zeta; lia).
  destruct e; cbn [perform fst snd].
  - (* LocalGet *)
    specialize (Hadds (local w)). eexists. split; [exact Hadds|].
    destruct g; cbn [due fst snd fits] in *; repeat split; lia.
  - (* LocalSet *)
    destruct Hadds as [[Hkeep Hrest]|(snapshot & -> & Hwrite & Hrest)].
    + exists g. split; [exact Hrest|]. cbv zeta. cbn [set_local local].
      rewrite (time_of_domainStats (local w) (upd (local w))) by apply Hkeep.
      replace (u - due (delta, g) + due (delta, g)) with u by lia. auto with zarith.
    + exists Written. split; [exact Hrest|]. cbv zeta. cbn [set_local local due fst snd fits].
      rewrite Hwrite. cbn [fits] in Hg. repeat split; lia.
  - (* LocalSetDetached *)
    destruct Hadds as [[Hkeep Hrest]|(snapshot & -> & Hwrite & Hrest)].
    + exists g. split; [exact Hrest|]. cbv zeta. cbn [set_local local].
      rewrite (time_of_domainStats (local w) (upd (local w))) by apply Hkeep.
      replace (u - due (delta, g) + due (delta, g)) with u by lia. auto with zarith.
    + exists Written. split; [exact Hrest|]. cbv zeta. cbn [set_local local due fst snd fits].
      rewrite Hwrite. cbn [fits] in Hg. repeat split; lia.
  - exists g. split; [apply Hadds|]. cbv zeta.
    replace (u - due (delta, g) + due (delta, g)) with u by lia. auto with zarith.
  - exists g. split; [apply Hadds|]. cbv zeta.
    replace (u - due (delta, g) + due (delta, g)) with u by lia. auto with zarith.
  - exists g. split; [apply Hadds|]. cbv zeta. cbn [set_mem local].
    replace (u - due (delta, g) + due (delta, g)) with u by lia. auto with zarith.
  - exists g. split; [apply Hadds|]. cbv zeta. cbn [add_sent local].
    replace (u - due (delta, g) + due (delta, g)) with u by lia. auto with zarith.
Qed.

Lemma adds_advance {A} (p : proc A) : forall delta g u (w : world),
  0 <= delta -> adds d delta g p ->
  t0 <= time_of (local w) d <= u -> fits t0 u g ->
  exists g',
    adds d delta g' (snd (advance p w))
    /\ let u' := u - due (delta, g) + due (delta, g') in
       u <= u' /\ t0 <= time_of (local (fst (advance p w))) d <= u' /\ fits t0 u' g'.
Proof.
  induction p as [a|err|X e k IH]; intros delta g u w Hdelta Hadds Ht Hg.
  - exists g. split; [exact I|]. cbv zeta. cbn [advance fst].
    replace (u - due (delta, g) + due (delta, g)) with u by lia. auto with zarith.
  - exists g. split; [exact I|]. cbv zeta. cbn [advance fst].
    replace (u - due (delta, g) + due (delta, g)) with u by lia. auto with zarith.
  - cbn [advance]. destruct (awaited e).
    + exists g. split; [exact Hadds|]. cbv zeta. cbn [fst].
      replace (u - due (delta, g) + due (delta, g)) with u by lia. auto with zarith.
    + destruct (adds_perform e k delta g u w Hdelta Hadds Ht Hg)
        as (g1 & Hadds1 & Hu1 & Ht1 & Hg1).
      destruct (perform e w) as [w1 x]. cbn [fst snd] in *.
      destruct (IH x delta g1 _ w1 Hdelta Hadds1 Ht1 Hg1) as (g2 & Hadds2 & Hu2 & Ht2 & Hg2).
      exists g2. split; [exact Hadds2|]. cbv zeta.
      replace (u - due (delta, g) + due (delta, g2))
        with (u - due (delta, g) + due (delta, g1) - due (delta, g1) + due (delta, g2))
        by lia.
      split; [lia|]. split; assumption.
Qed.

Lemma adds_resume {A} (p : proc A) delta g u (w : world) :
  0 <= delta -> adds d delta g p ->
  t0 <= time_of (local w) d <= u -> fits t0 u g ->
  exists g',
    adds d delta g' (snd (resume p w))
    /\ let u' := u - due (delta, g) + due (delta, g') in
       u <= u' /\ t0 <= time_of (local (fst (resume p w))) d <= u' /\ fits t0 u' g'.
Proof.
  intros Hdelta Hadds Ht Hg. destruct p as [a|err|X e k]; cbn [resume].
  - exists g. split; [exact I|]. cbv zeta. cbn [fst].
    replace (u - due (delta, g) + due (delta, g)) with u by lia. auto with zarith.
  - exists g. split; [exact I|]. cbv zeta. cbn [fst].
    replace (u - due (delta, g) + due (delta, g)) with u by lia. auto with zarith.
  - destruct (adds_perform e k delta g u w Hdelta Hadds Ht Hg)
      as (g1 & Hadds1 & Hu1 & Ht1 & Hg1).
    destruct (perform e w) as [w1 x]. cbn [fst snd] in *.
    destruct (adds_advance (k x) delta g1 _ w1 Hdelta Hadds1 Ht1 Hg1)
      as (g2 & Hadds2 & Hu2 & Ht2 & Hg2).
    exists g2. split; [exact Hadds2|]. cbv zeta.
    replace (u - due (delta, g) + due (delta, g2))
      with (u - due (delta, g) + due (delta, g1) - due (delta, g1) + due (delta, g2))
      by lia.
    split; [lia|]. split; assumption.
Qed.


Lemma settled_cons a (gs : list account) : settled (a :: gs) = due a + settled gs.
Proof. reflexivity. Qed.

Lemma budget_cons a (gs : list account) : budget (a :: gs) = fst a + budget gs.
Proof. reflexivity. Qed.

Lemma settled_app (gs : list account) a : settled (gs ++ [a]) = settled gs + due a.
Proof.
  induction gs as [|b gs IH]; [cbn; lia|].
  change ((b :: gs) ++ [a]) with (b :: (gs ++ [a])). rewrite !settled_cons, IH. lia.
Qed.

Lemma budget_app (gs : list account) a : budget (gs ++ [a]) = budget gs + fst a.
Proof.
  induction gs as [|b gs IH]; [cbn; lia|].
  change ((b :: gs) ++ [a]) with (b :: (gs ++ [a])). rewrite !budget_cons, IH. lia.
Qed.

Lemma settled_insert (gs : list account) : forall i a a',
  gs !! i = Some a -> settled (<[i := a']> gs) = settled gs - due a + due a'.
Proof.
  induction gs as [|b gs IH]; intros i a a' Hi; [discriminate|].
  destruct i as [|i].
  - injection Hi as ->. change (<[0%nat := a']> (a :: gs)) with (a' :: gs).
    rewrite !settled_cons. lia.
  - change (<[S i := a']> (b :: gs)) with (b :: <[i := a']> gs).
    change ((b :: gs) !! S i) with (gs !! i) in Hi.
    rewrite !settled_cons, (IH i a a' Hi). lia.
Qed.

Lemma budget_insert (gs : list account) : forall i a a',
  gs !! i = Some a -> fst a' = fst a -> budget (<[i := a']> gs) = budget gs.
Proof.
  induction gs as [|b gs IH]; intros i a a' Hi Hfst; [discriminate|].
  destruct i as [|i].
  - injection Hi as ->. change (<[0%nat := a']> (a :: gs)) with (a' :: gs).
    rewrite !budget_cons. lia.
  - change (<[S i := a']> (b :: gs)) with (b :: <[i := a']> gs).
    change ((b :: gs) !! S i) with (gs !! i) in Hi.
    rewrite !budget_cons, (IH i a a' Hi Hfst). lia.
Qed.

Lemma settled_le_budget (gs : list account) :
  Forall (fun a => 0 <= fst a) gs -> 0 <= settled gs <= budget gs.
Proof.
  induction 1 as [|[delta g] gs Ha _ IH]; [cbn; lia|].
  rewrite settled_cons, budget_cons. unfold due. cbn [fst snd] in *. destruct g; lia.
Qed.

(** Starting a handler keeps the books in order. *)
Lemma in_order_start (gs : list account) (st : world * list (proc unit))
    (p : proc unit) delta :
  in_order d t0 gs st -> 0 <= delta -> adds d delta Unread p ->
  exists gs', in_order d t0 gs' (step (Start p) st) /\ budget gs' = budget gs + delta.
Proof.
  destruct st as [w pool]. intros (Hpool & Ht & Hfits) Hdelta Hadds. cbn [fst snd] in *.
  destruct (adds_advance p delta Unread _ w Hdelta Hadds Ht I) as (g' & Hadds' & Hu & Ht' & Hg').
  cbn [step]. destruct (advance p w) as [w' p']. cbn [fst snd] in *.
  replace (t0 + settled gs - due (delta, Unread) + due (delta, g'))
    with (t0 + settled (gs ++ [(delta, g')])) in * by (rewrite settled_app; cbn; lia).
  exists (gs ++ [(delta, g')]). split; [|apply budget_app].
  split; [|split]; cbn [fst snd].
  - apply Forall2_app; [exact Hpool|]. constructor; [|constructor]. auto.
  - exact Ht'.
  - apply Forall_app. split.
    + eapply Forall_impl; [exact Hfits|]. intros a. apply fits_le. lia.
    + constructor; [exact Hg'|constructor].
Qed.

(** Resuming a handler keeps the books in order. *)
Lemma in_order_resume (gs : list account) (st : world * list (proc unit)) i :
  in_order d t0 gs st ->
  exists gs', in_order d t0 gs' (step (Continue i) st) /\ budget gs' = budget gs.
Proof.
  destruct st as [w pool]. intros (Hpool & Ht & Hfits). cbn [fst snd] in *. cbn [step].
  destruct (pool !! i) as [p|] eqn:Hp;
    [|exists gs; split; [split; [exact Hpool|split; [exact Ht|exact Hfits]]|reflexivity]].
  destruct (Forall2_lookup_r _ _ _ _ _ Hpool Hp) as ([delta g] & Hg & Hdelta & Hadds).
  cbn [fst snd] in *.
  pose proof (Forall_lookup_1 _ _ _ _ Hfits Hg) as Hfit. cbn [snd] in Hfit.
  destruct (adds_resume p delta g _ w Hdelta Hadds Ht Hfit) as (g' & Hadds' & Hu & Ht' & Hg').
  destruct (resume p w) as [w' p']. cbn [fst snd] in *.
  pose proof (settled_insert gs i (delta, g) (delta, g') Hg) as Hset.
  set (gs' := <[i := ((delta, g') : account)]> gs) in *.
  replace (t0 + settled gs - due (delta, g) + due (delta, g'))
    with (t0 + settled gs') in * by lia.
  exists gs'.
  split; [|apply (budget_insert gs i (delta, g)); [exact Hg|reflexivity]].
  split; [|split]; cbn [fst snd].
  - apply Forall2_insert; [exact Hpool|]. cbn [fst snd]. auto.
  - exact Ht'.
  - apply Forall_insert; [|exact Hg'].
    eapply Forall_impl; [exact Hfits|]. intros a. apply fits_le. lia.
Qed.

End Books.

Section Handlers.
Variable URL_new : string -> option URL.

Lemma credited_nonneg d (c : callback) : 0 <= credited d c.
Proof.
  destruct c as [| |[[| |[d'|] deltaMs| | | | |]|] now|]; cbn [credited]; try lia.
  destruct (_ && _ && _) eqn:H; [|lia].
  apply andb_true_iff in H as [_ H]. apply Z.ltb_lt in H. lia.
Qed.

Lemma keep_lastShown t (l : local_storage) :
  domainStats (set_lastShownBreakThreshold t l) = domainStats l.
Proof. reflexivity. Qed.

Lemma adds_check_thresholds d g duration lastShown ts :
  adds d 0 g (check_thresholds duration lastShown ts).
Proof.
  induction ts as [|t ts IH]; cbn [check_thresholds]; [exact I|].
  destruct (_ && _); [|exact IH]. cbn. left. split; [reflexivity|exact I].
Qed.

(** The handlers of ticks, requests and idle changes add to the persisted
    time of [d] what the callback is credited with. *)
Lemma adds_body d (c : callback) :
  ~ is_focus_change c -> adds d (credited d c) Unread (body URL_new c).
Proof.
  intros Hc. destruct c as [now|t now|msg now|state]; cbn [body credited].
  - unfold periodicChecks, check_productive. cbn [bind trigger adds]. intros m0.
    assert (Hrest : forall g, adds d 0 g
              (bind (check_distracting now) (fun _ => persist_accumulated))).
    { intros g. unfold check_distracting. cbn [bind trigger adds]. intros m1.
      destruct (distractingStart m1); [destruct (negb _); [|destruct (_ >=? _)]|];
        cbn; intros m2; left; (split; [reflexivity|exact I]). }
    destruct (productiveSessionStart m0); [|apply Hrest].
    destruct (negb _); [apply Hrest|]. cbn [bind trigger adds]. intros s.
    induction checked_thresholds as [|t ts IH]; cbn [check_thresholds bind]; [apply Hrest|].
    destruct (_ && _); [|exact IH]. cbn [pushToAllTabs bind trigger adds].
    left. split; [reflexivity|]. apply Hrest.
  - exfalso. apply Hc. eexists _, _. reflexivity.
  - destruct msg as [[| |domain deltaMs|domain| | | |]|]; cbn [onMessage];
      try (cbn; auto; fail).
    unfold addDomainTime_handler.
    destruct domain as [d'|]; [|cbn; exact I].
    destruct (negb (truthyS (Some d')) || (orZ deltaMs 0 <=? 0)) eqn:Hrej; [cbn; exact I|].
    apply orb_false_iff in Hrej as [Hd' Hpos]. apply negb_false_iff in Hd'.
    apply Z.leb_gt in Hpos.
    unfold addDomainTime_store, loadPrefs. cbn [bind catch trigger adds]. intros l cm.
    assert (Hw : forall (e : entry) l',
               time e = Some (orZ (time (default blank_entry (stats l !! d'))) 0
                              + orZ deltaMs 0) ->
               time_of (set_domainStats (<[d' := e]> (stats l)) l') d =
               time_of l d + (if bool_decide (d' = d) && truthyS (Some d')
                                 && (0 <? orZ deltaMs 0)
                              then orZ deltaMs 0 else 0)).
    { intros e l' He. unfold time_of. rewrite stats_set_domainStats.
      replace (0 <? orZ deltaMs 0) with true by (symmetry; apply Z.ltb_lt; exact Hpos).
      rewrite Hd'. cbn [andb]. destruct (decide (d' = d)) as [->|Hne].
      - rewrite bool_decide_true, lookup_insert_eq by reflexivity.
        cbn [mbind option_bind]. rewrite He, orZ_Some_0.
        destruct (stats l !! d) as [e0|]; reflexivity.
      - rewrite bool_decide_false, lookup_insert_ne by exact Hne. cbn [andb]. lia. }
    destruct (getCategoryForUrl URL_new _ _) as [cat|err];
      cbn [lift bind catch trigger adds sendResponse];
      (right; eexists; split; [reflexivity|]; split; [|exact I]);
      intros l'; apply Hw; reflexivity.
  - cbn. exact I.
Qed.

Lemma in_order_outset d (w : world) : in_order d (time_of (local w) d) [] (w, []).
Proof. split; [constructor|]. split; [cbn; lia|constructor]. Qed.

(** However the handlers of ticks, requests and idle changes overlap, the
    books stay in order. *)
Lemma in_order_scheduled d t0 (ts : list turn) :
  forall (gs : list account) (st : world * list (proc unit)),
  Forall (fun c => ~ is_focus_change c) (begun ts) ->
  in_order d t0 gs st ->
  exists gs', in_order d t0 gs' (interleave (map (to_action URL_new) ts) st)
              /\ budget gs' = budget gs + credited_all d (begun ts).
Proof.
  induction ts as [|t ts IH]; intros gs st Hts Hin.
  - exists gs. split; [exact Hin|]. cbn. lia.
  - destruct t as [c|i]; cbn [map to_action interleave fold_left].
    + change (begun (Begin c :: ts)) with (c :: begun ts) in *.
      change (credited_all d (c :: begun ts))
        with (credited d c + credited_all d (begun ts)).
      inversion Hts as [|? ? Hc Hrest]; subst.
      destruct (in_order_start d t0 gs st (body URL_new c) (credited d c) Hin
                  (credited_nonneg d c) (adds_body d c Hc)) as (gs1 & Hin1 & Hb1).
      destruct (IH gs1 _ Hrest Hin1) as (gs2 & Hin2 & Hb2).
      exists gs2. split; [exact Hin2|]. lia.
    + change (begun (Resume i :: ts)) with (begun ts) in *.
      destruct (in_order_resume d t0 gs st i Hin) as (gs1 & Hin1 & Hb1).
      destruct (IH gs1 _ Hts Hin1) as (gs2 & Hin2 & Hb2).
      exists gs2. split; [exact Hin2|]. lia.
Qed.

Lemma time_scheduled d (ts : list turn) (w : world) :
  Forall (fun c => ~ is_focus_change c) (begun ts) ->
  time_of (local w) d <= time_of (local (scheduled URL_new ts w)) d
  <= time_of (local w) d + credited_all d (begun ts).
Proof.
  intros Hts.
  destruct (in_order_scheduled d _ ts [] (w, []) Hts (in_order_outset d w))
    as (gs & (Hpool & Ht & _) & Hb).
  unfold scheduled.
  assert (Hle : 0 <= settled gs <= budget gs).
  { apply settled_le_budget. clear -Hpool.
    induction Hpool as [|a p gs pool [Ha _] _ IH]; constructor; auto. }
  cbn [budget foldr] in Hb. lia.
Qed.

(** X3: however the handlers of timer ticks, requests and idle changes are
    started and resumed, overlapping or not, the persisted time of a domain
    is never below what it was at the outset and never above that plus the
    sum of the deltas of the accepted [addDomainTime] requests for the
    domain: nothing else adds to it, and no report of another domain is
    credited to it.  When the handlers take turns, each running to its end
    before the next is started, it is exactly that sum. *)
Theorem persisted_time_within_reports d (ts : list turn) (n : nat) (w : world) :
  Forall (fun c => ~ is_focus_change c) (begun ts) -> (MAX_AWAITS <= n)%nat ->
  time_of (local w) d <= time_of (local (scheduled URL_new ts w)) d
    <= time_of (local w) d + credited_all d (begun ts)
  /\ time_of (local (scheduled URL_new (in_turn n 0 (begun ts)) w)) d
     = time_of (local w) d + credited_all d (begun ts).
Proof.
  intros Hts Hn. split; [apply time_scheduled, Hts|].
  rewrite scheduled_in_turn by exact Hn. apply time_run_all, Hts.
Qed.

(** X4: when the handlers take turns, each running to its end before the
    next is started: between two focus changes, the tab made active at
    [t1] is credited with the wall-clock time [t2 - t1] by the second
    focus change, on top of every delta its page reported through
    [addDomainTime] in between, so that the seconds the page reported are
    in the persisted time twice; every other domain only gets what was
    reported for it. *)
Theorem focus_interval_attributed id url u t1 (cs : list callback) t' t2 (n : nat)
    (w : world) :
  url <> EmptyString -> URL_new url = Some u -> hostname u <> EmptyString -> t1 <> 0 ->
  Forall (fun c => ~ is_focus_change c) cs -> (MAX_AWAITS <= n)%nat ->
  let opened := FocusChange (Some {| tab_id := id; tab_url := Some url |}) t1 in
  let w1 := scheduled URL_new (in_turn n 0 [opened]) w in
  let w3 := scheduled URL_new (in_turn n 0 (opened :: cs ++ [FocusChange t' t2])) w in
  time_of (local w3) (hostname u) =
    time_of (local w1) (hostname u) + credited_all (hostname u) cs + (t2 - t1)
  /\ forall d, d <> hostname u ->
       time_of (local w3) d = time_of (local w1) d + credited_all d cs.
Proof.
  intros Hurl Hu Hh Ht1 Hcs Hn. cbv zeta. rewrite !scheduled_in_turn by exact Hn.
  cbn [run_all]. rewrite run_all_app. cbn [run_all].
  exact (focus_interval_time URL_new id url u t1 cs t' t2 w Hurl Hu Hh Ht1 Hcs).
Qed.

End Handlers.
End OverlapFacts.

(** * From the page's reports to the worker's storage *)

Module PipelineFacts.
Import Monitor Pipeline Overlap.

Section WithURL.
Variable URL_new : string -> option URL.

Lemma delivered_accepted d (rs : list (option string * Z)) (cs : list callback) :
  delivered rs cs -> Forall (batch (Some d)) rs ->
  credited_all d cs = total rs
  /\ Forall (fun c => ~ is_focus_change c) cs
  /\ forall w, emitted_all URL_new cs w = replicate (length rs) (Respond (ok true)).
Proof.
  intros Hd. induction Hd as [|r c rs cs (now & ->) _ IH]; intros Hb.
  - split; [reflexivity|]. split; [constructor|]. intros w. unfold emitted_all.
    cbn [run_all]. apply drop_all.
  - inversion Hb as [|? ? (Hfst & Ht & Hr & _) Hb']; subst.
    destruct (IH Hb') as (IH1 & IH2 & IH3). destruct r as [dom delta].
    cbn [fst snd] in *. subst dom.
    assert (Hpos : 0 < orZ (Some delta) 0) by (rewrite orZ_Some_0; lia).
    split; [|split].
    + cbn [credited_all foldr credited request_of fst snd total].
      fold (credited_all d cs) (total rs). rewrite IH1, Ht, bool_decide_true by reflexivity.
      replace (0 <? orZ (Some delta) 0) with true by (symmetry; apply Z.ltb_lt; exact Hpos).
      cbn [andb]. rewrite orZ_Some_0. reflexivity.
    + constructor; [|exact IH2]. intros (t & n & H). discriminate H.
    + intros w. rewrite emitted_all_cons, IH3. cbn [length replicate].
      rewrite (emitted_of _ w [Respond (ok true)]); [reflexivity|].
      cbn [body onMessage request_of fst snd].
      rewrite (run_addDomainTime_accepted URL_new d (Some delta) now w Ht Hpos).
      reflexivity.
Qed.

(** X23: what the worker persists for the reports of a page never exceeds
    what the page counted.  The reports of a tidy monitor on a page of
    domain [d], while no answer to [getDomainTime] reaches the page, are
    delivered to the worker in order, and nothing but their handlers runs
    there.  However the handlers overlap, the persisted time of [d] grows
    by no more than the monitor added to its base time (and does not
    shrink); when the handlers take turns it grows by exactly that, and
    every report is answered [{ok: true}]. *)
Theorem reports_are_persisted d (os : list occurrence) (s : state)
    (cs : list callback) (ts : list turn) (n : nat) (w : world) :
  tidy s ->
  Content.currentDomain (vars s) = Some d ->
  Forall (fun o => ~ is_domainInfo o) os ->
  delivered (reported_by os s) cs ->
  begun ts = cs -> (MAX_AWAITS <= n)%nat ->
  let counted := Content.baseDomainTimeMs (vars (occur_all os s))
                 - Content.baseDomainTimeMs (vars s) in
  let taking_turns := scheduled URL_new (in_turn n 0 cs) w in
  0 <= time_of (local (scheduled URL_new ts w)) d - time_of (local w) d <= counted
  /\ time_of (local taking_turns) d - time_of (local w) d = counted
  /\ drop (length (sent w)) (sent taking_turns) = replicate (length cs) (Respond (ok true)).
Proof.
  intros Ht Hd Hos Hdel Hts Hn. cbv zeta.
  destruct (MonitorFacts.accounted_occur_all os s Hos) as (new & (Hr & Hb & _) & Hbatch).
  rewrite (MonitorFacts.reported_by_of os s new Hr) in Hdel.
  specialize (Hbatch Ht). rewrite Hd in Hbatch.
  destruct (delivered_accepted d new cs Hdel Hbatch) as (Hc & Hnf & Hem).
  rewrite (OverlapFacts.scheduled_in_turn URL_new n cs w Hn).
  rewrite (time_run_all URL_new d cs w Hnf), Hc, Hb.
  split; [|split].
  - pose proof (OverlapFacts.time_scheduled URL_new d ts w) as Hbound.
    rewrite Hts, Hc in Hbound. specialize (Hbound Hnf). lia.
  - lia.
  - fold (emitted_all URL_new cs w). rewrite Hem. f_equal. eapply Forall2_length, Hdel.
Qed.

End WithURL.

End PipelineFacts.

(** * Precedence among categories *)

Module PriorityFacts.
Import Priority.

Section WithURL.
Variable URL_new : string -> option URL.

Lemma scan_patterns_hit host url patterns :
  scan_patterns host url patterns = existsb (hit host url) patterns.
Proof.
  induction patterns as [|p rest IH]; [reflexivity|].
  cbn [scan_patterns existsb]. unfold hit at 1.
  destruct (truthyS (Some p)); cbn [negb andb orb]; [|exact IH].
  destruct (includes host p || includes url p); [reflexivity|exact IH].
Qed.

Lemma scan_entries_matches host url entries :
  matches host url entries = match scan_entries host url entries with
                             | Some _ => true
                             | None => false
                             end.
Proof.
  induction entries as [|[cat patterns] rest IH]; [reflexivity|].
  cbn [matches existsb scan_entries snd]. rewrite scan_patterns_hit.
  destruct (existsb (hit host url) patterns); [reflexivity|exact IH].
Qed.

Lemma scan_entries_app host url e1 e2 :
  scan_entries host url (e1 ++ e2) =
  match scan_entries host url e1 with
  | Some c => Some c
  | None => scan_entries host url e2
  end.
Proof.
  induction e1 as [|[cat patterns] rest IH]; [reflexivity|].
  cbn [app scan_entries]. destruct (scan_patterns host url patterns); [reflexivity|exact IH].
Qed.

(** X24: categories are tried in the order of the map.  For a URL that
    parses, the categories placed first decide alone as soon as one of
    their non-empty patterns occurs in host+path or in the URL, whatever
    follows them; and when none of theirs occurs they can be dropped
    without changing the result. *)
Theorem earlier_categories_decide url u (entries more : categoryMap) :
  URL_new url = Some u ->
  let host := (hostname u ++ pathname u)%string in
  (matches host url entries = true ->
   getCategoryForUrl URL_new url (Some (entries ++ more)) =
   getCategoryForUrl URL_new url (Some entries))
  /\ (matches host url entries = false ->
      getCategoryForUrl URL_new url (Some (entries ++ more)) =
      getCategoryForUrl URL_new url (Some more)).
Proof.
  intros Hu. cbv zeta. rewrite !(getCategoryForUrl_parsed URL_new url u _ Hu).
  rewrite scan_entries_app, scan_entries_matches.
  destruct (scan_entries _ url entries); split; intros H; first [reflexivity|discriminate H].
Qed.

(** X25: in the default map the pattern [docs.google.com] of the category
    productive never decides: the same pattern stands under school, which
    comes first, so taking it out of productive changes the category of no
    URL. *)
Theorem productive_docs_pattern_is_shadowed url :
  getCategoryForUrl URL_new url (Some DEFAULT_CATEGORY_MAP) =
  getCategoryForUrl URL_new url (Some DEFAULT_WITHOUT_PRODUCTIVE_DOCS).
Proof.
  destruct (URL_new url) as [u|] eqn:Hu.
  - rewrite !(getCategoryForUrl_parsed URL_new url u _ Hu). f_equal. f_equal.
    set (host := (hostname u ++ pathname u)%string).
    unfold DEFAULT_CATEGORY_MAP, DEFAULT_WITHOUT_PRODUCTIVE_DOCS.
    cbn [scan_entries scan_patterns truthyS negb].
    repeat match goal with
           | |- context [includes host ?p || includes url ?p] =>
               destruct (includes host p || includes url p); try reflexivity
           end.
  - rewrite !(getCategoryForUrl_unparsed URL_new url _ Hu). reflexivity.
Qed.

End WithURL.

End PriorityFacts.

(** * The category editor of the options page *)

Module OptionsFacts.
Import Options.

Section WithTrim.
Variable trim : string -> string.

Lemma truthyS_nonempty (s : string) : truthyS (Some s) = true <-> s <> EmptyString.
Proof. destruct s; cbn; split; congruence. Qed.

Lemma filter_truthy (l : list string) :
  Forall (fun p => p <> EmptyString) (filter (fun d => truthyS (Some d) = true) l).
Proof.
  induction l as [|x l IH]; [constructor|].
  destruct (decide (truthyS (Some x) = true)) as [Hx|Hx].
  - rewrite filter_cons_True by exact Hx. constructor; [apply truthyS_nonempty, Hx|exact IH].
  - rewrite filter_cons_False by exact Hx. exact IH.
Qed.



Lemma assign_keys name domains (entries : categoryMap) :
  map fst (assign name domains entries) =
  if bool_decide (name ∈ map fst entries) then map fst entries
  else map fst entries ++ [name].
Proof.
  induction entries as [|[k v] rest IH]; [reflexivity|].
  cbn [assign map fst]. destruct (String.eqb_spec k name) as [->|Hk].
  - rewrite bool_decide_true by (apply elem_of_cons; auto). reflexivity.
  - cbn [map fst]. rewrite IH. case_bool_decide as Hin.
    + rewrite bool_decide_true by (apply elem_of_cons; auto). reflexivity.
    + rewrite bool_decide_false; [reflexivity|].
      intros H. apply elem_of_cons in H as [H|H]; congruence.
Qed.

Lemma assign_Forall (P : string * list string -> Prop) name domains entries :
  Forall P entries -> P (name, domains) -> Forall P (assign name domains entries).
Proof.
  intros HP Hn. induction HP as [|[k v] rest Hkv Hrest IH]; cbn [assign].
  - constructor; [exact Hn|constructor].
  - destruct (String.eqb_spec k name) as [->|_]; constructor; auto.
Qed.

Lemma well_formed_assign name domains (entries : categoryMap) :
  well_formed entries -> name <> EmptyString -> domains <> [] ->
  Forall (fun p => p <> EmptyString) domains ->
  well_formed (assign name domains entries).
Proof.
  intros [HF HN] Hname Hd Hp. split.
  - apply assign_Forall; [exact HF|]. cbn [fst snd]. auto.
  - rewrite assign_keys. case_bool_decide as Hin; [exact HN|].
    apply NoDup_app. split; [exact HN|]. split; [|apply NoDup_singleton].
    intros x Hx Hx'. apply list_elem_of_singleton in Hx'. congruence.
Qed.

Lemma well_formed_collect (entries : categoryMap) (it : item) :
  well_formed entries -> well_formed (collect trim entries it).
Proof.
  intros Hwf. unfold collect.
  destruct (truthyS (Some (trim (name_value it)))) eqn:Hn; cbn [andb]; [|exact Hwf].
  destruct (0 <? length (domains_of trim it))%nat eqn:Hl; [|exact Hwf].
  apply well_formed_assign; [exact Hwf|apply truthyS_nonempty, Hn| |apply filter_truthy].
  apply Nat.ltb_lt in Hl. intros H. rewrite H in Hl. cbn in Hl. lia.
Qed.

Lemma well_formed_fold (items : list item) : forall entries,
  well_formed entries -> well_formed (fold_left (collect trim) items entries).
Proof.
  induction items as [|it items IH]; intros entries H; cbn [fold_left]; [exact H|].
  apply IH, well_formed_collect, H.
Qed.

Lemma no_empty_pattern (entries : categoryMap) :
  well_formed entries -> Forall (fun cp => snd cp <> EmptyString) (flatten entries).
Proof.
  intros [HF _]. unfold flatten. induction HF as [|[cat ps] rest (_ & _ & Hp) _ IH];
    cbn [flat_map]; [constructor|].
  apply Forall_app. split; [|exact IH]. cbn [snd] in Hp.
  induction Hp; cbn [map]; constructor; auto.
Qed.

Lemma well_formed_perm (entries entries' : categoryMap) :
  entries ≡ₚ entries' -> well_formed entries -> well_formed entries'.
Proof.
  intros Hp [HF HN]. split.
  - rewrite <- Hp. exact HF.
  - rewrite <- Hp. exact HN.
Qed.

Section Classified.
Variable URL_new : string -> option URL.

Lemma find_hit_plain host url (l : list (string * string)) :
  Forall (fun cp => snd cp <> EmptyString) l ->
  find (fun cp => hit host url (snd cp)) l =
  find (fun cp => includes host (snd cp) || includes url (snd cp)) l.
Proof.
  induction 1 as [|[c p] l Hp _ IH]; [reflexivity|]. cbn [find snd] in *.
  unfold hit at 1. replace (truthyS (Some p)) with true
    by (symmetry; apply truthyS_nonempty, Hp).
  cbn [andb]. rewrite IH. reflexivity.
Qed.

(** X26: whatever stands in the category editor, the map the save handler
    stores is well formed: no category has an empty name or no patterns,
    no pattern is empty, and no name occurs twice.  The classifier
    therefore never has an empty pattern to skip on a saved map: in
    whatever order the engine enumerates it, the category of a URL that
    parses is that of the first pattern that occurs in host+path or in
    the URL, and ["other"] when none does. *)
Theorem saved_map_is_well_formed (items : list item) :
  well_formed (save_categories trim items)
  /\ forall (entries : categoryMap) url u c,
       save_categories trim items ≡ₚ entries -> URL_new url = Some u ->
       (getCategoryForUrl URL_new url (Some entries) = Normal c <->
        first_match (pattern_matches (Some (hostname u ++ pathname u)%string) url)
          (flatten entries) c).
Proof.
  assert (Hwf : well_formed (save_categories trim items)).
  { apply well_formed_fold. split; constructor. }
  split; [exact Hwf|]. intros entries url u c Hp Hu.
  pose proof (no_empty_pattern entries (well_formed_perm _ _ Hp Hwf)) as Hne.
  rewrite (getCategoryForUrl_parsed URL_new url u entries Hu), scan_entries_find.
  rewrite (find_hit_plain _ _ _ Hne).
  rewrite (first_match_find URL_new
             (pattern_matches (Some (hostname u ++ pathname u)%string) url)
             (fun p => includes (hostname u ++ pathname u)%string p || includes url p)).
  - destruct (find _ _) as [cp|]; cbn; split; congruence.
  - intros p. unfold pattern_matches. rewrite orb_true_iff, !includes_occurs. split.
    + intros [H|H]; [left; eauto|right; exact H].
    + intros [[h [[= <-] H]]|H]; auto.
Qed.

End Classified.







End WithTrim.

End OptionsFacts.

(** * What the worker can have stored *)

Module StoredFacts.
Import Worker Stored.

Lemma careful_bind {A B} (p : proc A) (f : A -> proc B) :
  careful p -> (forall a, careful (f a)) -> careful (bind p f).
Proof.
  intros Hp Hf. induction p as [a|err|X e k IH]; cbn [bind careful] in *; auto.
  destruct e; cbn in *; intuition auto.
Qed.

Lemma careful_catch {A} (p : proc A) (h : string -> proc A) :
  careful p -> (forall err, careful (h err)) -> careful (catch p h).
Proof.
  intros Hp Hh. induction p as [a|err|X e k IH]; cbn [catch careful] in *; auto.
  destruct e; cbn in *; intuition auto.
Qed.

Lemma careful_advance {A} (p : proc A) : forall w,
  careful p -> spotless w ->
  spotless (fst (advance p w)) /\ careful (snd (advance p w)).
Proof.
  induction p as [a|err|X e k IH]; intros w Hp Hw; cbn [advance]; auto.
  destruct e; cbn [awaited]; auto; cbn [perform]; cbn [careful] in Hp.
  - destruct Hp as [Hupd Hk]. apply IH; [exact Hk|].
    destruct Hw as [Hc Hn]. split; [apply Hupd, Hc|exact Hn].
  - apply IH; [apply Hp|exact Hw].
  - apply IH; [exact Hp|exact Hw].
  - apply IH; [exact Hp|exact Hw].
Qed.

Lemma careful_resume {A} (p : proc A) w :
  careful p -> spotless w ->
  spotless (fst (resume p w)) /\ careful (snd (resume p w)).
Proof.
  intros Hp Hw. destruct p as [a|err|X e k]; cbn [resume]; auto.
  cbn [careful] in Hp. destruct Hw as [Hc Hn].
  destruct e; cbn [perform]; apply careful_advance; try (split; assumption);
    try (apply Hp; assumption); try (destruct Hp; assumption).
  - split; [|exact Hn]. destruct Hp as [Hupd _]. apply Hupd, Hc.
  - split; [|exact Hn]. destruct Hp as [Hupd _]. apply Hupd, Hc.
Qed.

Lemma careful_run {A} (p : proc A) : forall w,
  careful p -> spotless w -> spotless (fst (run p w)).
Proof.
  induction p as [a|err|X e k IH]; intros w Hp Hw; cbn [run]; auto.
  cbn [careful] in Hp. destruct Hw as [Hc Hn].
  destruct e; cbn [perform]; apply IH; try (split; assumption);
    try (apply Hp; assumption); try (destruct Hp; assumption).
  - split; [|exact Hn]. destruct Hp as [Hupd _]. apply Hupd, Hc.
  - split; [|exact Hn]. destruct Hp as [Hupd _]. apply Hupd, Hc.
Qed.


Lemma careful_step (a : action) (st : world * list (proc unit)) :
  starts_careful a -> spotless (fst st) -> Forall careful (snd st) ->
  spotless (fst (step a st)) /\ Forall careful (snd (step a st)).
Proof.
  destruct st as [w pool]. intros Ha Hw Hpool. cbn [fst snd] in *.
  destruct a as [p|i]; cbn [step starts_careful] in *.
  - pose proof (careful_advance p w Ha Hw) as [H1 H2].
    destruct (advance p w) as [w' p']. cbn [fst snd] in *. split; [exact H1|].
    apply Forall_app. split; [exact Hpool|]. constructor; [exact H2|constructor].
  - destruct (pool !! i) as [p|] eqn:Hp; [|auto].
    assert (Hcp : careful p) by (eapply Forall_lookup_1; eauto).
    pose proof (careful_resume p w Hcp Hw) as [H1 H2].
    destruct (resume p w) as [w' p']. cbn [fst snd] in *. split; [exact H1|].
    apply Forall_insert; assumption.
Qed.

Lemma careful_interleave (acts : list action) : forall st,
  Forall starts_careful acts -> spotless (fst st) -> Forall careful (snd st) ->
  spotless (fst (interleave acts st)) /\ Forall careful (snd (interleave acts st)).
Proof.
  induction acts as [|a acts IH]; intros st Ha Hw Hpool; cbn [interleave fold_left];
    [auto|].
  inversion Ha as [|? ? Ha1 Ha2]; subst.
  destruct (careful_step a st Ha1 Hw Hpool) as [H1 H2]. apply IH; assumption.
Qed.

Section Handlers.
Variable URL_new : string -> option URL.

Lemma scan_entries_named host url (entries : categoryMap) c :
  named entries -> scan_entries host url entries = Some c -> c <> EmptyString.
Proof.
  induction 1 as [|[cat ps] rest Hcat _ IH]; cbn [scan_entries]; [discriminate|].
  destruct (scan_patterns host url ps); [|exact IH]. intros [= <-]. exact Hcat.
Qed.

Lemma getCategoryForUrl_named url (entries : categoryMap) c :
  named entries -> getCategoryForUrl URL_new url (Some entries) = Normal c ->
  c <> EmptyString.
Proof.
  intros Hn. unfold getCategoryForUrl, getCategoryForUrl_try, new_URL.
  destruct (URL_new url) as [u|]; cbn [cbind try_catch Object_entries].
  - destruct (scan_entries _ url entries) as [cat|] eqn:Hs.
    + intros [= <-]. eapply scan_entries_named; eauto.
    + intros [= <-]. discriminate.
  - intros [= <-]. discriminate.
Qed.

Lemma categorised_insert (l l0 : local_storage) d (e : entry) :
  categorised l0 -> category e <> Some EmptyString ->
  categorised (set_domainStats (<[d := e]> (stats l0)) l).
Proof.
  intros Hl He d' e'. unfold stats at 1. cbn [set_domainStats domainStats from_option id].
  destruct (decide (d = d')) as [->|Hne].
  - rewrite lookup_insert_eq. intros [= <-]. exact He.
  - rewrite lookup_insert_ne by exact Hne. apply Hl.
Qed.

Lemma careful_saveDomainTime domain cat delta : careful (saveDomainTime domain cat delta).
Proof.
  unfold saveDomainTime. destruct domain as [d|]; [|exact I].
  destruct (negb _); [exact I|]. cbn. intros l Hl. split; [|exact I].
  intros l' _. apply categorised_insert; [exact Hl|].
  unfold save_time, orS. cbn [category].
  destruct (truthyS cat) eqn:Hc.
  - destruct cat as [[|]|]; cbn in Hc; congruence.
  - destruct (stats l !! d) as [e|] eqn:He; cbn [from_option id category].
    + eapply Hl; eauto.
    + discriminate.
Qed.

Lemma careful_loadPrefs_then {A} (f : prefs -> proc A) :
  (forall cm, named (map_in_force cm) ->
     careful (f {| prefs_categoryMap := Some (map_in_force cm);
                   breakThresholds := BREAK_THRESHOLDS |})) ->
  careful (bind loadPrefs f).
Proof. intros H. cbn. exact H. Qed.

Lemma careful_classified {A} url (entries : categoryMap) (f : string -> proc A) :
  (forall c, c <> EmptyString -> careful (f c)) -> named entries ->
  careful (bind (lift (getCategoryForUrl URL_new url (Some entries))) f).
Proof.
  intros Hf Hn. destruct (getCategoryForUrl URL_new url (Some entries)) as [c|err] eqn:Hc;
    cbn [lift bind]; [|exact I].
  apply Hf. eapply getCategoryForUrl_named; eauto.
Qed.

Lemma careful_close_interval now : careful (close_interval URL_new now).
Proof.
  unfold close_interval. cbn [bind trigger careful]. intros m0.
  destruct (_ && _); [|exact I].
  apply careful_loadPrefs_then. intros cm Hn. cbn [bind trigger careful]. intros m1.
  cbn [prefs_categoryMap].
  apply careful_bind; [|intros cat; apply careful_bind;
                         [apply careful_saveDomainTime|intros _; exact I]].
  destruct (truthyS (activeCategory m1)); [exact I|].
  apply careful_classified; [intros; exact I|exact Hn].
Qed.

Lemma careful_open_interval t now : careful (open_interval URL_new t now).
Proof.
  unfold open_interval. destruct t as [[id [url|]]|]; try exact I.
  destruct (negb _); [exact I|]. cbn [bind trigger careful].
  apply careful_bind; [destruct (new_URL URL_new url); exact I|]. intros u.
  cbn [bind trigger careful]. apply careful_loadPrefs_then. intros cm Hn.
  cbn [prefs_categoryMap]. apply careful_classified; [|exact Hn].
  intros c _. cbn. intros m. exact I.
Qed.

Lemma careful_handleTabChange t now : careful (handleTabChange URL_new t now).
Proof.
  apply careful_bind; [apply careful_close_interval|].
  intros _. apply careful_open_interval.
Qed.

Lemma categorised_stats (l l' : local_storage) :
  domainStats l' = domainStats l -> categorised l -> categorised l'.
Proof. intros H Hl d e. unfold stats. rewrite H. apply Hl. Qed.

Lemma careful_check_thresholds d ls ts : careful (check_thresholds d ls ts).
Proof.
  induction ts as [|t ts IH]; cbn [check_thresholds]; [exact I|].
  destruct (_ && _); [|exact IH]. cbn. split; [|exact I].
  intros l. apply categorised_stats. reflexivity.
Qed.

Lemma careful_periodicChecks now : careful (periodicChecks now).
Proof.
  unfold periodicChecks. apply careful_bind; [|intros _; apply careful_bind].
  - unfold check_productive. cbn [bind trigger careful]. intros m0.
    destruct (productiveSessionStart m0) as [start|]; [|exact I].
    destruct (negb _); [exact I|]. cbn [bind trigger careful]. intros s _.
    apply careful_check_thresholds.
  - unfold check_distracting. cbn [bind trigger careful]. intros m1.
    destruct (distractingStart m1) as [start|]; [|exact I].
    destruct (negb _); [exact I|]. destruct (_ >=? _); exact I.
  - intros _. cbn. intros m2. split; [|exact I].
    intros l. apply categorised_stats. reflexivity.
Qed.

Lemma careful_addDomainTime_store d delta now :
  careful (addDomainTime_store URL_new d delta now).
Proof.
  unfold addDomainTime_store. cbn [bind trigger careful]. intros l Hl.
  assert (H1 : category (add_time delta now (default blank_entry (stats l !! d)))
               <> Some EmptyString).
  { cbn [add_time category]. destruct (stats l !! d) as [e|] eqn:He;
      cbn [from_option id]; [eapply Hl; eauto|discriminate]. }
  unfold loadPrefs. cbn [bind catch trigger careful prefs_categoryMap]. intros cm Hn.
  fold (map_in_force cm).
  destruct (getCategoryForUrl URL_new _ (Some (map_in_force cm))) as [c|err] eqn:Hc;
    cbn [lift bind catch trigger careful].
  - split; [|exact I]. intros l' _. apply categorised_insert; [exact Hl|].
    unfold fill_category, orS. cbn [category]. destruct (truthyS _); [exact H1|].
    intros [= ->]. eapply getCategoryForUrl_named; eauto.
  - split; [|exact I]. intros l' _. apply categorised_insert; [exact Hl|exact H1].
Qed.

Lemma careful_onMessage msg now : careful (onMessage URL_new msg now).
Proof.
  destruct msg as [[| | | | | | |]|]; cbn [onMessage]; try exact I.
  - cbn. split; [|exact I]. intros l. apply categorised_stats. reflexivity.
  - unfold addDomainTime_handler. apply careful_catch; [|intros; exact I].
    destruct domain as [d|]; [|exact I]. destruct (_ || _); [exact I|].
    apply careful_addDomainTime_store.
  - cbn. intros l _. exact I.
  - cbn. intros l _ m. exact I.
Qed.

Lemma careful_body (c : callback) : careful (body URL_new c).
Proof.
  destruct c; cbn [body].
  - apply careful_periodicChecks.
  - apply careful_handleTabChange.
  - apply careful_onMessage.
  - exact I.
Qed.

Lemma careful_onInstalled : careful onInstalled.
Proof.
  unfold onInstalled, loadPrefs. cbn. intros cm _. split; [|exact I].
  intros l. apply categorised_stats. reflexivity.
Qed.

Lemma careful_detached (p : proc unit) : careful p -> careful (detached p).
Proof. intros Hp. apply careful_catch; [exact Hp|intros; exact I]. Qed.

Lemma careful_handler (p : proc unit) : handler URL_new p -> careful p.
Proof.
  intros [[c ->]|[->|[(tabs & now & ->)|[(active & status & t & now & ->)
          |[(windowId & tabs & now & ->)|(got & now & ->)]]]]].
  - apply careful_body.
  - apply careful_onInstalled.
  - unfold onStartup. cbn [bind trigger careful]. intros l _.
    destruct tabs; [exact I|]. apply careful_detached, careful_handleTabChange.
  - unfold onUpdated. destruct (_ && _); [|exact I].
    apply careful_detached, careful_handleTabChange.
  - unfold onFocusChanged. destruct (_ =? _); [apply careful_handleTabChange|].
    destruct tabs; [exact I|]. apply careful_detached, careful_handleTabChange.
  - unfold onActivated. destruct got; [|exact I].
    apply careful_detached, careful_handleTabChange.
Qed.

(** Nothing the worker runs stores an empty category: its handlers, started
    and resumed in any order, keep a spotless world spotless. *)
Lemma spotless_kept (acts : list action) (w : world) :
  Forall (worker_action URL_new) acts ->
  spotless w -> spotless (fst (interleave acts (w, []))).
Proof.
  intros Hacts Hw. apply careful_interleave; [|exact Hw|constructor].
  eapply Forall_impl; [exact Hacts|]. intros [p|i]; cbn; [|auto].
  apply careful_handler.
Qed.

(** A storage in which the worker has stored nothing yet has no empty
    category, and neither the default map nor a map saved by the options
    page has an empty name. *)
Lemma categorised_fresh (l : local_storage) : domainStats l = None -> categorised l.
Proof. intros H d e. unfold stats. rewrite H. cbn. rewrite lookup_empty. discriminate. Qed.

Lemma default_map_named : named (map_in_force None).
Proof. repeat constructor; discriminate. Qed.

(** C10: in every world the worker reaches, by handlers started and resumed
    in any order, from a storage without an empty category (an empty
    storage is one) under a category map without an empty name (the
    default map and every map the options page saves are such), an
    [addDomainTime] request for a domain whose stored entry has a category
    that is not [null] leaves the entry with the category it had, whatever
    the domain would now be classified as.  The request assigns the
    category only while there is none: an accepted request then stores the
    classification of [https://<domain>]. *)
Theorem addDomainTime_keeps_category (acts : list action) (w0 : world) d deltaMs now :
  spotless w0 -> Forall (worker_action URL_new) acts ->
  let w := fst (interleave acts (w0, [])) in
  let w' := fst (run (onMessage URL_new (Some (addDomainTime (Some d) deltaMs)) now) w) in
  (forall e : entry,
     stats (local w) !! d = Some e -> category e <> None ->
     category <$> stats (local w') !! d = Some (category e))
  /\ (stats (local w) !! d ≫= category = None ->
      truthyS (Some d) = true -> 0 < orZ deltaMs 0 ->
      stats (local w') !! d ≫= category = Some (domain_category URL_new w d)).
Proof.
  intros Hw0 Hacts w. cbv zeta.
  destruct (spotless_kept acts w0 Hacts Hw0) as [Hc _]. fold w in Hc. clearbody w.
  cbn [onMessage]. split.
  - intros e He Hcat.
    destruct (category e) as [c|] eqn:Hce; [|congruence].
    assert (Hne : c <> EmptyString) by (intros ->; exact (Hc d e He Hce)).
    destruct (decide (truthyS (Some d) = true /\ 0 < orZ deltaMs 0)) as [[Hd Hn]|Hno].
    + rewrite run_addDomainTime_accepted by assumption. cbn [fst].
      unfold stats at 1.
      cbn [add_sent set_local set_domainStats local domainStats from_option id].
      rewrite lookup_insert_eq. cbn [fmap option_fmap option_map]. f_equal.
      rewrite He. cbn [from_option id]. apply fill_category_kept; assumption.
    + rewrite run_addDomainTime_rejected.
      * cbn [fst add_sent local]. rewrite He. cbn. rewrite Hce. reflexivity.
      * destruct (truthyS (Some d)); [right; lia | left; reflexivity].
  - intros Hnone Hd Hn. rewrite run_addDomainTime_accepted by assumption. cbn [fst].
    unfold stats at 1.
    cbn [add_sent set_local set_domainStats local domainStats from_option id].
    rewrite lookup_insert_eq. cbn [mbind option_bind fill_category category add_time].
    destruct (stats (local w) !! d) as [e|]; cbn [mbind option_bind from_option id] in *.
    + rewrite Hnone. reflexivity.
    + reflexivity.
Qed.
End Handlers.

Lemma saved_map_named (trim : string -> string) (items : list Options.item) :
  named (map_in_force (Some (Options.save_categories trim items))).
Proof.
  destruct (OptionsFacts.well_formed_fold trim items []) as [HF _];
    [split; constructor|].
  unfold named, map_in_force. cbn [from_option id].
  eapply Forall_impl; [exact HF|]. intros e (H & _). exact H.
Qed.

End StoredFacts.

(** * Concrete runs of the properties above *)

Import MoreExamples Schedules.

Lemma no_focus_change_in_reports : Forall (fun c => ~ is_focus_change c) reports.
Proof. repeat constructor; intros (t & n & H); discriminate H. Qed.

Lemma saveDomainTime_accounts_witness :
  time_of (local (fst (run (saveDomainTime (Some "x.com") (Some "social") 5000) fresh)))
    "x.com" = time_of (local fresh) "x.com" + 5000.
Proof.
  apply (proj2 (saveDomainTime_accounts (Some "x.com") (Some "social") 5000 fresh)
           "x.com" eq_refl).
  discriminate.
Defined.

Lemma addDomainTime_then_getDomainTime_witness :
  exists c,
    emitted (onMessage simple_URL (Some (getDomainTime (Some "x.com"))) 200)
      (fst (run (onMessage simple_URL (Some (addDomainTime (Some "x.com") (Some 7000))) 100)
              (one_entry five_seconds)))
    = [Respond (domainTime 12000 c 100)].
Proof.
  destruct (addDomainTime_then_getDomainTime simple_URL "x.com" (Some 7000) 100 200
              (one_entry five_seconds)) as (c & H & _).
  - discriminate.
  - reflexivity.
  - exists c. exact H.
Defined.

Lemma no_focus_change_in_two_at_once :
  Forall (fun c => ~ is_focus_change c) (Overlap.begun two_at_once).
Proof. repeat constructor; intros (t & now & H); discriminate H. Qed.

Lemma persisted_time_within_reports_witness :
  time_of (local (Overlap.scheduled simple_URL two_at_once fresh)) "x.com" = 2000
  /\ 0 <= time_of (local (Overlap.scheduled simple_URL two_at_once fresh)) "x.com" <= 5000
  /\ time_of (local (Overlap.scheduled simple_URL
                       (Overlap.in_turn 4 0 (Overlap.begun two_at_once)) fresh)) "x.com"
     = 5000.
Proof.
  split; [vm_compute; reflexivity|].
  refine (OverlapFacts.persisted_time_within_reports simple_URL "x.com" two_at_once 4 fresh
            no_focus_change_in_two_at_once _).
  unfold Overlap.MAX_AWAITS. lia.
Defined.

Lemma no_focus_change_in_github_reports :
  Forall (fun c => ~ is_focus_change c) github_reports.
Proof. repeat constructor; intros (t & now & H); discriminate H. Qed.

Lemma focus_interval_attributed_witness :
  credited_all "github.com" github_reports = 30000
  /\ time_of (local (Overlap.scheduled simple_URL
                       (Overlap.in_turn 4 0
                          (FocusChange (Some github_tab) 1000
                           :: github_reports ++ [FocusChange None 61000])) fresh))
       "github.com" = 90000.
Proof.
  split; [reflexivity|].
  refine (proj1 (OverlapFacts.focus_interval_attributed simple_URL 1 "https://github.com/a"
                   github_url 1000 github_reports None 61000 4 fresh _ eq_refl _ _
                   no_focus_change_in_github_reports _)); try discriminate.
  unfold Overlap.MAX_AWAITS. lia.
Defined.

Lemma away_time_not_attributed_witness :
  local (fst (run (body simple_URL (FocusChange (Some github_tab) (hours 9)))
                (run_all simple_URL reports
                   (fst (run (body simple_URL (FocusChange None 1000))
                           (browsing 500 five_seconds))))))
  = local (run_all simple_URL reports
             (fst (run (body simple_URL (FocusChange None 1000))
                     (browsing 500 five_seconds)))).
Proof.
  exact (proj1 (away_time_not_attributed simple_URL None 1000 reports (Some github_tab)
                  (hours 9) (browsing 500 five_seconds) eq_refl
                  no_focus_change_in_reports)).
Defined.

Lemma unparsed_tab_counts_twice_witness :
  time_of (local (fst (run (body simple_URL (FocusChange None 3000))
                         (fst (run (body simple_URL
                                      (FocusChange
                                         (Some {| tab_id := 9; tab_url := Some "about" |})
                                         2000))
                                 (browsing 1000 five_seconds))))))
    "x.com" = 5000 + 1000 + 2000.
Proof.
  refine (proj2 (proj2 (proj2 (proj2 (proj2
            (unparsed_tab_counts_twice simple_URL 9 "about" "x.com" 2000 None 3000
               (browsing 1000 five_seconds) _ eq_refl eq_refl _ _)))))); discriminate.
Defined.

Lemma productive_interval_accumulates_witness :
  productiveAccumulated
    (mem (fst (run (handleTabChange simple_URL None 61000) (working None 0)))) = 60000.
Proof.
  refine (proj1 (productive_interval_accumulates simple_URL None 61000 (working None 0)
                   "productive" eq_refl _ eq_refl (or_introl eq_refl))).
  discriminate.
Defined.

Lemma custom_category_is_neutral_witness :
  streaks (fst (run (handleTabChange simple_URL None 61000) reading)) = streaks reading.
Proof.
  refine (proj1 (custom_category_is_neutral simple_URL None 61000 reading "bbc.com" "news"
                   eq_refl _ _ eq_refl _)); try discriminate.
  intros H. repeat (apply elem_of_cons in H as [H|H]; [discriminate H|]).
  apply elem_of_nil in H. exact H.
Defined.

Lemma getBackToWork_rearmed_in_running_interval_witness :
  let w := run_all simple_URL scrolling fresh in
  let w1 := fst (run (periodicChecks 901000) w) in
  let w2 := fst (run (handleTabChange simple_URL (Some reddit_tab) 910000) w1) in
  nudges (emitted (periodicChecks 901000) w) = [900000]
  /\ distractingStart (mem w1) = None
  /\ distractingStart (mem w2) = Some 31000
  /\ nudges (emitted (periodicChecks 931000) w2) = [900000].
Proof.
  refine (getBackToWork_rearmed_in_running_interval simple_URL (Some reddit_tab)
            901000 910000 931000 (run_all simple_URL scrolling fresh) "social" 1000
            _ _ _ _ _ _ _ _).
  - reflexivity.
  - vm_compute. discriminate.
  - reflexivity.
  - left. reflexivity.
  - reflexivity.
  - discriminate.
  - vm_compute. discriminate.
  - vm_compute. discriminate.
Defined.

Lemma distracting_interval_backdated_witness :
  nudges (emitted (periodicChecks (minutes 16))
            (fst (run (handleTabChange simple_URL None 2000) (browsing 1000 five_seconds))))
  = [minutes 16 - 1000].
Proof.
  refine (proj2 (distracting_interval_backdated simple_URL None 2000 (minutes 16)
                   (browsing 1000 five_seconds) "social" eq_refl _ eq_refl
                   (or_introl eq_refl)) eq_refl).
  discriminate.
Defined.

Lemma onInstalled_resets_witness :
  breaks_shown (emitted (periodicChecks (hours 3 + 1000))
                  (fst (run onInstalled (working (Some 1000) (hours 9)))))
  = [hours 3].
Proof.
  refine (proj2 (proj2 (proj2 (proj2 (proj2 (proj2
            (onInstalled_resets (hours 3 + 1000) (working (Some 1000) (hours 9)))))))) 1000
            eq_refl _).
  discriminate.
Defined.

Lemma no_reset_in_long_day : Forall (fun c => ~ is_reset c) long_day.
Proof. repeat constructor; intros (n & H); discriminate H. Qed.

Lemma showBreak_thresholds_ascend_witness :
  (length (breaks_shown (emitted_all simple_URL long_day (working (Some 1000%Z) 0%Z)))
   <= 3)%nat.
Proof.
  exact (proj2 (proj2 (showBreak_thresholds_ascend simple_URL long_day
                         (working (Some 1000) 0) no_reset_in_long_day))).
Defined.


Lemma accumulated_never_decreases_witness :
  0 <= productiveAccumulated (mem (run_all simple_URL long_day (working (Some 1000) 0))).
Proof.
  refine (accumulated_never_decreases simple_URL long_day (working (Some 1000) 0) 1000 _ _).
  - cbn. lia.
  - cbn. unfold hours. lia.
Defined.

Lemma x_page_tidy : Monitor.tidy x_page.
Proof.
  unfold Monitor.tidy, x_page, Monitor.loaded. cbn. repeat split; try lia; try discriminate.
  apply Z.divide_0_r.
Qed.

Lemma no_domainInfo_in_twenty_seconds :
  Forall (fun o => ~ Monitor.is_domainInfo o) twenty_seconds.
Proof. repeat constructor; intros (n & r & H); discriminate H. Qed.

Lemma monitor_stays_tidy_witness : Monitor.tidy (Monitor.occur_all twenty_seconds x_page).
Proof. exact (MonitorFacts.monitor_stays_tidy twenty_seconds x_page x_page_tidy). Defined.

Lemma monitor_conserves_time_witness :
  Content.baseDomainTimeMs (Monitor.vars (Monitor.occur_all twenty_seconds x_page)) =
  Content.baseDomainTimeMs (Monitor.vars x_page)
  + Monitor.total (Monitor.reported_by twenty_seconds x_page).
Proof.
  exact (proj1 (MonitorFacts.monitor_conserves_time twenty_seconds x_page
                  no_domainInfo_in_twenty_seconds)).
Defined.

Lemma monitor_reports_batches_witness :
  Forall (Monitor.batch (Some "x.com")) (Monitor.reported_by twenty_seconds x_page).
Proof.
  exact (proj1 (MonitorFacts.monitor_reports_batches twenty_seconds x_page x_page_tidy
                  no_domainInfo_in_twenty_seconds)).
Defined.

Lemma display_never_stale_witness :
  Monitor.display_current (Monitor.occur_all twenty_seconds x_page).
Proof. exact (MonitorFacts.display_never_stale twenty_seconds x_page eq_refl). Defined.

Lemma initial_at_rest : Overlay.at_rest Content.initial.
Proof. split; reflexivity. Qed.

Lemma break_runs_its_course_witness :
  Content.outbox (Content.happen_all (Overlay.full_course 0 2500)
                    (Content.startBreak 2500 Content.initial))
  = [Content.startBreakGlobal 2500; Content.endBreakGlobal].
Proof.
  exact (proj1 (BreakFacts.break_runs_its_course 2500 Content.initial initial_at_rest)).
Defined.

Lemma break_closed_early_witness :
  Content.outbox (Content.happen_all (Overlay.closed_early 0 0 1)
                    (Content.startBreak 2500 Content.initial))
  = [Content.startBreakGlobal 2500; Content.endBreakGlobal].
Proof.
  refine (proj1 (BreakFacts.break_closed_early 2500 1 Content.initial initial_at_rest _)).
  vm_compute. lia.
Defined.

Lemma never_two_banners_witness :
  (length (Content.attached (Content.happen_all restless Content.initial)) <= 1)%nat.
Proof.
  refine (BreakFacts.never_two_banners restless Content.initial _). cbn. lia.
Defined.

Lemma overlay_choice_bounded_witness :
  Content.overlay (Overlay.click_break (Overlay.manual (Some 90))
                     (Overlay.showBreakOptions Content.initial)) = false.
Proof.
  exact (proj1 (proj2 (BreakFacts.overlay_choice_bounded (Overlay.manual (Some 90))
                         (Overlay.showBreakOptions Content.initial)) eq_refl)).
Defined.


Lemma two_deliveries_delivered :
  Pipeline.delivered (Monitor.reported_by twenty_seconds x_page) two_deliveries.
Proof.
  replace (Monitor.reported_by twenty_seconds x_page)
    with [(Some "x.com", 15000); (Some "x.com", 5000)] by (vm_compute; reflexivity).
  repeat constructor; eexists; reflexivity.
Qed.

Lemma reports_are_persisted_witness :
  time_of (local (Overlap.scheduled simple_URL deliveries_at_once fresh)) "x.com" = 5000
  /\ 0 <= time_of (local (Overlap.scheduled simple_URL deliveries_at_once fresh)) "x.com"
          - time_of (local fresh) "x.com" <= 20000
  /\ time_of (local (Overlap.scheduled simple_URL (Overlap.in_turn 4 0 two_deliveries) fresh))
       "x.com" - time_of (local fresh) "x.com" = 20000
  /\ drop (length (sent fresh))
       (sent (Overlap.scheduled simple_URL (Overlap.in_turn 4 0 two_deliveries) fresh))
     = [Respond (ok true); Respond (ok true)].
Proof.
  split; [vm_compute; reflexivity|].
  refine (PipelineFacts.reports_are_persisted simple_URL "x.com" twenty_seconds x_page
            two_deliveries deliveries_at_once 4 fresh x_page_tidy eq_refl
            no_domainInfo_in_twenty_seconds two_deliveries_delivered eq_refl _).
  unfold Overlap.MAX_AWAITS. lia.
Defined.

Lemma earlier_categories_decide_witness :
  getCategoryForUrl simple_URL "https://github.com/a"
    (Some ([("work", ["github.com"])] ++ DEFAULT_CATEGORY_MAP))
  = getCategoryForUrl simple_URL "https://github.com/a" (Some [("work", ["github.com"])]).
Proof.
  exact (proj1 (PriorityFacts.earlier_categories_decide simple_URL "https://github.com/a"
                  github_url [("work", ["github.com"])] DEFAULT_CATEGORY_MAP eq_refl)
           eq_refl).
Defined.

Lemma saved_map_is_well_formed_witness :
  getCategoryForUrl simple_URL "https://bbc.com/" (Some (Options.save_categories id edited))
    = Normal "news"
  <-> first_match (pattern_matches (Some "bbc.com/") "https://bbc.com/")
        (flatten (Options.save_categories id edited)) "news".
Proof.
  exact (proj2 (OptionsFacts.saved_map_is_well_formed id simple_URL edited)
           (Options.save_categories id edited) "https://bbc.com/"
           {| hostname := "bbc.com"; pathname := "/" |} "news"
           (Permutation_refl _) eq_refl).
Defined.



Lemma counting_page_tidy : Monitor.tidy counting_page.
Proof.
  unfold counting_page, three_seconds. cbn [replicate Monitor.occur_all fold_left].
  repeat apply MonitorFacts.tidy_occur. exact x_page_tidy.
Qed.

Lemma addDomainTime_keeps_category_witness :
  let w := fst (interleave overlapping (one_entry five_seconds, [])) in
  let w' := fst (run (onMessage simple_URL
                        (Some (addDomainTime (Some "x.com") (Some 1000))) 9) w) in
  domain_category simple_URL w "x.com" = "other"
  /\ category <$> stats (local w') !! "x.com" = Some (Some "social").
Proof.
  split; [reflexivity|].
  refine (proj1 (StoredFacts.addDomainTime_keeps_category simple_URL overlapping
                   (one_entry five_seconds) "x.com" (Some 1000) 9 _ _)
            five_seconds _ _).
  - split; [|exact StoredFacts.default_map_named].
    intros d e H. unfold stats, one_entry in H.
    cbn [local set_domainStats domainStats from_option id] in H.
    apply lookup_singleton_Some in H as [_ <-]. discriminate.
  - unfold overlapping.
    repeat (apply List.Forall_cons; [first [exact I | left; eexists; reflexivity]|]).
    apply List.Forall_nil.
  - vm_compute. reflexivity.
  - discriminate.
Defined.

Lemma idle_time_is_not_counted_witness :
  let s1 := Monitor.occur (Monitor.IdleState "locked" 3010 3010) counting_page in
  let s2 := Monitor.occur_all
              [Monitor.TimerFires 1; Monitor.InactivityCheck 99000; Monitor.RedrawTimer] s1 in
  (Content.isCounting (Monitor.vars counting_page) = true
   /\ Content.unsentAccumMs (Monitor.vars counting_page) = 3000
   /\ Monitor.reported counting_page = []
   /\ Monitor.reported s1 = [(Some "x.com", 3000)])
  /\ Content.isCounting (Monitor.vars s1) = false /\ Monitor.live s1 = ∅
  /\ (truthyS (Content.currentDomain (Monitor.vars s1)) = true ->
      Content.unsentAccumMs (Monitor.vars s1) = 0)
  /\ Monitor.vars s2 = Monitor.vars s1 /\ Monitor.reported s2 = Monitor.reported s1.
Proof.
  split.
  - repeat split; vm_compute; reflexivity.
  - refine (MonitorFacts.idle_time_is_not_counted (Monitor.IdleState "locked" 3010 3010)
              [Monitor.TimerFires 1; Monitor.InactivityCheck 99000; Monitor.RedrawTimer]
              counting_page counting_page_tidy eq_refl _).
    repeat constructor.
Defined.
